(** * Trace collector: span hierarchy reconstruction, discovery and collection

    Shallow embedding of [trace_collector.py] (class
    [SkyWalkingTraceCollector] with its data containers), followed by the
    properties of the hierarchy builder [_build_span_records], of the paginated
    discovery [fetch_trace_summaries], of the coordinator [collect_traces] and
    of the serialiser [SpanRecord.to_dict].

    Conventions of the embedding:
    - Python [int] is [Z]; Python [str] is [string].
    - A JSON scalar read with [dict.get] is a [pyval]; [VNone] stands both for
      an explicit null and for a missing key ([dict.get] returns [None] in
      either case).  JSON floats are not represented.
    - A Python [dict] is an association list in insertion order ([dict_set]
      keeps the position of an existing key, as CPython does), because the
      order of [parents.items()] decides the order of the root list and of the
      breadth-first queue.
    - A loop that may run for ever takes a [fuel : nat]; [None] means that the
      fuel ran out. *)

From Stdlib Require Import List String Ascii ZArith Bool Arith Lia.
From Stdlib Require Import DecimalString Permutation.
Import ListNotations.
Local Open Scope string_scope.
Local Open Scope Z_scope.
Local Open Scope list_scope.

Set Implicit Arguments.

(* ------------------------------------------------------------------------- *)
(** ** Python values                                                          *)
(* ------------------------------------------------------------------------- *)

Inductive pyval : Type :=
| VNone
| VBool (b : bool)
| VInt (z : Z)
| VStr (s : string).

Definition is_None (v : pyval) : bool :=
  match v with VNone => true | _ => false end.

(** [str(z)] for an integer. *)
Definition str_of_Z (z : Z) : string := NilZero.string_of_int (Z.to_int z).

(** What an f-string field [{v}] renders. *)
Definition py_str (v : pyval) : string :=
  match v with
  | VNone => "None"
  | VBool true => "True"
  | VBool false => "False"
  | VInt z => str_of_Z z
  | VStr s => s
  end.

(** [bool(v)]. *)
Definition py_truthy (v : pyval) : bool :=
  match v with
  | VNone => false
  | VBool b => b
  | VInt z => negb (z =? 0)
  | VStr s => negb (s =? "")%string
  end.

(** [isinstance(v, int) and v >= 0]; [bool] is a subclass of [int] and both of
    its values compare [>= 0]. *)
Definition is_nonneg_int (v : pyval) : bool :=
  match v with
  | VInt z => 0 <=? z
  | VBool _ => true
  | _ => false
  end.

(** Truth value of an [Optional[str]]: [None] and the empty string are false. *)
Definition opt_str_truthy (o : option string) : bool :=
  match o with
  | Some s => negb (s =? "")%string
  | None => false
  end.

(* ------------------------------------------------------------------------- *)
(** ** Insertion-ordered dictionaries                                         *)
(* ------------------------------------------------------------------------- *)

Section Dict.
Variable V : Type.

Definition dict := list (string * V).

Fixpoint dict_get (d : dict) (k : string) : option V :=
  match d with
  | [] => None
  | (k', v) :: d' => if (k =? k')%string then Some v else dict_get d' k
  end.

(** [k in d] *)
Definition dict_mem (d : dict) (k : string) : bool :=
  match dict_get d k with Some _ => true | None => false end.

(** [d[k] = v] *)
Fixpoint dict_set (d : dict) (k : string) (v : V) : dict :=
  match d with
  | [] => [(k, v)]
  | (k', v') :: d' =>
      if (k =? k')%string then (k', v) :: d' else (k', v') :: dict_set d' k v
  end.

(** [d.setdefault(k, v)] (the returned value is not used by the source). *)
Definition dict_setdefault (d : dict) (k : string) (v : V) : dict :=
  if dict_mem d k then d else dict_set d k v.

(** [d.get(k, default)] *)
Definition dict_get_default (d : dict) (k : string) (default : V) : V :=
  match dict_get d k with Some v => v | None => default end.

Definition dict_keys (d : dict) : list string := map fst d.
End Dict.

(* ------------------------------------------------------------------------- *)
(** ** Data containers                                                        *)
(* ------------------------------------------------------------------------- *)

(** One entry of [tags] or of a log's [data]: [{key value}]. *)
Record KeyValue : Type := mkKeyValue {
  kv_key : string;
  kv_value : pyval
}.

(** One entry of [logs]: [{time data {key value}}]. *)
Record LogEntry : Type := mkLogEntry {
  log_time : Z;
  log_data : list KeyValue
}.

(** One entry of [refs]: [{traceId parentSegmentId parentSpanId type}]. *)
Record Ref : Type := mkRef {
  ref_traceId : pyval;
  ref_parentSegmentId : pyval;
  ref_parentSpanId : pyval;
  ref_type : pyval
}.

(** A span as the backend returns it (the selection set of
    [GRAPHQL_TRACE_DETAIL]).  The identifier fields, which the code inspects,
    are arbitrary JSON scalars.  [serviceCode] is a string or null, as the
    [SpanRecord] annotation has it.  [startTime] and [endTime] are [None] when
    the key is missing, in which case [dict.get(..., 0)] yields 0; list-valued
    fields that are null or missing are the empty list ([... or []]). *)
Record RawSpan : Type := mkRawSpan {
  traceId : pyval;
  segmentId : pyval;
  spanId : pyval;
  parentSpanId : pyval;
  serviceCode : option string;
  serviceInstanceName : pyval;
  startTime : option Z;
  endTime : option Z;
  endpointName : pyval;
  type_ : pyval;
  peer : pyval;
  component : pyval;
  isError : pyval;
  layer : pyval;
  tags : list KeyValue;
  logs : list LogEntry;
  refs : list Ref
}.

(** The mutable span dictionary [_build_span_records] works on: the backend's
    fields plus the key ["_node_id"] that stage 1 writes into it. *)
Record SpanDict : Type := mkSpanDict {
  fields : RawSpan;
  _node_id : option string
}.

(** A span dictionary fresh from the JSON decoder: no ["_node_id"] key. *)
Definition fresh (r : RawSpan) : SpanDict :=
  {| fields := r; _node_id := None |}.

(** [SpanRecord] dataclass. *)
Record SpanRecord : Type := mkSpanRecord {
  node_id : string;
  trace_id : pyval;
  segment_id : pyval;
  span_id : pyval;
  parent_span_id : pyval;
  parent_node_id : option string;
  service_code : option string;
  service_instance : pyval;
  start_ms : Z;
  end_ms : Z;
  endpoint_name : pyval;
  span_type : pyval;
  rec_peer : pyval;
  rec_component : pyval;
  is_error : bool;
  rec_layer : pyval;
  rec_tags : list KeyValue;
  rec_logs : list LogEntry;
  rec_refs : list Ref;
  children_ids : list string;
  depth : Z
}.

(* ------------------------------------------------------------------------- *)
(** ** [_build_span_records]                                                  *)
(* ------------------------------------------------------------------------- *)

(** [f"{a}:{b}"] *)
Definition fmt_node (a b : pyval) : string :=
  (py_str a ++ ":" ++ py_str b)%string.

(** Stage 1 (normalise).  The loop body either skips the span or writes
    ["_node_id"] into it, binds [nodes[node_id]] to it (the index of the span in
    [spans] stands for the reference) and makes sure [children] has the key. *)
Fixpoint stage1 (i : nat) (spans : list SpanDict)
    (nodes : dict nat) (children : dict (list string))
  : list SpanDict * dict nat * dict (list string) :=
  match spans with
  | [] => ([], nodes, children)
  | span :: rest =>
      let segment_id := segmentId (fields span) in
      let span_id := spanId (fields span) in
      if is_None segment_id || is_None span_id then
        let '(rest', nodes', children') := stage1 (S i) rest nodes children in
        (span :: rest', nodes', children')
      else
        let node_id := fmt_node segment_id span_id in
        let span' := {| fields := fields span; _node_id := Some node_id |} in
        let '(rest', nodes', children') :=
          stage1 (S i) rest (dict_set nodes node_id i)
                 (dict_setdefault children node_id []) in
        (span' :: rest', nodes', children')
  end.

(** The parent resolution of stage 2 for one span.  [span.get("parentSpanId",
    -1)] is [-1] for a missing key and [None] for a null; neither passes the
    [isinstance ... >= 0] test, so [VNone] covers both. *)
Definition resolve_parent (span : SpanDict) : option string :=
  let parent_span_id := parentSpanId (fields span) in
  let segment_id := segmentId (fields span) in
  if is_nonneg_int parent_span_id then
    Some (fmt_node segment_id parent_span_id)
  else
    match refs (fields span) with
    | [] => None
    | ref :: _ =>
        let parent_seg := ref_parentSegmentId ref in
        let parent_span := ref_parentSpanId ref in
        if negb (is_None parent_seg) && negb (is_None parent_span) then
          Some (fmt_node parent_seg parent_span)
        else None
    end.

(** [children[parent_node].append(node_id)], guarded by
    [parent_node and parent_node in children]. *)
Definition link_child (children : dict (list string))
    (parent_node : option string) (node_id : string) : dict (list string) :=
  match parent_node with
  | Some p =>
      if opt_str_truthy parent_node then
        match dict_get children p with
        | Some l => dict_set children p (l ++ [node_id])
        | None => children
        end
      else children
  | None => children
  end.

(** Stage 2 (relationships). *)
Fixpoint stage2 (spans : list SpanDict)
    (parents : dict (option string)) (children : dict (list string))
  : dict (option string) * dict (list string) :=
  match spans with
  | [] => (parents, children)
  | span :: rest =>
      if opt_str_truthy (_node_id span) then
        match _node_id span with
        | Some node_id =>
            let parent_node := resolve_parent span in
            stage2 rest (dict_set parents node_id parent_node)
                   (link_child children parent_node node_id)
        | None => stage2 rest parents children
        end
      else stage2 rest parents children
  end.

(** [parent not in nodes] *)
Definition not_in_nodes (nodes : dict nat) (parent : option string) : bool :=
  match parent with
  | Some p => negb (dict_mem nodes p)
  | None => true
  end.

(** [[node_id for node_id, parent in parents.items() if parent not in nodes]] *)
Definition compute_roots (parents : dict (option string)) (nodes : dict nat)
  : list string :=
  map fst (filter (fun item => not_in_nodes nodes (snd item)) parents).

(** Stage 3, the [while queue:] loop.  Besides [depths] the model threads
    [assigned], the sequence of executions of [depths[current] = depth]; it is
    a ghost of the model and influences nothing. *)
Fixpoint bfs (fuel : nat) (children : dict (list string))
    (queue : list (string * Z)) (depths : dict Z) (assigned : list (string * Z))
  : option (dict Z * list (string * Z)) :=
  match fuel with
  | O => None
  | S fuel' =>
      match queue with
      | [] => Some (depths, assigned)
      | (current, depth) :: queue' =>
          bfs fuel' children
              (queue' ++ map (fun child => (child, depth + 1))
                             (dict_get_default children current []))
              (dict_set depths current depth)
              (assigned ++ [(current, depth)])
      end
  end.

Definition Z_or_zero (o : option Z) : Z :=
  match o with Some z => z | None => 0 end.

(** The body of the final loop for a span that carries ["_node_id"]. *)
Definition make_record (parents : dict (option string))
    (children : dict (list string)) (depths : dict Z)
    (span : SpanDict) (node_id : string) : SpanRecord :=
  let f := fields span in
  {| node_id := node_id;
     trace_id := traceId f;
     segment_id := segmentId f;
     span_id := spanId f;
     parent_span_id := parentSpanId f;
     parent_node_id :=
       match dict_get parents node_id with Some p => p | None => None end;
     service_code := serviceCode f;
     service_instance := serviceInstanceName f;
     start_ms := Z_or_zero (startTime f);
     end_ms := Z_or_zero (endTime f);
     endpoint_name := endpointName f;
     span_type := type_ f;
     rec_peer := peer f;
     rec_component := component f;
     is_error := py_truthy (isError f);
     rec_layer := layer f;
     rec_tags := tags f;
     rec_logs := logs f;
     rec_refs := refs f;
     children_ids := dict_get_default children node_id [];
     depth := dict_get_default depths node_id 0 |}.

Fixpoint assemble (spans : list SpanDict) (parents : dict (option string))
    (children : dict (list string)) (depths : dict Z) : list SpanRecord :=
  match spans with
  | [] => []
  | span :: rest =>
      if opt_str_truthy (_node_id span) then
        match _node_id span with
        | Some node_id =>
            make_record parents children depths span node_id
              :: assemble rest parents children depths
        | None => assemble rest parents children depths
        end
      else assemble rest parents children depths
  end.

(** What a call of [_build_span_records] leaves behind: the returned pair
    [(span_records, roots)], the state of the argument's dictionaries after the
    call, and the ghost sequence of depth assignments. *)
Record BuildResult : Type := mkBuildResult {
  span_records : list SpanRecord;
  roots : list string;
  spans_after : list SpanDict;
  depth_assignments : list (string * Z)
}.

Definition _build_span_records (fuel : nat) (spans : list SpanDict)
  : option BuildResult :=
  let '(spans1, nodes, children0) := stage1 0 spans [] [] in
  let '(parents, children) := stage2 spans1 [] children0 in
  let roots := compute_roots parents nodes in
  let queue := map (fun node_id => (node_id, 0)) roots in
  match bfs fuel children queue [] [] with
  | None => None
  | Some (depths, assigned) =>
      Some {| span_records := assemble spans1 parents children depths;
              roots := roots;
              spans_after := spans1;
              depth_assignments := assigned |}
  end.

(** Raw spans for examples: only the identifying fields vary. *)
Definition span_of (seg sid parent : pyval) (rs : list Ref) : RawSpan :=
  {| traceId := VStr "t"; segmentId := seg; spanId := sid;
     parentSpanId := parent; serviceCode := Some "svc";
     serviceInstanceName := VStr "inst"; startTime := Some 0;
     endTime := Some 0; endpointName := VNone; type_ := VStr "Entry";
     peer := VNone; component := VNone; isError := VBool false;
     layer := VNone; tags := []; logs := []; refs := rs |}.

Definition ref_to (seg : string) (sid : Z) : Ref :=
  {| ref_traceId := VStr "t"; ref_parentSegmentId := VStr seg;
     ref_parentSpanId := VInt sid; ref_type := VStr "CROSS_PROCESS" |}.

Definition example_spans : list RawSpan :=
  [ span_of (VStr "A") (VInt 0) (VInt (-1)) [];
    span_of (VStr "A") (VInt 1) (VInt 0) [];
    span_of (VStr "B") (VInt 0) VNone [ref_to "A" 1] ].

Definition summary_of (r : SpanRecord) :=
  (node_id r, parent_node_id r, children_ids r, depth r).


(* ------------------------------------------------------------------------- *)
(** ** What the stages compute                                                *)
(* ------------------------------------------------------------------------- *)

(** The node identifier stage 1 gives a raw span, if it keeps it. *)
Definition node_id_of (r : RawSpan) : option string :=
  if is_None (segmentId r) || is_None (spanId r) then None
  else Some (fmt_node (segmentId r) (spanId r)).

(** The span dictionary after stage 1. *)
Definition tag (r : RawSpan) : SpanDict :=
  {| fields := r; _node_id := node_id_of r |}.

(** The ["_node_id"] that stages 2 and 4 accept ([if not node_id: continue]). *)
Definition tagged_id (s : SpanDict) : option string :=
  if opt_str_truthy (_node_id s) then _node_id s else None.

Definition opt_list (A : Type) (o : option A) : list A :=
  match o with Some a => [a] | None => [] end.

(** Node identifiers of the kept spans, in input order, with repetitions. *)
Definition kept_ids (raws : list RawSpan) : list string :=
  flat_map (fun r => opt_list (node_id_of r)) raws.

Definition tagged_ids (spans : list SpanDict) : list string :=
  flat_map (fun s => opt_list (tagged_id s)) spans.

(** The pairs stage 2 writes into [parents], in order. *)
Definition parent_items (spans : list SpanDict) : list (string * option string) :=
  flat_map (fun s => opt_list (option_map (fun y => (y, resolve_parent s))
                                          (tagged_id s))) spans.

Definition opt_str_eqb (a : option string) (x : string) : bool :=
  match a with Some p => (p =? x)%string | None => false end.

(** The identifiers stage 2 appends to [children[x]], in order. *)
Definition kids (spans : list SpanDict) (x : string) : list string :=
  map fst (filter (fun it => opt_str_eqb (snd it) x) (parent_items spans)).

(* ------------------------------------------------------------------------- *)
(** ** The dictionaries of one call                                           *)
(* ------------------------------------------------------------------------- *)

Definition nodes_of (raws : list RawSpan) : dict nat :=
  snd (fst (stage1 0 (map fresh raws) [] [])).

Definition children0_of (raws : list RawSpan) : dict (list string) :=
  snd (stage1 0 (map fresh raws) [] []).

Definition parents_of (raws : list RawSpan) : dict (option string) :=
  fst (stage2 (map tag raws) [] (children0_of raws)).

Definition children_of (raws : list RawSpan) : dict (list string) :=
  snd (stage2 (map tag raws) [] (children0_of raws)).

Definition roots_of (raws : list RawSpan) : list string :=
  compute_roots (parents_of raws) (nodes_of raws).

(** [parents.get(y)] after stage 2. *)
Definition parents_get (raws : list RawSpan) (y : string) : option string :=
  match dict_get (parents_of raws) y with Some p => p | None => None end.

(** The resolved parent of the first kept span whose identifier is [y]. *)
Definition parent_of (raws : list RawSpan) (y : string) : option string :=
  match find (fun r => opt_str_eqb (node_id_of r) y) raws with
  | Some r => resolve_parent (tag r)
  | None => None
  end.


(* ------------------------------------------------------------------------- *)
(** ** Forests of parent links                                                *)
(* ------------------------------------------------------------------------- *)

Section Forest.
Variable C : dict (list string).
Variable N : list string.
Variable par : string -> option string.

(** A known node without a known parent. *)
Definition is_root (x : string) : Prop :=
  In x N /\ forall p, par x = Some p -> ~ In p N.

(** [dist x d]: [x] is [d] parent links away from a root. *)
Inductive dist : string -> Z -> Prop :=
| dist_root x : is_root x -> dist x 0
| dist_child p x d :
    dist p d -> In p N -> In x N -> par x = Some p -> dist x (d + 1).

(** The invariant of the [while queue:] loop on a forest. *)
Record bfs_inv (queue : list (string * Z)) (depths : dict Z)
    (assigned : list (string * Z)) : Prop := {
  inv_nodup : NoDup (map fst assigned ++ map fst queue);
  inv_dist : forall x d, In (x, d) (assigned ++ queue) -> dist x d;
  inv_parent : forall x d, In (x, d) (assigned ++ queue) ->
    is_root x \/ exists p, par x = Some p /\ In p (map fst assigned);
  inv_roots : forall x, is_root x -> In x (map fst (assigned ++ queue));
  inv_closed : forall x y, In x (map fst assigned) ->
    In y (dict_get_default C x []) -> In y (map fst (assigned ++ queue));
  inv_depths : forall x d, dict_get depths x = Some d <-> In (x, d) assigned
}.
End Forest.

(** A raw span list forms a single tree rooted at [root]: identifiers do not
    repeat, [root] is the only span without a resolvable parent, and every
    kept span is some number of parent links away from it. *)
Definition single_rooted_tree (raws : list RawSpan) (root : string) : Prop :=
  NoDup (kept_ids raws) /\
  (forall x, is_root (kept_ids raws) (parent_of raws) x <-> x = root) /\
  (forall x, In x (kept_ids raws) ->
             exists d, dist (kept_ids raws) (parent_of raws) x d).

(* ------------------------------------------------------------------------- *)
(** ** Sample inputs                                                          *)
(* ------------------------------------------------------------------------- *)

(** Two spans with the same segment/span pair; the first names itself as
    parent, the second has no parent. *)
Definition looping_spans : list RawSpan :=
  [ span_of (VStr "A") (VInt 0) (VInt 0) [];
    span_of (VStr "A") (VInt 0) (VInt (-1)) [] ].

(** Distinct identifiers, with [A:0] and [A:1] naming each other as parent. *)
Definition cyclic_spans : list RawSpan :=
  [ span_of (VStr "B") (VInt 0) (VInt (-1)) [];
    span_of (VStr "A") (VInt 0) (VInt 1) [];
    span_of (VStr "A") (VInt 1) (VInt 0) [] ].

(** The same parentless span twice. *)
Definition repeated_spans : list RawSpan :=
  [ span_of (VStr "A") (VInt 0) (VInt (-1)) [];
    span_of (VStr "A") (VInt 0) (VInt (-1)) [] ].

(** [A:0] occurs twice: first as a child of [B:0], then without parent. *)
Definition reparented_spans : list RawSpan :=
  [ span_of (VStr "B") (VInt 0) (VInt (-1)) [];
    span_of (VStr "A") (VInt 0) VNone [ref_to "B" 0];
    span_of (VStr "A") (VInt 0) (VInt (-1)) [] ].

(** A span whose reference points outside the trace. *)
Definition dangling_spans : list RawSpan :=
  [ span_of (VStr "A") (VInt 0) (VInt (-1)) [];
    span_of (VStr "B") (VInt 0) VNone [ref_to "X" 9] ].

(** [A:0] occurs twice: first with a reference that points outside the
    trace, then as a child of [B:0]. *)
Definition shadowed_spans : list RawSpan :=
  [ span_of (VStr "A") (VInt 0) VNone [ref_to "X" 9];
    span_of (VStr "B") (VInt 0) (VInt (-1)) [];
    span_of (VStr "A") (VInt 0) VNone [ref_to "B" 0] ].

(** A span whose first reference lacks its [parentSegmentId]. *)
Definition half_ref : Ref :=
  {| ref_traceId := VStr "t"; ref_parentSegmentId := VNone;
     ref_parentSpanId := VInt 1; ref_type := VStr "CROSS_PROCESS" |}.

Definition half_ref_span : RawSpan :=
  span_of (VStr "B") (VInt 0) (VInt (-1)) [half_ref; ref_to "A" 1].

(* ------------------------------------------------------------------------- *)
(** ** Serialisation: [SpanRecord.to_dict] and [TraceSummary.to_dict]         *)
(* ------------------------------------------------------------------------- *)

(** [TraceSummary] dataclass. *)
Record TraceSummary : Type := mkTraceSummary {
  ts_trace_id : string;
  ts_duration_ms : Z;
  ts_start_ms : Z;
  ts_is_error : bool;
  ts_endpoint_names : list string
}.

(** The dictionaries the two [to_dict] methods return, key by key. *)
Record LogJson : Type := mkLogJson {
  lj_time_utc : string;
  lj_time_ms : Z;
  lj_data : dict pyval
}.

Record SpanJson : Type := mkSpanJson {
  sj_node_id : string;
  sj_trace_id : pyval;
  sj_segment_id : pyval;
  sj_span_id : pyval;
  sj_parent_span_id : pyval;
  sj_parent_node_id : option string;
  sj_depth : Z;
  sj_children_node_ids : list string;
  sj_service_code : option string;
  sj_service_instance : pyval;
  sj_start_time_utc : string;
  sj_end_time_utc : string;
  sj_start_timestamp_ms : Z;
  sj_end_timestamp_ms : Z;
  sj_duration_ms : Z;
  sj_endpoint_name : pyval;
  sj_type : pyval;
  sj_peer : pyval;
  sj_component : pyval;
  sj_layer : pyval;
  sj_is_error : bool;
  sj_tags : list KeyValue;
  sj_tags_map : dict pyval;
  sj_logs : list LogJson;
  sj_refs : list Ref
}.

Record SummaryJson : Type := mkSummaryJson {
  yj_trace_id : string;
  yj_duration_ms : Z;
  yj_start_time_utc : string;
  yj_start_timestamp_ms : Z;
  yj_is_error : bool;
  yj_endpoint_names : list string
}.

(** [{item["key"]: item.get("value") for item in items}] *)
Definition kv_map (items : list KeyValue) : dict pyval :=
  fold_left (fun d item => dict_set d (kv_key item) (kv_value item)) items [].

Section Serialisation.
(** [utc_iso] formats a time stamp through [datetime] and floating-point
    division; the model takes the formatter as given. *)
Variable utc_iso : Z -> string.

Definition to_dict (self : SpanRecord) : SpanJson :=
  let duration := Z.max 0 (end_ms self - start_ms self) in
  let tags_map := kv_map (rec_tags self) in
  let log_records :=
    map (fun entry => {| lj_time_utc := utc_iso (log_time entry);
                         lj_time_ms := log_time entry;
                         lj_data := kv_map (log_data entry) |})
        (rec_logs self) in
  {| sj_node_id := node_id self;
     sj_trace_id := trace_id self;
     sj_segment_id := segment_id self;
     sj_span_id := span_id self;
     sj_parent_span_id := parent_span_id self;
     sj_parent_node_id := parent_node_id self;
     sj_depth := depth self;
     sj_children_node_ids := children_ids self;
     sj_service_code := service_code self;
     sj_service_instance := service_instance self;
     sj_start_time_utc := utc_iso (start_ms self);
     sj_end_time_utc := utc_iso (end_ms self);
     sj_start_timestamp_ms := start_ms self;
     sj_end_timestamp_ms := end_ms self;
     sj_duration_ms := duration;
     sj_endpoint_name := endpoint_name self;
     sj_type := span_type self;
     sj_peer := rec_peer self;
     sj_component := rec_component self;
     sj_layer := rec_layer self;
     sj_is_error := is_error self;
     sj_tags := rec_tags self;
     sj_tags_map := tags_map;
     sj_logs := log_records;
     sj_refs := rec_refs self |}.

Definition summary_to_dict (self : TraceSummary) : SummaryJson :=
  {| yj_trace_id := ts_trace_id self;
     yj_duration_ms := ts_duration_ms self;
     yj_start_time_utc := utc_iso (ts_start_ms self);
     yj_start_timestamp_ms := ts_start_ms self;
     yj_is_error := ts_is_error self;
     yj_endpoint_names := ts_endpoint_names self |}.
End Serialisation.

(* ------------------------------------------------------------------------- *)
(** ** Exceptions                                                             *)
(* ------------------------------------------------------------------------- *)

Inductive exn : Type :=
| RuntimeError (msg : string).

Inductive result (A : Type) : Type :=
| Ok (a : A)
| Raise (e : exn).
Arguments Ok {A} a.
Arguments Raise {A} e.

(** The two run-level failures of [collect_traces]. *)
Definition NoSummaries : exn :=
  RuntimeError "No trace summaries were returned by SkyWalking.".

Definition AllFetchesFailed : exn :=
  RuntimeError "All trace detail requests failed; nothing collected.".

(* ------------------------------------------------------------------------- *)
(** ** [fetch_trace_summaries]                                                *)
(* ------------------------------------------------------------------------- *)

(** One element of [traces] in the reply to [GRAPHQL_TRACE_LIST]. *)
Record TraceEntry : Type := mkTraceEntry {
  traceIds : list string;
  te_duration : pyval;
  te_start : pyval;
  te_isError : pyval;
  endpointNames : list string
}.

(** The decoded reply: [total] (0 when missing) and [traces] ([[]] when
    missing or null). *)
Record Page : Type := mkPage {
  total : Z;
  traces : list TraceEntry
}.

(** [l[:n]] *)
Definition py_slice_to (A : Type) (l : list A) (n : Z) : list A :=
  if 0 <=? n then firstn (Z.to_nat n) l
  else firstn (List.length l - Z.to_nat (- n)) l.

(** [limit and len(summaries) >= limit] *)
Definition limit_reached (limit : Z) (summaries : list TraceSummary) : bool :=
  negb (limit =? 0) && (limit <=? Z.of_nat (List.length summaries)).

(** [summaries[:limit] if limit else summaries] *)
Definition truncate (limit : Z) (summaries : list TraceSummary)
  : list TraceSummary :=
  if negb (limit =? 0) then py_slice_to summaries limit else summaries.

Section Discovery.
(** [int(s)] for a string [s]; [None] when it raises [ValueError]. *)
Variable int_of_str : string -> option Z.

(** The reply of [_post_graphql] to the trace-list query with the given
    [pageNum] and [pageSize] ([Raise] once its retries are exhausted).  The
    rest of the query condition (time window, order, minimum duration) is
    the same for every page of one call and is part of the oracle. *)
Variable list_backend : Z -> Z -> result Page.

(** [int(v)] inside [try ... except (TypeError, ValueError)], with the
    fallback 0. *)
Definition int_or_zero (v : pyval) : Z :=
  match v with
  | VNone => 0
  | VBool b => if b then 1 else 0
  | VInt z => z
  | VStr s => match int_of_str s with Some z => z | None => 0 end
  end.

(** The [for entry in traces:] loop; [seen] is the set of identifiers
    already taken. *)
Fixpoint scan_page (limit : Z) (entries : list TraceEntry)
    (summaries : list TraceSummary) (seen : list string)
  : list TraceSummary * list string :=
  match entries with
  | [] => (summaries, seen)
  | entry :: rest =>
      match traceIds entry with
      | [] => scan_page limit rest summaries seen
      | trace_id :: _ =>
          if existsb (String.eqb trace_id) seen then
            scan_page limit rest summaries seen
          else
            let seen' := trace_id :: seen in
            let summaries' :=
              summaries ++
              [{| ts_trace_id := trace_id;
                  ts_duration_ms := int_or_zero (te_duration entry);
                  ts_start_ms := int_or_zero (te_start entry);
                  ts_is_error := py_truthy (te_isError entry);
                  ts_endpoint_names := endpointNames entry |}] in
            if limit_reached limit summaries' then (summaries', seen')
            else scan_page limit rest summaries' seen'
      end
  end.

(** The [while True:] loop. *)
Fixpoint paging (fuel : nat) (limit page_size page : Z)
    (summaries : list TraceSummary) (seen : list string)
    (total_available : Z) : option (result (list TraceSummary * Z)) :=
  match fuel with
  | O => None
  | S fuel' =>
      if limit_reached limit summaries then
        Some (Ok (truncate limit summaries, total_available))
      else
        match list_backend page page_size with
        | Raise e => Some (Raise e)
        | Ok reply =>
            let total_available := total reply in
            match traces reply with
            | [] => Some (Ok (truncate limit summaries, total_available))
            | _ =>
                let '(summaries', seen') :=
                  scan_page limit (traces reply) summaries seen in
                if Z.of_nat (List.length (traces reply)) <? page_size then
                  Some (Ok (truncate limit summaries', total_available))
                else
                  paging fuel' limit page_size (page + 1)
                         summaries' seen' total_available
            end
        end
  end.

Definition fetch_trace_summaries (fuel : nat) (limit page_size : Z)
  : option (result (list TraceSummary * Z)) :=
  let page_size :=
    Z.max 1 (Z.min page_size (if 0 <? limit then limit else page_size)) in
  paging fuel limit page_size 1 [] [] 0.

(** The entries of the [k] pages that start at page [first], as far as the
    backend answers. *)
Fixpoint entries_of_pages (page_size first : Z) (k : nat) : list TraceEntry :=
  match k with
  | O => []
  | S k' =>
      match list_backend first page_size with
      | Ok reply => traces reply ++ entries_of_pages page_size (first + 1) k'
      | Raise _ => []
      end
  end.
End Discovery.

(* ------------------------------------------------------------------------- *)
(** ** [collect_traces]                                                       *)
(* ------------------------------------------------------------------------- *)

(** One element of [collected]. *)
Record TraceJson : Type := mkTraceJson {
  tj_summary : SummaryJson;
  tj_span_count : Z;
  tj_services_involved : list string;
  tj_root_span_node_ids : list string;
  tj_spans : list SpanJson
}.

(** The written document.  Of [metadata] the model keeps the keys computed
    from the run; the echoed configuration ([generated_at], [lookback_hours],
    [experiment_name] and the two URLs) is left out. *)
Record Payload : Type := mkPayload {
  requested_trace_limit : Z;
  min_trace_duration_ms : Z;
  collected_traces : Z;
  available_total : Z;
  services_discovered : list string;
  payload_traces : list TraceJson
}.

Fixpoint insert_sorted (s : string) (l : list string) : list string :=
  match l with
  | [] => [s]
  | x :: l' =>
      match String.compare s x with
      | Lt => s :: l
      | Eq => l
      | Gt => x :: insert_sorted s l'
      end
  end.

(** [sorted(set(l))] for strings. *)
Definition sorted_set (l : list string) : list string :=
  fold_right insert_sorted [] l.

(** [{rec.service_code for rec in span_records if rec.service_code}] as a
    list. *)
Definition service_codes (records : list SpanRecord) : list string :=
  flat_map (fun rec => if opt_str_truthy (service_code rec)
                       then opt_list (service_code rec) else []) records.

Section Collection.
Variable utc_iso : Z -> string.
Variable int_of_str : string -> option Z.
Variable list_backend : Z -> Z -> result Page.

(** What [future.result()] gives for the trace with this identifier: the
    span list of [fetch_trace_spans], or the exception it raised. *)
Variable detail_backend : string -> result (list RawSpan).

(** The order in which [as_completed] hands back the futures of the
    submitted summaries. *)
Variable completion : list TraceSummary -> list TraceSummary.

(** The body of the [for future in as_completed(...)] loop on the state
    [(collected, services_seen)]. *)
Definition collect_one (fuel : nat) (summary : TraceSummary)
    (state : list TraceJson * list string)
  : option (list TraceJson * list string) :=
  let '(collected, services_seen) := state in
  match detail_backend (ts_trace_id summary) with
  | Raise _ => Some state
  | Ok spans =>
      match _build_span_records fuel (map fresh spans) with
      | None => None
      | Some built =>
          match span_records built with
          | [] => Some state
          | _ =>
              let services := sorted_set (service_codes (span_records built)) in
              Some (collected ++
                    [{| tj_summary := summary_to_dict utc_iso summary;
                        tj_span_count :=
                          Z.of_nat (List.length (span_records built));
                        tj_services_involved := services;
                        tj_root_span_node_ids := roots built;
                        tj_spans := map (to_dict utc_iso) (span_records built) |}],
                    services_seen ++ services)
          end
      end
  end.

Fixpoint collect_loop (fuel : nat) (futures : list TraceSummary)
    (state : list TraceJson * list string)
  : option (list TraceJson * list string) :=
  match futures with
  | [] => Some state
  | summary :: rest =>
      match collect_one fuel summary state with
      | None => None
      | Some state' => collect_loop fuel rest state'
      end
  end.

(** [collect_traces] returns the path of the file it wrote; the model
    returns the written document instead and, next to it, the list of the
    documents written during the call.  [max_workers] only sizes the pool
    and [experiment_name] only names the file. *)
Definition collect_traces (fuel : nat) (size min_duration_ms : Z)
  : option (result Payload * list Payload) :=
  match fetch_trace_summaries int_of_str list_backend fuel size 200 with
  | None => None
  | Some (Raise e) => Some (Raise e, [])
  | Some (Ok (summaries, total_available)) =>
      match summaries with
      | [] => Some (Raise NoSummaries, [])
      | _ =>
          match collect_loop fuel (completion summaries) ([], []) with
          | None => None
          | Some (collected, services_seen) =>
              match collected with
              | [] => Some (Raise AllFetchesFailed, [])
              | _ =>
                  let payload :=
                    {| requested_trace_limit := size;
                       min_trace_duration_ms := min_duration_ms;
                       collected_traces := Z.of_nat (List.length collected);
                       available_total := total_available;
                       services_discovered := sorted_set services_seen;
                       payload_traces := collected |} in
                  Some (Ok payload, [payload])
              end
          end
      end
  end.
End Collection.

(** The invariant of discovery: [seen] covers the identifiers taken so far,
    which are pairwise distinct. *)
Definition dedup_inv (summaries : list TraceSummary) (seen : list string)
  : Prop :=
  NoDup (map ts_trace_id summaries) /\
  forall x, In x (map ts_trace_id summaries) -> In x seen.

(** A fetched trace is usable when its fetch returned and at least one of its
    spans carries both identifiers. *)
Definition usable (detail_backend : string -> result (list RawSpan))
    (s : TraceSummary) : bool :=
  match detail_backend (ts_trace_id s) with
  | Raise _ => false
  | Ok spans => match kept_ids spans with [] => false | _ => true end
  end.

(** Sample backends. *)
Definition entry_of (id : string) : TraceEntry :=
  {| traceIds := [id]; te_duration := VInt 5; te_start := VStr "1700000000000";
     te_isError := VBool false; endpointNames := ["GET:/"] |}.

(** Three matching traces, all on the first page. *)
Definition three_traces (page page_size : Z) : result Page :=
  if page =? 1 then
    Ok {| total := 3;
          traces := [entry_of "t1"; entry_of "t2"; entry_of "t3"] |}
  else Ok {| total := 3; traces := [] |}.

(** The detail query fails for [t1], has no usable span for [t3] and returns
    the three-span example for every other trace. *)
Definition flaky_detail (trace_id : string) : result (list RawSpan) :=
  if (trace_id =? "t1")%string then Raise (RuntimeError "GraphQL request failed")
  else if (trace_id =? "t3")%string then
    Ok [span_of VNone (VInt 0) (VInt (-1)) []]
  else Ok example_spans.

(** The detail query answers every trace; the spans of [t2] are
    [looping_spans], on which the hierarchy builder does not return. *)
Definition looping_detail (trace_id : string) : result (list RawSpan) :=
  if (trace_id =? "t2")%string then Ok looping_spans else Ok example_spans.

Definition no_int_of_str (s : string) : option Z := None.
Definition no_utc_iso (t : Z) : string := "".

(* ------------------------------------------------------------------------- *)
(** ** [_post_graphql] and [fetch_trace_spans]                                *)
(* ------------------------------------------------------------------------- *)

(** What one pass through the [try] block meets. *)
Inductive attempt_reply (D : Type) : Type :=
| Failed (exc : string)
    (** [requests.post], [raise_for_status] or [resp.json] raised; [str(exc)] *)
| Errors (errors : string)
    (** the decoded body has the key ["errors"]; [str(data["errors"])] *)
| Data (data : option D).
    (** no ["errors"]; [data.get("data")], [None] when it is null, missing or
        an empty object *)
Arguments Failed {D} exc.
Arguments Errors {D} errors.
Arguments Data {D} data.

(** The observable effects of [_post_graphql]. *)
Inductive event : Type :=
| Post (attempt : Z)
| Sleep (wait : Z).

(** The exception the [except] clause catches, if any: [str(exc)]. *)
Definition attempt_outcome (D : Type) (r : attempt_reply D) : string + option D :=
  match r with
  | Failed exc => inl exc
  | Errors errors => inl errors
  | Data data => inr data
  end.

(** [f"GraphQL request failed after {attempt} attempts: {exc}"] *)
Definition failure_message (attempt : Z) (exc : string) : string :=
  ("GraphQL request failed after " ++ str_of_Z attempt ++ " attempts: " ++ exc)
    %string.

Section PostGraphql.
Variable D : Type.

(** The reply to the request of the given attempt. *)
Variable post : Z -> attempt_reply D.
Variable max_retries : Z.

(** The [for attempt in range(1, self.max_retries + 1)] loop with [remaining]
    iterations to go.  The returned [None] is the empty dictionary of
    [... or {}] and of the final [return {}]. *)
Fixpoint post_attempts (remaining : nat) (attempt : Z) (log : list event)
  : result (option D) * list event :=
  match remaining with
  | O => (Ok None, log)
  | S remaining' =>
      let log := log ++ [Post attempt] in
      match attempt_outcome (post attempt) with
      | inr data => (Ok data, log)
      | inl exc =>
          let wait := Z.min (3 * attempt) 10 in
          if attempt =? max_retries then
            (Raise (RuntimeError (failure_message attempt exc)), log)
          else post_attempts remaining' (attempt + 1) (log ++ [Sleep wait])
      end
  end.

Definition _post_graphql : result (option D) * list event :=
  post_attempts (Z.to_nat max_retries) 1 [].
End PostGraphql.

(** The reply to [GRAPHQL_TRACE_DETAIL]: [{trace: {spans: [...]}}], either
    level possibly null. *)
Record TraceObj : Type := mkTraceObj {
  to_spans : option (list RawSpan)
}.

Record DetailData : Type := mkDetailData {
  dd_trace : option TraceObj
}.

(** [(data.get("trace") or {}).get("spans") or []] *)
Definition spans_of_data (data : option DetailData) : list RawSpan :=
  match data with
  | Some d =>
      match dd_trace d with
      | Some t => match to_spans t with Some spans => spans | None => [] end
      | None => []
      end
  | None => []
  end.

Definition fetch_trace_spans (post : Z -> attempt_reply DetailData)
    (max_retries : Z) : result (list RawSpan) * list event :=
  match _post_graphql post max_retries with
  | (Ok data, log) => (Ok (spans_of_data data), log)
  | (Raise e, log) => (Raise e, log)
  end.

(** The effects of a call whose first [k - 1] attempts fail: every failed
    attempt is followed by its back-off sleep. *)
Fixpoint backoff_log (first : Z) (failures : nat) : list event :=
  match failures with
  | O => []
  | S n => Post first :: Sleep (Z.min (3 * first) 10) :: backoff_log (first + 1) n
  end.

Definition posts (log : list event) : list Z :=
  flat_map (fun e => match e with Post a => [a] | Sleep _ => [] end) log.

Definition sleeps (log : list event) : list Z :=
  flat_map (fun e => match e with Sleep w => [w] | Post _ => [] end) log.

Definition sum_Z (l : list Z) : Z := fold_right Z.add 0 l.

(** Sample transports: one that answers at the third attempt, one that never
    answers, one that answers at once with no trace. *)
Definition third_time_lucky (attempt : Z) : attempt_reply DetailData :=
  if attempt <? 3 then Failed "timeout"
  else Data (Some {| dd_trace := Some {| to_spans := Some example_spans |} |}).

Definition always_down (attempt : Z) : attempt_reply DetailData :=
  if attempt <? 3 then Failed "timeout" else Errors "[{'message': 'busy'}]".

Definition no_trace (attempt : Z) : attempt_reply DetailData :=
  Data (Some {| dd_trace := None |}).

(** The value of the last item of [items] whose key is [k]. *)
Fixpoint last_tag (items : list KeyValue) (k : string) : option pyval :=
  match items with
  | [] => None
  | item :: rest =>
      match last_tag rest k with
      | Some v => Some v
      | None => if (kv_key item =? k)%string then Some (kv_value item) else None
      end
  end.

(** The last raw span of [raws] that stage 1 keeps under the identifier [y]. *)
Fixpoint last_with_id (raws : list RawSpan) (y : string) : option RawSpan :=
  match raws with
  | [] => None
  | r :: rest =>
      match last_with_id rest y with
      | Some r' => Some r'
      | None => if opt_str_eqb (node_id_of r) y then Some r else None
      end
  end.

(** A raw span with both identifiers. *)
Definition usable_span (r : RawSpan) : bool :=
  match node_id_of r with Some _ => true | None => false end.

(** [p] is absent or names no kept span of [raws]. *)
Definition not_known (raws : list RawSpan) (p : option string) : bool :=
  match p with
  | Some q => negb (existsb (String.eqb q) (kept_ids raws))
  | None => true
  end.

(** What a caller of [_build_span_records] gets back. *)
Definition returned (res : BuildResult) : list SpanRecord * list string :=
  (span_records res, roots res).

Definition unusable_spans : list RawSpan :=
  [ span_of VNone (VInt 0) (VInt (-1)) [];
    span_of (VStr "A") VNone (VInt 0) [] ].

(** Two trees ([A:0] with child [A:1]; [B:0]) beside a cycle ([C:0], [C:1]). *)
Definition forest_spans : list RawSpan :=
  [ span_of (VStr "A") (VInt 1) (VInt 0) [];
    span_of (VStr "C") (VInt 0) (VInt 1) [];
    span_of (VStr "A") (VInt 0) (VInt (-1)) [];
    span_of (VStr "B") (VInt 0) VNone [ref_to "X" 7];
    span_of (VStr "C") (VInt 1) (VInt 0) [] ].

(** The summary [scan_page] makes of an entry that has an identifier. *)
Definition entry_summary (int_of_str : string -> option Z) (entry : TraceEntry)
  : option TraceSummary :=
  match traceIds entry with
  | [] => None
  | trace_id :: _ =>
      Some {| ts_trace_id := trace_id;
              ts_duration_ms := int_or_zero int_of_str (te_duration entry);
              ts_start_ms := int_or_zero int_of_str (te_start entry);
              ts_is_error := py_truthy (te_isError entry);
              ts_endpoint_names := endpointNames entry |}
  end.

(** Pages of two entries that overlap in [t2], then an empty page. *)
Definition overlapping_pages (page page_size : Z) : result Page :=
  if page =? 1 then Ok {| total := 3; traces := [entry_of "t1"; entry_of "t2"] |}
  else if page =? 2 then
    Ok {| total := 3; traces := [entry_of "t2"; entry_of "t3"] |}
  else Ok {| total := 3; traces := [] |}.

(** A full first page, then a backend failure. *)
Definition failing_second_page (page page_size : Z) : result Page :=
  if page =? 1 then Ok {| total := 9; traces := [entry_of "t1"; entry_of "t2"] |}
  else Raise (RuntimeError "GraphQL request failed after 3 attempts: timeout").

(** [page_size = max(1, min(page_size, limit if limit > 0 else page_size))]:
    the page size every query of one call asks for. *)
Definition asked_page_size (limit page_size : Z) : Z :=
  Z.max 1 (Z.min page_size (if 0 <? limit then limit else page_size)).

(** Page [page] is full: the backend serves it, it is not empty and not
    shorter than the page size, so that the loop goes on to the next page. *)
Definition full_page (list_backend : Z -> Z -> result Page)
    (page_size page : Z) : Prop :=
  exists reply,
    list_backend page page_size = Ok reply /\
    traces reply <> [] /\
    (Z.of_nat (List.length (traces reply)) <? page_size) = false.

(** The reply ends the data: it is empty or shorter than the page size. *)
Definition ends_data (page_size : Z) (reply : Page) : Prop :=
  traces reply = [] \/
  (Z.of_nat (List.length (traces reply)) <? page_size) = true.

(** The summaries of the first [k] pages: one per entry that has a trace
    identifier not seen earlier, in backend order. *)
Definition all_summaries (int_of_str : string -> option Z)
    (list_backend : Z -> Z -> result Page) (page_size : Z) (k : nat)
  : list TraceSummary :=
  fst (scan_page int_of_str 0 (entries_of_pages list_backend page_size 1 k)
                 [] []).

(** Strictly increasing in the order of [String.compare]. *)
Fixpoint increasing (l : list string) : Prop :=
  match l with
  | a :: (b :: _) as rest => String.compare a b = Lt /\ increasing rest
  | _ => True
  end.

(** What holds of the records collected so far and of [services_seen]. *)
Definition trace_consistent (t : TraceJson) : Prop :=
  tj_span_count t = Z.of_nat (List.length (tj_spans t)) /\
  0 < tj_span_count t /\
  increasing (tj_services_involved t) /\
  (forall s, In s (tj_services_involved t) <->
             exists sp, In sp (tj_spans t) /\
                        sj_service_code sp = Some s /\ s <> "").

Definition collected_consistent (collected : list TraceJson)
    (services_seen : list string) : Prop :=
  (forall t, In t collected ->
     trace_consistent t /\
     forall s, In s (tj_services_involved t) -> In s services_seen) /\
  (forall s, In s services_seen ->
     exists t, In t collected /\ In s (tj_services_involved t)).
(* ------------------------------------------------------------------------- *)
(** ** Dictionary lemmas                                                      *)
(* ------------------------------------------------------------------------- *)

Section DictFacts.
Variable V : Type.
Implicit Types (d : dict V) (k : string) (v : V).

Lemma dict_get_set d k v k' :
  dict_get (dict_set d k v) k' =
  if (k' =? k)%string then Some v else dict_get d k'.
Proof.
  induction d as [|[k0 v0] d IH]; simpl.
  - reflexivity.
  - destruct (String.eqb_spec k k0) as [->|Hk]; simpl.
    + destruct (String.eqb_spec k' k0); reflexivity.
    + rewrite IH. destruct (String.eqb_spec k' k0) as [->|]; [|reflexivity].
      destruct (String.eqb_spec k0 k); [congruence|reflexivity].
Qed.

Lemma dict_mem_keys d k : dict_mem d k = true <-> In k (dict_keys d).
Proof.
  unfold dict_mem, dict_keys.
  induction d as [|[k0 v0] d IH]; simpl.
  - split; [discriminate|tauto].
  - destruct (String.eqb_spec k k0) as [->|Hk].
    + split; auto.
    + rewrite IH. split; [auto|]. intros [E|H]; [congruence|exact H].
Qed.

Lemma dict_get_None_keys d k : dict_get d k = None <-> ~ In k (dict_keys d).
Proof.
  rewrite <- dict_mem_keys. unfold dict_mem.
  destruct (dict_get d k); intuition congruence.
Qed.

Lemma dict_keys_set d k v :
  dict_keys (dict_set d k v) =
  if dict_mem d k then dict_keys d else dict_keys d ++ [k].
Proof.
  unfold dict_mem, dict_keys.
  induction d as [|[k0 v0] d IH]; simpl.
  - reflexivity.
  - destruct (String.eqb_spec k k0) as [->|Hk]; simpl.
    + reflexivity.
    + rewrite IH. destruct (dict_get d k); reflexivity.
Qed.

Lemma dict_set_fresh d k v :
  ~ In k (dict_keys d) -> dict_set d k v = d ++ [(k, v)].
Proof.
  unfold dict_keys.
  induction d as [|[k0 v0] d IH]; simpl; intro H.
  - reflexivity.
  - destruct (String.eqb_spec k k0) as [->|Hk]; [tauto|].
    rewrite IH by tauto. reflexivity.
Qed.

Lemma dict_keys_set_In d k v x :
  In x (dict_keys (dict_set d k v)) <-> In x (dict_keys d) \/ x = k.
Proof.
  rewrite dict_keys_set. destruct (dict_mem d k) eqn:E.
  - apply dict_mem_keys in E. split; [auto|]. intros [H| ->]; assumption.
  - rewrite in_app_iff; simpl. intuition.
Qed.

Lemma dict_keys_set_NoDup d k v :
  NoDup (dict_keys d) -> NoDup (dict_keys (dict_set d k v)).
Proof.
  intro H. rewrite dict_keys_set. destruct (dict_mem d k) eqn:E; [exact H|].
  assert (~ In k (dict_keys d)) as Hk.
  { rewrite <- dict_mem_keys. congruence. }
  apply NoDup_app; [exact H | repeat constructor; simpl; tauto |].
  intros x Hx [<-|[]]. exact (Hk Hx).
Qed.

Lemma dict_get_In d k v : dict_get d k = Some v -> In (k, v) d.
Proof.
  induction d as [|[k0 v0] d IH]; simpl; [discriminate|].
  destruct (String.eqb_spec k k0) as [->|Hk].
  - intros [= ->]. left; reflexivity.
  - intro H. right. exact (IH H).
Qed.

Lemma dict_In_get d k v :
  NoDup (dict_keys d) -> In (k, v) d -> dict_get d k = Some v.
Proof.
  unfold dict_keys.
  induction d as [|[k0 v0] d IH]; simpl; [tauto|].
  intros Hnd [E|H].
  - injection E as -> ->. rewrite String.eqb_refl. reflexivity.
  - inversion Hnd as [|? ? Hk Hnd']; subst.
    destruct (String.eqb_spec k k0) as [->|_].
    + exfalso. apply Hk. change k0 with (fst (k0, v)). apply in_map, H.
    + exact (IH Hnd' H).
Qed.

Lemma dict_get_default_set d k v k' def :
  dict_get_default (dict_set d k v) k' def =
  if (k' =? k)%string then v else dict_get_default d k' def.
Proof.
  unfold dict_get_default. rewrite dict_get_set.
  destruct (k' =? k)%string; reflexivity.
Qed.
End DictFacts.

Lemma fmt_node_nonempty a b : (fmt_node a b =? "")%string = false.
Proof. unfold fmt_node. destruct (py_str a); reflexivity. Qed.

Lemma resolve_parent_truthy s p :
  resolve_parent s = Some p -> opt_str_truthy (Some p) = true.
Proof.
  unfold resolve_parent. simpl.
  destruct (is_nonneg_int _).
  - intros [= <-]. now rewrite fmt_node_nonempty.
  - destruct (refs (fields s)) as [|ref ?]; [discriminate|].
    destruct (_ && _); [|discriminate].
    intros [= <-]. now rewrite fmt_node_nonempty.
Qed.

Lemma tagged_id_tag r : tagged_id (tag r) = node_id_of r.
Proof.
  unfold tagged_id, tag, node_id_of; simpl.
  destruct (_ || _); simpl; [reflexivity|].
  now rewrite fmt_node_nonempty.
Qed.

Lemma tagged_ids_tag raws : tagged_ids (map tag raws) = kept_ids raws.
Proof.
  unfold tagged_ids, kept_ids. induction raws as [|r raws IH]; simpl.
  - reflexivity.
  - now rewrite tagged_id_tag, IH.
Qed.

Lemma parent_items_keys spans : map fst (parent_items spans) = tagged_ids spans.
Proof.
  unfold parent_items, tagged_ids.
  induction spans as [|s spans IH]; simpl; [reflexivity|].
  rewrite map_app, IH. now destruct (tagged_id s).
Qed.

(** *** Stage 1 *)

Lemma stage1_spans raws : forall i n c,
  fst (fst (stage1 i (map fresh raws) n c)) = map tag raws.
Proof.
  induction raws as [|r raws IH]; intros i n c; simpl; [reflexivity|].
  unfold tag at 1, node_id_of.
  destruct (is_None (segmentId r) || is_None (spanId r)).
  - specialize (IH (S i) n c).
    destruct (stage1 (S i) (map fresh raws) n c) as [[s' n'] c']; simpl in *.
    now rewrite IH.
  - specialize (IH (S i) (dict_set n (fmt_node (segmentId r) (spanId r)) i)
                   (dict_setdefault c (fmt_node (segmentId r) (spanId r)) [])).
    destruct (stage1 _ _ _ _) as [[s' n'] c']; simpl in *.
    now rewrite IH.
Qed.

Lemma stage1_nodes_keys raws : forall i n c x,
  In x (dict_keys (snd (fst (stage1 i (map fresh raws) n c)))) <->
  In x (dict_keys n) \/ In x (kept_ids raws).
Proof.
  induction raws as [|r raws IH]; intros i n c x; simpl.
  - tauto.
  - unfold node_id_of.
    destruct (is_None (segmentId r) || is_None (spanId r)); simpl.
    + specialize (IH (S i) n c x).
      destruct (stage1 (S i) (map fresh raws) n c) as [[s' n'] c']; simpl in *.
      exact IH.
    + specialize (IH (S i) (dict_set n (fmt_node (segmentId r) (spanId r)) i)
                   (dict_setdefault c (fmt_node (segmentId r) (spanId r)) []) x).
      destruct (stage1 _ _ _ _) as [[s' n'] c']; simpl in *.
      rewrite IH, dict_keys_set_In. intuition.
Qed.

Lemma dict_setdefault_get (V : Type) (d : dict V) k v k' :
  dict_get (dict_setdefault d k v) k' =
  match dict_get d k' with
  | Some w => Some w
  | None => if (k' =? k)%string then Some v else None
  end.
Proof.
  unfold dict_setdefault, dict_mem.
  destruct (dict_get d k) eqn:E.
  - destruct (dict_get d k') eqn:E'; [reflexivity|].
    destruct (String.eqb_spec k' k); [congruence|reflexivity].
  - rewrite dict_get_set.
    destruct (String.eqb_spec k' k) as [->|]; [now rewrite E|].
    now destruct (dict_get d k').
Qed.

(** After stage 1, [children] holds an empty list for exactly the kept
    identifiers (on top of what it held before). *)
Lemma stage1_children raws : forall i n c x,
  dict_get (snd (stage1 i (map fresh raws) n c)) x =
  match dict_get c x with
  | Some l => Some l
  | None => if existsb (String.eqb x) (kept_ids raws) then Some [] else None
  end.
Proof.
  induction raws as [|r raws IH]; intros i n c x; simpl.
  - now destruct (dict_get c x).
  - unfold node_id_of.
    destruct (is_None (segmentId r) || is_None (spanId r)); simpl.
    + specialize (IH (S i) n c x).
      destruct (stage1 (S i) (map fresh raws) n c) as [[s' n'] c']; simpl in *.
      exact IH.
    + specialize (IH (S i) (dict_set n (fmt_node (segmentId r) (spanId r)) i)
                   (dict_setdefault c (fmt_node (segmentId r) (spanId r)) []) x).
      destruct (stage1 _ _ _ _) as [[s' n'] c']; simpl in *.
      rewrite IH, dict_setdefault_get.
      destruct (dict_get c x); [reflexivity|].
      destruct (x =? fmt_node (segmentId r) (spanId r))%string; simpl;
        [reflexivity|].
      reflexivity.
Qed.

(** *** Stage 2 *)

Lemma link_child_get C p y x :
  opt_str_truthy p = true \/ p = None ->
  dict_get (link_child C p y) x =
  option_map (fun l => l ++ (if opt_str_eqb p x then [y] else []))
             (dict_get C x).
Proof.
  intros Hp. unfold link_child.
  destruct p as [p|]; simpl.
  - destruct Hp as [Hp|Hp]; [|discriminate]. simpl in Hp. rewrite Hp.
    destruct (dict_get C p) as [l|] eqn:E.
    + rewrite dict_get_set. rewrite (String.eqb_sym x p).
      destruct (String.eqb_spec p x) as [->|].
      * now rewrite E.
      * destruct (dict_get C x); simpl; [now rewrite app_nil_r|reflexivity].
    + destruct (String.eqb_spec p x) as [->|].
      * now rewrite E.
      * destruct (dict_get C x); simpl; [now rewrite app_nil_r|reflexivity].
  - destruct (dict_get C x); simpl; [now rewrite app_nil_r|reflexivity].
Qed.

Lemma resolve_parent_cases s :
  opt_str_truthy (resolve_parent s) = true \/ resolve_parent s = None.
Proof.
  destruct (resolve_parent s) as [p|] eqn:E; [left|now right].
  exact (resolve_parent_truthy _ E).
Qed.

Lemma stage2_step s P C :
  stage2 [s] P C =
  match tagged_id s with
  | Some y => (dict_set P y (resolve_parent s),
               link_child C (resolve_parent s) y)
  | None => (P, C)
  end.
Proof.
  unfold tagged_id; simpl.
  destruct (opt_str_truthy (_node_id s)) eqn:E; [|reflexivity].
  destruct (_node_id s); [reflexivity|discriminate].
Qed.

Lemma stage2_cons s spans P C :
  stage2 (s :: spans) P C =
  let '(P1, C1) := stage2 [s] P C in stage2 spans P1 C1.
Proof.
  simpl. destruct (opt_str_truthy (_node_id s)); [|reflexivity].
  destruct (_node_id s); reflexivity.
Qed.

Lemma kids_cons s spans x :
  kids (s :: spans) x =
  match tagged_id s with
  | Some y => if opt_str_eqb (resolve_parent s) x then [y] else []
  | None => []
  end ++ kids spans x.
Proof.
  unfold kids, parent_items; simpl.
  rewrite filter_app, map_app. f_equal.
  destruct (tagged_id s); simpl; [|reflexivity].
  destruct (opt_str_eqb _ _); reflexivity.
Qed.

Lemma stage2_children spans : forall P C x,
  dict_get (snd (stage2 spans P C)) x =
  option_map (fun l => l ++ kids spans x) (dict_get C x).
Proof.
  induction spans as [|s spans IH]; intros P C x.
  - simpl. destruct (dict_get C x); simpl; [now rewrite app_nil_r|reflexivity].
  - rewrite stage2_cons, stage2_step, kids_cons.
    destruct (tagged_id s) as [y|].
    + rewrite IH, link_child_get by apply resolve_parent_cases.
      destruct (dict_get C x); simpl; [|reflexivity].
      now rewrite <- app_assoc.
    + now rewrite IH.
Qed.

Lemma stage2_parents_keys spans : forall P C x,
  In x (dict_keys (fst (stage2 spans P C))) <->
  In x (dict_keys P) \/ In x (tagged_ids spans).
Proof.
  induction spans as [|s spans IH]; intros P C x.
  - simpl. tauto.
  - rewrite stage2_cons, stage2_step. unfold tagged_ids; simpl.
    fold (tagged_ids spans). rewrite in_app_iff.
    destruct (tagged_id s) as [y|]; rewrite IH; simpl.
    + rewrite dict_keys_set_In. intuition.
    + tauto.
Qed.

Lemma stage2_parents_NoDup spans : forall P C,
  NoDup (dict_keys P) -> NoDup (dict_keys (fst (stage2 spans P C))).
Proof.
  induction spans as [|s spans IH]; intros P C H.
  - exact H.
  - rewrite stage2_cons, stage2_step.
    destruct (tagged_id s) as [y|]; apply IH; [|exact H].
    now apply dict_keys_set_NoDup.
Qed.

(** When no identifier repeats, [parents] is the list of written pairs. *)
Lemma stage2_parents_distinct spans : forall P C,
  NoDup (dict_keys P ++ tagged_ids spans) ->
  fst (stage2 spans P C) = P ++ parent_items spans.
Proof.
  induction spans as [|s spans IH]; intros P C H.
  - simpl. now rewrite app_nil_r.
  - rewrite stage2_cons, stage2_step.
    unfold tagged_ids, parent_items in *; simpl in *.
    fold (tagged_ids spans) in *. fold (parent_items spans) in *.
    destruct (tagged_id s) as [y|]; simpl in *.
    + assert (~ In y (dict_keys P)) as Hy.
      { intro Hy. apply NoDup_remove_2 in H. apply H.
        apply in_or_app. now left. }
      rewrite IH.
      * rewrite dict_set_fresh by exact Hy. now rewrite <- app_assoc.
      * rewrite dict_set_fresh by exact Hy.
        unfold dict_keys in *. rewrite map_app; simpl.
        rewrite <- app_assoc. exact H.
    + now apply IH.
Qed.

(* ------------------------------------------------------------------------- *)
(** ** The breadth-first loop on a forest                                     *)
(* ------------------------------------------------------------------------- *)

(** The loop is studied for a [children] dictionary that inverts a parent
    function [par] on a set [N] of known nodes: this is what stage 2 produces
    when no node identifier repeats. *)
Section BFS.
Variable C : dict (list string).
Variable N : list string.
Variable par : string -> option string.

Local Abbreviation is_root := (is_root N par).
Local Abbreviation dist := (dist N par).
Local Abbreviation bfs_inv := (bfs_inv C N par).

Lemma dist_known x d : dist x d -> In x N.
Proof. destruct 1 as [x [H _]|]; assumption. Qed.

Lemma dist_nonneg x d : dist x d -> 0 <= d.
Proof. induction 1; lia. Qed.

Lemma dist_functional x d : dist x d -> forall d', dist x d' -> d = d'.
Proof.
  induction 1 as [x [_ Hr]|p x d Hp IH HpN HxN Hpar]; intros d' H'.
  - destruct H' as [|p' x' d' _ HpN' _ Hpar']; [reflexivity|].
    exfalso. exact (Hr _ Hpar' HpN').
  - destruct H' as [x' [_ Hr]|p' x' d' Hp' _ _ Hpar'].
    + exfalso. exact (Hr _ Hpar HpN).
    + assert (p' = p) as -> by congruence. now rewrite (IH _ Hp').
Qed.

Hypothesis Hch : forall x y,
  In y (dict_get_default C x []) <-> In x N /\ In y N /\ par y = Some x.
Hypothesis HchND : forall x, NoDup (dict_get_default C x []).

Lemma bfs_inv_init rts :
  NoDup rts -> (forall x, In x rts <-> is_root x) ->
  bfs_inv (map (fun r => (r, 0)) rts) [] [].
Proof.
  intros Hnd Hr. constructor; simpl.
  - rewrite map_map; simpl. now rewrite map_id.
  - intros x d H. apply in_map_iff in H as (r & [= <- <-] & H).
    apply dist_root. now apply Hr.
  - intros x d H. apply in_map_iff in H as (r & [= <- <-] & H).
    left. now apply Hr.
  - intros x H. rewrite map_map; simpl. rewrite map_id. now apply Hr.
  - tauto.
  - intros x d. split; [discriminate|tauto].
Qed.

Lemma bfs_inv_step x d q depths A :
  bfs_inv ((x, d) :: q) depths A ->
  bfs_inv (q ++ map (fun c => (c, d + 1)) (dict_get_default C x []))
          (dict_set depths x d) (A ++ [(x, d)]).
Proof.
  intros [Hnd Hdist Hpar Hroots Hclosed Hdepths].
  set (kidsx := dict_get_default C x []) in *.
  assert (Hx : dist x d) by (apply Hdist, in_or_app; right; now left).
  assert (HxA : ~ In x (map fst A)) by (now apply NoDup_remove_2 in Hnd;
    intro; apply Hnd, in_or_app; left).
  assert (Hmem : forall z, In z ((A ++ [(x, d)]) ++ q ++
                                 map (fun c => (c, d + 1)) kidsx) <->
                           In z (A ++ (x, d) :: q) \/
                           In z (map (fun c => (c, d + 1)) kidsx)).
  { intro z. rewrite !in_app_iff; simpl. tauto. }
  assert (Hkid : forall y e, In (y, e) (map (fun c => (c, d + 1)) kidsx) ->
                             e = d + 1 /\ In y kidsx).
  { intros y e H. apply in_map_iff in H as (c & [= <- <-] & H). now split. }
  constructor.
  - rewrite !map_app, map_map; simpl. rewrite map_id.
    replace ((map fst A ++ [x]) ++ map fst q ++ kidsx)
      with ((map fst A ++ x :: map fst q) ++ kidsx)
      by (now rewrite <- !app_assoc).
    apply NoDup_app; [exact Hnd | apply HchND |].
    intros y Hy Hk. apply Hch in Hk as (HxN & _ & Hpy).
    assert (exists e, In (y, e) (A ++ (x, d) :: q)) as [e He].
    { change (x :: map fst q) with (map fst ((x, d) :: q)) in Hy.
      rewrite <- map_app in Hy.
      apply in_map_iff in Hy as ([y' e] & <- & H). now exists e. }
    destruct (Hpar _ _ He) as [[_ Hr]|(p & Hp & HpA)].
    + exact (Hr _ Hpy HxN).
    + apply HxA. congruence.
  - intros y e H. apply Hmem in H as [H|H]; [now apply (Hdist y e)|].
    apply Hkid in H as [-> H]. apply Hch in H as (HxN & HyN & Hpy).
    now apply dist_child with (p := x).
  - intros y e H. apply Hmem in H as [H|H].
    + destruct (Hpar _ _ H) as [Hr|(p & Hp & HpA)]; [now left|].
      right. exists p. split; [exact Hp|].
      rewrite map_app. apply in_or_app. now left.
    + apply Hkid in H as [-> H]. apply Hch in H as (_ & _ & Hpy).
      right. exists x. split; [exact Hpy|].
      rewrite map_app. apply in_or_app. right. now left.
  - intros y Hy. specialize (Hroots _ Hy).
    apply in_map_iff in Hroots as ([y' e] & <- & H).
    apply in_map_iff. exists (y', e). split; [reflexivity|].
    apply Hmem. now left.
  - intros y z Hy Hz. rewrite map_app, in_app_iff in Hy.
    destruct Hy as [Hy|[<-|[]]].
    + specialize (Hclosed _ _ Hy Hz).
      apply in_map_iff in Hclosed as ([z' e] & <- & H).
      apply in_map_iff. exists (z', e). split; [reflexivity|].
      apply Hmem. now left.
    + apply in_map_iff. exists (z, d + 1). split; [reflexivity|].
      apply Hmem. right. apply in_map_iff. now exists z.
  - intros y e. rewrite dict_get_set, in_app_iff; simpl.
    destruct (String.eqb_spec y x) as [->|Hne].
    + split.
      * intros [= <-]. right. now left.
      * intros [H|[[= <-]|[]]]; [|reflexivity].
        exfalso. apply HxA. apply in_map_iff. now exists (x, e).
    + rewrite Hdepths. split; [tauto|].
      intros [H|[[= E _]|[]]]; [exact H|congruence].
Qed.

Lemma bfs_inv_bound queue depths A :
  bfs_inv queue depths A -> (List.length A <= List.length N)%nat.
Proof.
  intros [Hnd Hdist _ _ _ _].
  rewrite <- (length_map fst A).
  apply NoDup_incl_length.
  - now apply NoDup_app_remove_r in Hnd.
  - intros x Hx. apply in_map_iff in Hx as ([x' e] & <- & H).
    apply dist_known with (d := e). apply Hdist, in_or_app. now left.
Qed.

(** The loop ends within [len(N) + 1] iterations. *)
Lemma bfs_terminates : forall fuel queue depths A,
  bfs_inv queue depths A ->
  (List.length N < fuel + List.length A)%nat ->
  exists depths' A',
    bfs fuel C queue depths A = Some (depths', A') /\ bfs_inv [] depths' A'.
Proof.
  induction fuel as [|fuel IH]; intros queue depths A Hinv Hfuel.
  - apply bfs_inv_bound in Hinv. lia.
  - destruct queue as [|[x d] q]; simpl.
    + now exists depths, A.
    + apply IH.
      * now apply bfs_inv_step.
      * rewrite length_app; simpl. lia.
Qed.

Lemma bfs_inv_complete depths A :
  bfs_inv [] depths A -> forall x d, dist x d -> In x (map fst A).
Proof.
  intros [_ _ _ Hroots Hclosed _].
  induction 1 as [x Hr|p x d Hp IH HpN HxN Hpar].
  - specialize (Hroots _ Hr). now rewrite app_nil_r in Hroots.
  - specialize (Hclosed p x IH). rewrite app_nil_r in Hclosed.
    apply Hclosed. apply Hch. auto.
Qed.

(** At the end every node reachable from a root has its distance as depth,
    and nothing else has a depth. *)
Lemma bfs_inv_final depths A :
  bfs_inv [] depths A ->
  NoDup (map fst A) /\
  (forall x d, dict_get depths x = Some d <-> dist x d).
Proof.
  intros Hinv. pose proof Hinv as [Hnd Hdist _ _ _ Hdepths].
  rewrite app_nil_r in Hnd. split; [exact Hnd|].
  intros x d. rewrite Hdepths. split.
  - intro H. apply Hdist. now rewrite app_nil_r.
  - intro H. pose proof (bfs_inv_complete Hinv H) as HxA.
    apply in_map_iff in HxA as ([x' e] & <- & HA). simpl in *.
    assert (dist x' e) as He by (apply Hdist; now rewrite app_nil_r).
    now rewrite (dist_functional H He).
Qed.
End BFS.

Lemma build_unfold fuel raws :
  _build_span_records fuel (map fresh raws) =
  match bfs fuel (children_of raws)
            (map (fun node_id => (node_id, 0)) (roots_of raws)) [] [] with
  | None => None
  | Some (depths, assigned) =>
      Some {| span_records :=
                assemble (map tag raws) (parents_of raws) (children_of raws)
                         depths;
              roots := roots_of raws;
              spans_after := map tag raws;
              depth_assignments := assigned |}
  end.
Proof.
  unfold _build_span_records, roots_of, parents_of, children_of, children0_of,
    nodes_of.
  pose proof (stage1_spans raws 0%nat [] []) as E.
  destruct (stage1 0 (map fresh raws) [] []) as [[s1 n1] c1]; simpl in *.
  subst s1. destruct (stage2 (map tag raws) [] c1) as [P C]; reflexivity.
Qed.

Lemma existsb_eqb_In x l : existsb (String.eqb x) l = true <-> In x l.
Proof.
  rewrite existsb_exists. split.
  - intros (y & Hy & E). apply String.eqb_eq in E. now subst.
  - intro H. exists x. split; [exact H|apply String.eqb_refl].
Qed.

Lemma nodes_of_keys raws x : In x (dict_keys (nodes_of raws)) <-> In x (kept_ids raws).
Proof.
  unfold nodes_of. rewrite stage1_nodes_keys. simpl. tauto.
Qed.

Lemma nodes_of_mem raws x : dict_mem (nodes_of raws) x = true <-> In x (kept_ids raws).
Proof. now rewrite dict_mem_keys, nodes_of_keys. Qed.

Lemma children_of_get raws x :
  dict_get (children_of raws) x =
  if existsb (String.eqb x) (kept_ids raws)
  then Some (kids (map tag raws) x) else None.
Proof.
  unfold children_of, children0_of.
  rewrite stage2_children, stage1_children. simpl.
  now destruct (existsb _ _).
Qed.

Lemma parents_of_keys raws x :
  In x (dict_keys (parents_of raws)) <-> In x (kept_ids raws).
Proof.
  unfold parents_of. rewrite stage2_parents_keys, tagged_ids_tag. simpl. tauto.
Qed.

Lemma parents_of_NoDup raws : NoDup (dict_keys (parents_of raws)).
Proof. apply stage2_parents_NoDup. constructor. Qed.

Lemma parents_of_distinct raws :
  NoDup (kept_ids raws) -> parents_of raws = parent_items (map tag raws).
Proof.
  intro H. unfold parents_of.
  rewrite stage2_parents_distinct; [reflexivity|].
  simpl. now rewrite tagged_ids_tag.
Qed.

Lemma parent_items_get raws y :
  dict_get (parent_items (map tag raws)) y =
  option_map (fun r => resolve_parent (tag r))
             (find (fun r => opt_str_eqb (node_id_of r) y) raws).
Proof.
  unfold parent_items. induction raws as [|r raws IH]; simpl; [reflexivity|].
  rewrite tagged_id_tag. destruct (node_id_of r) as [x|]; simpl.
  - rewrite (String.eqb_sym y x). destruct (x =? y)%string; [reflexivity|].
    exact IH.
  - exact IH.
Qed.

Lemma parents_get_distinct raws y :
  NoDup (kept_ids raws) -> parents_get raws y = parent_of raws y.
Proof.
  intro H. unfold parents_get, parent_of.
  rewrite parents_of_distinct, parent_items_get by exact H.
  now destruct (find _ raws).
Qed.

(** *** The root list *)

Lemma compute_roots_In (P : dict (option string)) (n : dict nat) x :
  NoDup (dict_keys P) ->
  In x (compute_roots P n) <->
  exists p, dict_get P x = Some p /\ not_in_nodes n p = true.
Proof.
  intro Hnd. unfold compute_roots. rewrite in_map_iff. split.
  - intros ([x' p] & <- & H). apply filter_In in H as [H Hp].
    exists p. split; [now apply dict_In_get|exact Hp].
  - intros (p & Hg & Hp). exists (x, p). split; [reflexivity|].
    apply filter_In. split; [now apply dict_get_In|exact Hp].
Qed.

Lemma NoDup_map_fst_filter (A B : Type) (f : A * B -> bool) (l : list (A * B)) :
  NoDup (map fst l) -> NoDup (map fst (filter f l)).
Proof.
  induction l as [|a l IH]; simpl; intro H; [constructor|].
  inversion H as [|? ? Ha Hl]; subst.
  destruct (f a); simpl; [|now apply IH].
  constructor; [|now apply IH].
  intro Hin. apply Ha. apply in_map_iff in Hin as (b & E & Hb).
  apply filter_In in Hb as [Hb _]. apply in_map_iff. now exists b.
Qed.

Lemma roots_of_NoDup raws : NoDup (roots_of raws).
Proof. apply NoDup_map_fst_filter, parents_of_NoDup. Qed.

Lemma not_in_nodes_spec raws p :
  not_in_nodes (nodes_of raws) p = true <->
  forall q, p = Some q -> ~ In q (kept_ids raws).
Proof.
  destruct p as [q|]; simpl.
  - rewrite negb_true_iff, <- not_true_iff_false, nodes_of_mem.
    split; [now intros H ? [= <-]|intros H; now apply H].
  - split; [discriminate|reflexivity].
Qed.

(** The root list holds exactly the known identifiers whose entry in
    [parents] is [None] or names no known node. *)
Lemma roots_of_spec raws x :
  In x (roots_of raws) <-> is_root (kept_ids raws) (parents_get raws) x.
Proof.
  unfold roots_of, is_root, parents_get.
  rewrite compute_roots_In by apply parents_of_NoDup. split.
  - intros (p & Hg & Hp). rewrite Hg. split.
    + apply parents_of_keys. apply dict_get_In in Hg.
      change x with (fst (x, p)). now apply in_map.
    + now apply not_in_nodes_spec.
  - intros [HN Hp].
    destruct (dict_get (parents_of raws) x) as [p|] eqn:Hg.
    + exists p. split; [reflexivity|]. now apply not_in_nodes_spec.
    + exfalso. apply dict_get_None_keys in Hg. apply Hg.
      now apply parents_of_keys.
Qed.

(** *** The children map when no identifier repeats *)

Lemma children_of_default raws x :
  dict_get_default (children_of raws) x [] =
  if existsb (String.eqb x) (kept_ids raws) then kids (map tag raws) x else [].
Proof.
  unfold dict_get_default. rewrite children_of_get.
  now destruct (existsb _ _).
Qed.

Lemma opt_str_eqb_eq p x : opt_str_eqb p x = true <-> p = Some x.
Proof.
  destruct p as [q|]; simpl; [|split; discriminate].
  rewrite String.eqb_eq. split; [now intros ->|now intros [= ->]].
Qed.

Lemma kids_In spans x y :
  In y (kids spans x) <-> In (y, Some x) (parent_items spans).
Proof.
  unfold kids. rewrite in_map_iff. split.
  - intros ([y' p] & <- & H). apply filter_In in H as [H Hp]. simpl in *.
    apply opt_str_eqb_eq in Hp. now subst.
  - intro H. exists (y, Some x). split; [reflexivity|].
    apply filter_In. split; [exact H|]. simpl. apply String.eqb_refl.
Qed.

Lemma kids_NoDup spans x : NoDup (tagged_ids spans) -> NoDup (kids spans x).
Proof.
  intro H. apply NoDup_map_fst_filter. now rewrite parent_items_keys.
Qed.

Lemma parents_get_Some raws y x :
  parents_get raws y = Some x <-> In (y, Some x) (parents_of raws).
Proof.
  unfold parents_get. split.
  - destruct (dict_get (parents_of raws) y) as [p|] eqn:E; [|discriminate].
    intros ->. now apply dict_get_In.
  - intro H. now rewrite (dict_In_get _ _ _ (parents_of_NoDup raws) H).
Qed.

Lemma children_inverts raws :
  NoDup (kept_ids raws) ->
  forall x y,
    In y (dict_get_default (children_of raws) x []) <->
    In x (kept_ids raws) /\ In y (kept_ids raws) /\ parents_get raws y = Some x.
Proof.
  intros Hnd x y. rewrite children_of_default, parents_get_Some.
  rewrite (parents_of_distinct raws Hnd).
  destruct (existsb (String.eqb x) (kept_ids raws)) eqn:E.
  - apply existsb_eqb_In in E. rewrite kids_In. split; [|tauto].
    intro H. repeat split; try assumption.
    rewrite <- tagged_ids_tag, <- parent_items_keys.
    change y with (fst (y, Some x)). now apply in_map.
  - split; [intros []|]. intros (Hx & _). apply existsb_eqb_In in Hx. congruence.
Qed.

Lemma children_NoDup raws :
  NoDup (kept_ids raws) ->
  forall x, NoDup (dict_get_default (children_of raws) x []).
Proof.
  intros Hnd x. rewrite children_of_default.
  destruct (existsb _ _); [|constructor].
  apply kids_NoDup. now rewrite tagged_ids_tag.
Qed.

Lemma kept_ids_length raws : (List.length (kept_ids raws) <= List.length raws)%nat.
Proof.
  unfold kept_ids. induction raws as [|r raws IH]; simpl; [lia|].
  rewrite length_app. destruct (node_id_of r); simpl; lia.
Qed.

(** With pairwise distinct identifiers the loop ends within
    [len(spans) + 1] iterations, assigns no identifier twice and gives every
    node reachable from a root its distance. *)
Lemma bfs_distinct raws :
  NoDup (kept_ids raws) ->
  exists depths A,
    bfs (S (List.length raws)) (children_of raws)
        (map (fun node_id => (node_id, 0)) (roots_of raws)) [] [] =
      Some (depths, A) /\
    NoDup (map fst A) /\
    (forall x d, dict_get depths x = Some d <->
                 dist (kept_ids raws) (parents_get raws) x d).
Proof.
  intro Hnd.
  pose proof (children_inverts raws Hnd) as Hch.
  pose proof (children_NoDup raws Hnd) as HchND.
  destruct (@bfs_terminates _ _ _ Hch HchND (S (List.length raws))
              (map (fun r => (r, 0)) (roots_of raws)) [] [])
    as (depths & A & Hrun & Hinv).
  - apply bfs_inv_init; [apply roots_of_NoDup|].
    intro x. apply roots_of_spec.
  - pose proof (kept_ids_length raws). simpl. lia.
  - exists depths, A. split; [exact Hrun|].
    exact (bfs_inv_final Hch Hinv).
Qed.

(** *** The returned records *)

Lemma assemble_tag raws P C D :
  assemble (map tag raws) P C D =
  flat_map (fun r => opt_list (option_map (make_record P C D (tag r))
                                          (node_id_of r))) raws.
Proof.
  induction raws as [|r raws IH]; simpl; [reflexivity|].
  rewrite IH. pose proof (tagged_id_tag r) as E.
  unfold tagged_id, tag in E. simpl in E.
  destruct (node_id_of r) as [y|]; simpl in *; [|reflexivity].
  destruct (negb (y =? "")%string); [reflexivity|discriminate].
Qed.

Lemma assemble_In raws P C D rec :
  In rec (assemble (map tag raws) P C D) <->
  exists r y, In r raws /\ node_id_of r = Some y /\
              rec = make_record P C D (tag r) y.
Proof.
  rewrite assemble_tag, in_flat_map. split.
  - intros (r & Hr & H). destruct (node_id_of r) as [y|] eqn:E; simpl in H.
    + destruct H as [<-|[]]. now exists r, y.
    + destruct H.
  - intros (r & y & Hr & E & ->). exists r. split; [exact Hr|].
    rewrite E. now left.
Qed.

Lemma assemble_ids raws P C D :
  map node_id (assemble (map tag raws) P C D) = kept_ids raws.
Proof.
  rewrite assemble_tag. unfold kept_ids.
  induction raws as [|r raws IH]; simpl; [reflexivity|].
  rewrite map_app, IH. now destruct (node_id_of r).
Qed.

Lemma kept_ids_In raws y :
  In y (kept_ids raws) <-> exists r, In r raws /\ node_id_of r = Some y.
Proof.
  unfold kept_ids. rewrite in_flat_map. split.
  - intros (r & Hr & H). exists r. split; [exact Hr|].
    destruct (node_id_of r); simpl in H; [|destruct H].
    destruct H as [->|[]]. reflexivity.
  - intros (r & Hr & E). exists r. split; [exact Hr|]. rewrite E. now left.
Qed.

(** A successful call, taken apart. *)
Lemma build_Some fuel raws res :
  _build_span_records fuel (map fresh raws) = Some res ->
  exists depths,
    bfs fuel (children_of raws)
        (map (fun node_id => (node_id, 0)) (roots_of raws)) [] [] =
      Some (depths, depth_assignments res) /\
    span_records res =
      assemble (map tag raws) (parents_of raws) (children_of raws) depths /\
    roots res = roots_of raws /\
    spans_after res = map tag raws.
Proof.
  rewrite build_unfold.
  destruct (bfs _ _ _ _ _) as [[depths A]|]; [|discriminate].
  intros [= <-]. now exists depths.
Qed.

Lemma bfs_nonneg C : forall fuel queue depths A depths' A',
  bfs fuel C queue depths A = Some (depths', A') ->
  (forall x d, In (x, d) queue -> 0 <= d) ->
  (forall x d, dict_get depths x = Some d -> 0 <= d) ->
  forall x d, dict_get depths' x = Some d -> 0 <= d.
Proof.
  induction fuel as [|fuel IH]; intros queue depths A depths' A' Hrun Hq Hd;
    simpl in Hrun; [discriminate|].
  destruct queue as [|[cur dep] q].
  - injection Hrun as <- <-. exact Hd.
  - assert (0 <= dep) as Hdep by (apply (Hq cur); now left).
    eapply IH; [exact Hrun| |].
    + intros x d H. apply in_app_or in H as [H|H].
      * apply (Hq x). now right.
      * apply in_map_iff in H as (c & [= <- <-] & _). lia.
    + intros x d. rewrite dict_get_set.
      destruct (x =? cur)%string; [intros [= <-]; exact Hdep|apply Hd].
Qed.

Lemma is_root_ext N par par' x :
  (forall y, par y = par' y) -> is_root N par x -> is_root N par' x.
Proof.
  intros E [HN H]. split; [exact HN|]. intros p Hp. apply H. now rewrite E.
Qed.

Lemma dist_ext N par par' x d :
  (forall y, par y = par' y) -> dist N par x d -> dist N par' x d.
Proof.
  intros E. induction 1 as [x Hr|p x d _ IH HpN HxN Hp].
  - apply dist_root. now apply is_root_ext with (par := par).
  - apply dist_child with (p := p); try assumption. now rewrite <- E.
Qed.

Lemma NoDup_singleton (l : list string) r :
  NoDup l -> (forall x, In x l <-> x = r) -> l = [r].
Proof.
  intros Hnd H. destruct l as [|a l].
  - exfalso. now apply (H r).
  - assert (a = r) as -> by (apply H; now left).
    destruct l as [|b l]; [reflexivity|].
    assert (b = r) as -> by (apply H; right; now left).
    inversion Hnd as [|? ? Hr _]. exfalso. apply Hr. now left.
Qed.

Lemma record_parent P C D s y :
  parent_node_id (make_record P C D s y) =
  match dict_get P y with Some p => p | None => None end.
Proof. reflexivity. Qed.

(** Decides [NoDup] on a concrete list of identifiers. *)
Ltac nodup_strings :=
  repeat (constructor; [simpl; intuition discriminate|]); constructor.

(* ------------------------------------------------------------------------- *)
(** ** Properties of [_build_span_records]                                    *)
(* ------------------------------------------------------------------------- *)

(** C1 (amended).  When no two kept raw spans share a node identifier, the
    call returns within [len(spans) + 1] iterations of the breadth-first loop
    and no node identifier is assigned a depth twice; this covers parent links
    that form a cycle, which the loop never reaches.  The loop has no visited
    guard of its own. *)
Theorem build_terminates_distinct_ids :
  forall raws fuel,
    NoDup (kept_ids raws) ->
    (List.length raws < fuel)%nat ->
    exists res,
      _build_span_records fuel (map fresh raws) = Some res /\
      NoDup (map fst (depth_assignments res)).
Proof.
  intros raws fuel Hnd Hfuel. rewrite build_unfold.
  pose proof (children_inverts raws Hnd) as Hch.
  pose proof (children_NoDup raws Hnd) as HchND.
  destruct (@bfs_terminates _ _ _ Hch HchND fuel
              (map (fun r => (r, 0)) (roots_of raws)) [] [])
    as (depths & A & Hrun & Hinv).
  - apply bfs_inv_init; [apply roots_of_NoDup|].
    intro x. apply roots_of_spec.
  - pose proof (kept_ids_length raws). simpl. lia.
  - rewrite Hrun. eexists. split; [reflexivity|]. simpl.
    exact (proj1 (bfs_inv_final Hch Hinv)).
Qed.

Lemma build_terminates_distinct_ids_witness :
  NoDup (kept_ids cyclic_spans) /\
  (List.length cyclic_spans < 4)%nat /\
  exists res,
    _build_span_records 4 (map fresh cyclic_spans) = Some res /\
    NoDup (map fst (depth_assignments res)).
Proof.
  assert (NoDup (kept_ids cyclic_spans)) as H by (vm_compute; nodup_strings).
  assert (List.length cyclic_spans < 4)%nat as H' by (simpl; lia).
  split; [exact H|]. split; [exact H'|].
  exact (build_terminates_distinct_ids cyclic_spans H H').
Defined.

Lemma bfs_self_loop : forall fuel d depths A,
  bfs fuel [("A:0", ["A:0"])] [("A:0", d)] depths A = None.
Proof.
  induction fuel as [|fuel IH]; intros d depths A; [reflexivity|].
  simpl. apply IH.
Qed.

(** C1 as stated fails: on [looping_spans] the call returns for no amount of
    fuel, that is, the loop never ends. *)
Lemma build_loops_on_repeated_id :
  ~ exists fuel res,
      _build_span_records fuel (map fresh looping_spans) = Some res.
Proof.
  intros (fuel & res & H). rewrite build_unfold in H.
  replace (children_of looping_spans) with [("A:0", ["A:0"])] in H
    by (vm_compute; reflexivity).
  replace (roots_of looping_spans) with ["A:0"] in H
    by (vm_compute; reflexivity).
  simpl in H. rewrite bfs_self_loop in H. discriminate.
Qed.

(** Distinct identifiers with a cycle: the cycle is never reached, its nodes
    get no depth assigned and default to depth 0. *)
Example cycle_is_not_visited :
  option_map (fun res => (map (fun r => (node_id r, parent_node_id r, depth r))
                              (span_records res),
                          roots res, depth_assignments res))
             (_build_span_records 4 (map fresh cyclic_spans)) =
  Some ([("B:0", None, 0); ("A:0", Some "A:1", 0); ("A:1", Some "A:0", 0)],
        ["B:0"], [("B:0", 0)]).
Proof. vm_compute. reflexivity. Qed.

(** A repeated identifier can also be assigned a depth twice by a loop that
    ends. *)
Example repeated_id_is_assigned_twice :
  option_map depth_assignments
             (_build_span_records 5 (map fresh reparented_spans)) =
  Some [("B:0", 0); ("A:0", 0); ("A:0", 1)].
Proof. vm_compute. reflexivity. Qed.

(** The dangling reference of [dangling_spans], evaluated. *)
Example dangling_span_is_root :
  option_map (fun res => (roots res,
                          map (fun r => (node_id r, parent_node_id r))
                              (span_records res)))
             (_build_span_records 3 (map fresh dangling_spans)) =
  Some (["A:0"; "B:0"], [("A:0", None); ("B:0", Some "X:9")]).
Proof. vm_compute. reflexivity. Qed.

Lemma build_record_ids fuel raws res :
  _build_span_records fuel (map fresh raws) = Some res ->
  map node_id (span_records res) = kept_ids raws.
Proof.
  intro Hres. destruct (build_Some _ _ Hres) as (depths & _ & Hrec & _ & _).
  rewrite Hrec. apply assemble_ids.
Qed.

(** C5 (amended).  Every returned node has depth >= 0.  The returned list has
    one node per kept raw span, in input order, so its identifiers are pairwise
    distinct exactly when those of the kept raw spans are. *)
Theorem depths_nonneg_and_ids_as_kept :
  forall fuel raws res,
    _build_span_records fuel (map fresh raws) = Some res ->
    (forall rec, In rec (span_records res) -> 0 <= depth rec) /\
    map node_id (span_records res) = kept_ids raws /\
    (NoDup (map node_id (span_records res)) <-> NoDup (kept_ids raws)).
Proof.
  intros fuel raws res Hres.
  destruct (build_Some _ _ Hres) as (depths & Hrun & Hrec & _ & _).
  assert (Hknown : map node_id (span_records res) = kept_ids raws)
    by (rewrite Hrec; apply assemble_ids).
  split; [|split; [exact Hknown|now rewrite Hknown]].
  intros rec Hin. rewrite Hrec in Hin.
  apply assemble_In in Hin as (r & y & _ & _ & ->). simpl.
  unfold dict_get_default.
  destruct (dict_get depths y) as [d|] eqn:Ed; [|lia].
  eapply (bfs_nonneg _ _ _ _ _ Hrun); [| |exact Ed].
  - intros x d' H. apply in_map_iff in H as (c & [= <- <-] & _). lia.
  - discriminate.
Qed.

Lemma depths_nonneg_and_ids_as_kept_witness :
  exists res,
    _build_span_records 4 (map fresh example_spans) = Some res /\
    (forall rec, In rec (span_records res) -> 0 <= depth rec) /\
    map node_id (span_records res) = kept_ids example_spans /\
    (NoDup (map node_id (span_records res)) <-> NoDup (kept_ids example_spans)).
Proof.
  destruct (_build_span_records 4 (map fresh example_spans)) as [res|] eqn:E;
    [|vm_compute in E; discriminate].
  exists res. split; [reflexivity|].
  exact (depths_nonneg_and_ids_as_kept 4 example_spans E).
Defined.

(** C5 as stated fails: two raw spans with the same segment/span pair give two
    returned nodes with the same identifier. *)
Lemma repeated_id_is_returned_twice :
  exists res,
    _build_span_records 3 (map fresh repeated_spans) = Some res /\
    map node_id (span_records res) = ["A:0"; "A:0"] /\
    ~ NoDup (map node_id (span_records res)).
Proof.
  eexists. split; [vm_compute; reflexivity|]. simpl.
  split; [reflexivity|].
  intro H. inversion H as [|? ? Hn _]. apply Hn. now left.
Qed.

(** C6 (amended).  When no two kept raw spans share a node identifier, the
    children lists invert the resolved parents exactly: [y] is among the
    children of a returned node [x] iff the node [y] has [x] as
    [parent_node_id]; hence the union of all children lists is the set of
    nodes whose [parent_node_id] names a known node. *)
Theorem children_invert_parents :
  forall fuel raws res,
    NoDup (kept_ids raws) ->
    _build_span_records fuel (map fresh raws) = Some res ->
    (forall rec y,
        In rec (span_records res) ->
        (In y (children_ids rec) <->
         exists rec', In rec' (span_records res) /\ node_id rec' = y /\
                      parent_node_id rec' = Some (node_id rec))) /\
    (forall y,
        (exists rec, In rec (span_records res) /\ In y (children_ids rec)) <->
        (exists rec', In rec' (span_records res) /\ node_id rec' = y /\
           exists p, parent_node_id rec' = Some p /\
                     In p (map node_id (span_records res)))).
Proof.
  intros fuel raws res Hnd Hres.
  destruct (build_Some _ _ Hres) as (depths & _ & Hrec & _ & _).
  assert (Hknown : map node_id (span_records res) = kept_ids raws)
    by (rewrite Hrec; apply assemble_ids).
  pose proof (children_inverts raws Hnd) as Hch.
  assert (Hmk : forall y, In y (kept_ids raws) ->
    exists rec', In rec' (span_records res) /\ node_id rec' = y /\
                 parent_node_id rec' = parents_get raws y).
  { intros y Hy. apply kept_ids_In in Hy as (r & Hr & E).
    exists (make_record (parents_of raws) (children_of raws) depths (tag r) y).
    split; [rewrite Hrec; apply assemble_In; now exists r, y|].
    now split. }
  assert (Hone : forall rec y,
    In rec (span_records res) ->
    (In y (children_ids rec) <->
     exists rec', In rec' (span_records res) /\ node_id rec' = y /\
                  parent_node_id rec' = Some (node_id rec))).
  { intros rec y Hin. pose proof Hin as Hin'. rewrite Hrec in Hin'.
    apply assemble_In in Hin' as (r & x & Hr & E & ->). simpl.
    rewrite Hch. split.
    - intros (_ & Hy & Hp). destruct (Hmk y Hy) as (rec' & H1 & H2 & H3).
      exists rec'. repeat split; congruence.
    - intros (rec' & Hin' & <- & Hp). rewrite Hrec in Hin'.
      apply assemble_In in Hin' as (r' & y & Hr' & E' & ->). simpl in *.
      repeat split.
      + apply kept_ids_In. now exists r.
      + apply kept_ids_In. now exists r'.
      + exact Hp. }
  split; [exact Hone|]. intro y. split.
  - intros (rec & Hin & Hy). apply (Hone rec y Hin) in Hy as (rec' & H1 & H2 & H3).
    exists rec'. repeat split; try assumption.
    exists (node_id rec). split; [exact H3|]. now apply in_map.
  - intros (rec' & Hin' & Hy & p & Hp & Hk).
    apply in_map_iff in Hk as (rec & <- & Hin).
    exists rec. split; [exact Hin|]. apply (Hone rec y Hin). now exists rec'.
Qed.

Lemma children_invert_parents_witness :
  NoDup (kept_ids example_spans) /\
  exists res,
    _build_span_records 4 (map fresh example_spans) = Some res /\
    (forall y,
        (exists rec, In rec (span_records res) /\ In y (children_ids rec)) <->
        (exists rec', In rec' (span_records res) /\ node_id rec' = y /\
           exists p, parent_node_id rec' = Some p /\
                     In p (map node_id (span_records res)))).
Proof.
  assert (NoDup (kept_ids example_spans)) as H by (vm_compute; nodup_strings).
  split; [exact H|].
  destruct (_build_span_records 4 (map fresh example_spans)) as [res|] eqn:E;
    [|vm_compute in E; discriminate].
  exists res. split; [reflexivity|].
  exact (proj2 (children_invert_parents 4 example_spans H E)).
Defined.

(** C6 as stated fails: on [reparented_spans] the node [A:0] is in the
    children list of [B:0] although no returned node [A:0] has a
    [parent_node_id]. *)
Lemma children_exceed_parents_on_repeated_id :
  exists res,
    _build_span_records 5 (map fresh reparented_spans) = Some res /\
    (exists rec, In rec (span_records res) /\ In "A:0" (children_ids rec)) /\
    ~ (exists rec', In rec' (span_records res) /\ node_id rec' = "A:0" /\
         exists p, parent_node_id rec' = Some p /\
                   In p (map node_id (span_records res))).
Proof.
  eexists. split; [vm_compute; reflexivity|]. split.
  - eexists. split; [left; reflexivity|]. simpl. now left.
  - intros (rec' & Hin & _ & p & Hp & _).
    simpl in Hin. destruct Hin as [<-|[<-|[<-|[]]]]; discriminate.
Qed.

(** C4.  On a raw span list that forms a single rooted tree the call returns,
    the root list is that one root, and the depth of every returned node is
    its distance from the root in parent links.  On the three-span example of
    the specification it returns [A:0] (depth 0, no parent), [A:1] (depth 1,
    parent [A:0]) and [B:0] (depth 2, parent [A:1]) with root list [["A:0"]]. *)
Theorem build_single_rooted_tree :
  (forall raws root,
      single_rooted_tree raws root ->
      exists res,
        _build_span_records (S (List.length raws)) (map fresh raws) = Some res /\
        roots res = [root] /\
        map node_id (span_records res) = kept_ids raws /\
        forall rec, In rec (span_records res) ->
                    dist (kept_ids raws) (parent_of raws)
                         (node_id rec) (depth rec)) /\
  (exists res,
      _build_span_records 4 (map fresh example_spans) = Some res /\
      map (fun r => (node_id r, parent_node_id r, depth r)) (span_records res) =
        [("A:0", None, 0); ("A:1", Some "A:0", 1); ("B:0", Some "A:1", 2)] /\
      roots res = ["A:0"]).
Proof.
  split.
  - intros raws root (Hnd & Hroot & Hreach).
    destruct (bfs_distinct raws Hnd) as (depths & A & Hrun & _ & Hdepth).
    assert (Hpar : forall y, parents_get raws y = parent_of raws y)
      by (intro y; now apply parents_get_distinct).
    rewrite build_unfold, Hrun. eexists. split; [reflexivity|]. simpl.
    split; [|split; [apply assemble_ids|]].
    + apply NoDup_singleton; [apply roots_of_NoDup|].
      intro x. rewrite roots_of_spec, <- Hroot.
      split; apply is_root_ext; auto.
    + intros rec Hin. apply assemble_In in Hin as (r & y & Hr & E & ->). simpl.
      destruct (Hreach y) as (d & Hd); [apply kept_ids_In; now exists r|].
      assert (dict_get depths y = Some d) as Hg.
      { apply Hdepth. apply dist_ext with (par := parent_of raws); auto. }
      unfold dict_get_default. now rewrite Hg.
  - eexists. split; [vm_compute; reflexivity|]. split; reflexivity.
Qed.

Lemma example_is_single_rooted_tree : single_rooted_tree example_spans "A:0".
Proof.
  assert (Hroot : forall x,
    is_root (kept_ids example_spans) (parent_of example_spans) x <-> x = "A:0").
  { intro x. unfold is_root. split.
    - intros [HN Hp]. vm_compute in HN.
      destruct HN as [<-|[<-|[<-|[]]]]; [reflexivity| |]; exfalso.
      + apply (Hp "A:0"); [reflexivity|vm_compute; auto].
      + apply (Hp "A:1"); [reflexivity|vm_compute; auto].
    - intros ->. split; [vm_compute; auto|].
      intros p Hp. vm_compute in Hp. discriminate. }
  assert (H0 : dist (kept_ids example_spans) (parent_of example_spans) "A:0" 0)
    by (apply dist_root, Hroot; reflexivity).
  assert (H1 : dist (kept_ids example_spans) (parent_of example_spans)
                    "A:1" (0 + 1)).
  { apply dist_child with (p := "A:0");
      [exact H0|vm_compute; auto|vm_compute; auto|reflexivity]. }
  split; [vm_compute; nodup_strings|]. split; [exact Hroot|].
  intros x HN. vm_compute in HN. destruct HN as [<-|[<-|[<-|[]]]].
  - now exists 0.
  - now exists (0 + 1).
  - exists (0 + 1 + 1).
    apply dist_child with (p := "A:1");
      [exact H1|vm_compute; auto|vm_compute; auto|reflexivity].
Defined.

Lemma build_single_rooted_tree_witness :
  single_rooted_tree example_spans "A:0" /\
  exists res,
    _build_span_records (S (List.length example_spans)) (map fresh example_spans)
      = Some res /\
    roots res = ["A:0"] /\
    map node_id (span_records res) = kept_ids example_spans /\
    forall rec, In rec (span_records res) ->
                dist (kept_ids example_spans) (parent_of example_spans)
                     (node_id rec) (depth rec).
Proof.
  split; [exact example_is_single_rooted_tree|].
  exact (proj1 build_single_rooted_tree example_spans "A:0"
               example_is_single_rooted_tree).
Defined.

(** C2 (amended).  For a kept raw span the parent is resolved in priority
    order: a [parentSpanId] that is a non-negative integer gives the span's own
    [segmentId] joined with it; otherwise, if there is a first reference and it
    carries both [parentSegmentId] and [parentSpanId], that pair gives the
    parent, whatever references follow; otherwise the parent is absent.  The
    resolved parent is what stage 2 uses for placement: the span is appended to
    the children of a known resolved parent, and, when no other kept span
    shares its identifier, it is the span's entry in [parents]. *)
Theorem parent_resolution_priority :
  forall raws r y,
    In r raws ->
    node_id_of r = Some y ->
    let parent_node := resolve_parent (tag r) in
    (is_nonneg_int (parentSpanId r) = true ->
       parent_node = Some (fmt_node (segmentId r) (parentSpanId r))) /\
    (is_nonneg_int (parentSpanId r) = false ->
       forall ref rest, refs r = ref :: rest ->
         (is_None (ref_parentSegmentId ref) = false ->
          is_None (ref_parentSpanId ref) = false ->
          parent_node = Some (fmt_node (ref_parentSegmentId ref)
                                       (ref_parentSpanId ref))) /\
         (is_None (ref_parentSegmentId ref) = true \/
          is_None (ref_parentSpanId ref) = true ->
          parent_node = None)) /\
    (is_nonneg_int (parentSpanId r) = false -> refs r = [] ->
       parent_node = None) /\
    (forall x, parent_node = Some x -> In x (kept_ids raws) ->
               In y (dict_get_default (children_of raws) x [])) /\
    (NoDup (kept_ids raws) -> parents_get raws y = parent_node).
Proof.
  intros raws r y Hr Hy parent_node. subst parent_node.
  unfold resolve_parent. simpl.
  split; [intros ->; reflexivity|].
  split; [intros -> ref rest ->; split|].
  - intros -> ->. reflexivity.
  - intros [->| ->]; [reflexivity|].
    now rewrite andb_false_r.
  - split; [intros -> ->; reflexivity|].
    fold (resolve_parent (tag r)). split.
    + intros x Hx HxN. rewrite children_of_default.
      apply existsb_eqb_In in HxN. rewrite HxN.
      apply kids_In. unfold parent_items. apply in_flat_map.
      exists (tag r). split; [now apply in_map|].
      rewrite tagged_id_tag, Hy, <- Hx. now left.
    + intro Hnd. rewrite parents_get_distinct by exact Hnd.
      unfold parent_of.
      destruct (find (fun r0 => opt_str_eqb (node_id_of r0) y) raws)
        as [r'|] eqn:Ef.
      * apply find_some in Ef as [Hr' E']. apply opt_str_eqb_eq in E'.
        assert (r' = r) as ->; [|reflexivity].
        clear - Hnd Hr Hr' Hy E'. unfold kept_ids in Hnd.
        induction raws as [|a raws IH]; [destruct Hr|]. simpl in Hnd.
        assert (forall q, In q raws -> node_id_of q = Some y ->
                          In y (flat_map (fun r => opt_list (node_id_of r)) raws))
          as Hin.
        { intros q Hq Eq. apply in_flat_map. exists q. split; [exact Hq|].
          rewrite Eq. now left. }
        destruct Hr as [->|Hr], Hr' as [->|Hr']; try reflexivity.
        -- rewrite Hy in Hnd. simpl in Hnd. inversion Hnd as [|? ? Hn _].
           exfalso. apply Hn. exact (Hin _ Hr' E').
        -- rewrite E' in Hnd. simpl in Hnd. inversion Hnd as [|? ? Hn _].
           exfalso. apply Hn. exact (Hin _ Hr Hy).
        -- apply IH; try assumption.
           now apply NoDup_app_remove_l in Hnd.
      * exfalso. apply (find_none _ _ Ef) in Hr.
        rewrite Hy in Hr. simpl in Hr. now rewrite String.eqb_refl in Hr.
Qed.

Lemma parent_resolution_priority_witness :
  let r := span_of (VStr "B") (VInt 0) VNone [ref_to "A" 1] in
  In r example_spans /\
  node_id_of r = Some "B:0" /\
  resolve_parent (tag r) = Some "A:1" /\
  In "B:0" (dict_get_default (children_of example_spans) "A:1" []) /\
  parents_get example_spans "B:0" = Some "A:1".
Proof.
  intro r.
  assert (In r example_spans) as Hr by (simpl; auto).
  assert (node_id_of r = Some "B:0") as Hy by reflexivity.
  destruct (parent_resolution_priority example_spans r Hr Hy)
    as (_ & H2 & _ & H4 & H5).
  destruct (H2 eq_refl (ref_to "A" 1) [] eq_refl) as [H2' _].
  specialize (H2' eq_refl eq_refl).
  split; [exact Hr|]. split; [exact Hy|]. split; [exact H2'|]. split.
  - apply (H4 "A:1"); [exact H2'|vm_compute; auto].
  - rewrite H5; [exact H2'|vm_compute; nodup_strings].
Defined.

(** C2 as stated fails: [half_ref_span] has no usable [parentSpanId] and
    carries references, yet its resolved parent is absent because the first
    reference has no [parentSegmentId]. *)
Lemma first_reference_without_segment_gives_no_parent :
  is_nonneg_int (parentSpanId half_ref_span) = false /\
  refs half_ref_span = [half_ref; ref_to "A" 1] /\
  resolve_parent (tag half_ref_span) = None /\
  resolve_parent (tag half_ref_span) <>
    Some (fmt_node (ref_parentSegmentId half_ref) (ref_parentSpanId half_ref)) /\
  option_map (fun res => map (fun r => (node_id r, parent_node_id r))
                             (span_records res))
             (_build_span_records 2 (map fresh [half_ref_span])) =
    Some [("B:0", None)].
Proof.
  repeat split; try reflexivity. discriminate.
Qed.

(** C9.  A call writes the spans it is given in one stage only: the state of
    the span dictionaries after the call is the state after stage 1, which
    differs from the input by the key ["_node_id"] alone; every backend field
    of every span is as it was. *)
Theorem build_only_tags_its_input :
  forall fuel raws res,
    _build_span_records fuel (map fresh raws) = Some res ->
    spans_after res = fst (fst (stage1 0 (map fresh raws) [] [])) /\
    map fields (spans_after res) = raws /\
    (forall i s,
        nth_error (spans_after res) i = Some s ->
        exists r, nth_error raws i = Some r /\ fields s = r /\
                  _node_id s = node_id_of r).
Proof.
  intros fuel raws res Hres.
  destruct (build_Some _ _ Hres) as (_ & _ & _ & _ & ->).
  split; [now rewrite stage1_spans|]. split.
  - rewrite map_map. simpl. apply map_id.
  - intros i s H. rewrite nth_error_map in H.
    destruct (nth_error raws i) as [r|]; [|discriminate].
    injection H as <-. now exists r.
Qed.

Lemma build_only_tags_its_input_witness :
  exists res,
    _build_span_records 4 (map fresh example_spans) = Some res /\
    spans_after res = fst (fst (stage1 0 (map fresh example_spans) [] [])) /\
    map fields (spans_after res) = example_spans /\
    (forall i s,
        nth_error (spans_after res) i = Some s ->
        exists r, nth_error example_spans i = Some r /\ fields s = r /\
                  _node_id s = node_id_of r).
Proof.
  destruct (_build_span_records 4 (map fresh example_spans)) as [res|] eqn:E;
    [|vm_compute in E; discriminate].
  exists res. split; [reflexivity|].
  exact (build_only_tags_its_input 4 example_spans E).
Defined.

(* ------------------------------------------------------------------------- *)
(** ** Properties of [SpanRecord.to_dict]                                     *)
(* ------------------------------------------------------------------------- *)

(** C10.  The serialised [duration_ms] is [max(0, end_ms - start_ms)]: it is
    never negative, and it is 0 when the end precedes the start. *)
Theorem to_dict_duration_clamped :
  forall (utc_iso : Z -> string) (self : SpanRecord),
    sj_duration_ms (to_dict utc_iso self) = Z.max 0 (end_ms self - start_ms self) /\
    0 <= sj_duration_ms (to_dict utc_iso self) /\
    sj_duration_ms (to_dict utc_iso self) =
      (if end_ms self <? start_ms self then 0 else end_ms self - start_ms self).
Proof.
  intros utc_iso self. simpl. split; [reflexivity|]. split; [lia|].
  destruct (Z.ltb_spec (end_ms self) (start_ms self)); lia.
Qed.

(** A raw span that ends before it starts, through the whole pipeline. *)
Example backwards_span_has_zero_duration :
  let raw :=
    {| traceId := VStr "t"; segmentId := VStr "A"; spanId := VInt 0;
       parentSpanId := VInt (-1); serviceCode := Some "svc";
       serviceInstanceName := VStr "inst"; startTime := Some 2000;
       endTime := Some 1500; endpointName := VNone; type_ := VStr "Entry";
       peer := VNone; component := VNone; isError := VBool false;
       layer := VNone; tags := []; logs := []; refs := [] |} in
  option_map (fun res => map (fun r => (sj_start_timestamp_ms r,
                                        sj_end_timestamp_ms r,
                                        sj_duration_ms r))
                             (map (to_dict no_utc_iso) (span_records res)))
             (_build_span_records 2 (map fresh [raw])) =
  Some [(2000, 1500, 0)].
Proof. vm_compute. reflexivity. Qed.

(* ------------------------------------------------------------------------- *)
(** ** Properties of [fetch_trace_summaries]                                  *)
(* ------------------------------------------------------------------------- *)

(** C7 (the code departs from it).  With the limit [-1] the first test of the
    loop, [limit and len(summaries) >= limit], already holds: the call returns
    the empty list and total 0 without a single query, whatever the backend
    has.  With the limit 0 the same backend yields its three summaries. *)
Theorem negative_limit_returns_nothing :
  (forall int_of_str list_backend fuel page_size,
      fetch_trace_summaries int_of_str list_backend (S fuel) (-1) page_size =
      Some (Ok ([], 0))) /\
  option_map (fun r => match r with
                       | Ok (l, t) => Some (map ts_trace_id l, t)
                       | Raise _ => None
                       end)
             (fetch_trace_summaries no_int_of_str three_traces 5 0 200) =
    Some (Some (["t1"; "t2"; "t3"], 3)) /\
  fetch_trace_summaries no_int_of_str three_traces 5 (-1) 200 =
    Some (Ok ([], 0)).
Proof.
  split; [|split; reflexivity].
  intros int_of_str list_backend fuel page_size. reflexivity.
Qed.

Section DiscoveryFacts.
Variable int_of_str : string -> option Z.
Variable list_backend : Z -> Z -> result Page.

Lemma truncate_length limit l :
  0 < limit -> Z.of_nat (List.length (truncate limit l)) <= limit.
Proof.
  intro H. unfold truncate, py_slice_to.
  destruct (Z.eqb_spec limit 0); [lia|]. simpl.
  destruct (Z.leb_spec 0 limit); [|lia].
  rewrite length_firstn. lia.
Qed.

Lemma truncate_NoDup limit l :
  NoDup (map ts_trace_id l) -> NoDup (map ts_trace_id (truncate limit l)).
Proof.
  assert (forall n, NoDup (map ts_trace_id l) ->
                    NoDup (map ts_trace_id (firstn n l))) as Hfirst.
  { intros n H. rewrite <- (firstn_skipn n l), map_app in H.
    now apply NoDup_app_remove_r in H. }
  intro H. unfold truncate, py_slice_to.
  destruct (negb _); [|exact H]. destruct (0 <=? limit); now apply Hfirst.
Qed.

Lemma scan_page_dedup limit : forall entries summaries seen,
  dedup_inv summaries seen ->
  dedup_inv (fst (scan_page int_of_str limit entries summaries seen))
            (snd (scan_page int_of_str limit entries summaries seen)).
Proof.
  induction entries as [|entry rest IH]; intros summaries seen Hinv; simpl.
  - exact Hinv.
  - destruct (traceIds entry) as [|trace_id ids]; [now apply IH|].
    destruct (existsb (String.eqb trace_id) seen) eqn:Eseen; [now apply IH|].
    assert (dedup_inv
      (summaries ++
       [{| ts_trace_id := trace_id;
           ts_duration_ms := int_or_zero int_of_str (te_duration entry);
           ts_start_ms := int_or_zero int_of_str (te_start entry);
           ts_is_error := py_truthy (te_isError entry);
           ts_endpoint_names := endpointNames entry |}])
      (trace_id :: seen)) as Hinv'.
    { destruct Hinv as [Hnd Hseen]. split.
      - rewrite map_app. simpl. apply NoDup_app; [exact Hnd| |].
        + repeat constructor. simpl. tauto.
        + intros x Hx [<-|[]]. apply Hseen in Hx.
          apply existsb_eqb_In in Hx. congruence.
      - intros x Hx. rewrite map_app in Hx. simpl in Hx.
        apply in_app_or in Hx as [Hx|[<-|[]]]; [right; now apply Hseen|].
        now left. }
    destruct (limit_reached limit _); [exact Hinv'|now apply IH].
Qed.

Lemma paging_dedup : forall fuel limit page_size page summaries seen total0 l t,
  dedup_inv summaries seen ->
  paging int_of_str list_backend fuel limit page_size page summaries seen total0
    = Some (Ok (l, t)) ->
  NoDup (map ts_trace_id l) /\ (0 < limit -> Z.of_nat (List.length l) <= limit).
Proof.
  induction fuel as [|fuel IH];
    intros limit page_size page summaries seen total0 l t Hinv Hrun;
    simpl in Hrun; [discriminate|].
  assert (Hdone : forall s, dedup_inv s seen \/ NoDup (map ts_trace_id s) ->
    NoDup (map ts_trace_id (truncate limit s)) /\
    (0 < limit -> Z.of_nat (List.length (truncate limit s)) <= limit)).
  { intros s Hs. split; [|intro; now apply truncate_length].
    apply truncate_NoDup. destruct Hs as [[H _]|H]; exact H. }
  destruct (limit_reached limit summaries).
  - injection Hrun as <- <-. apply Hdone. now left.
  - destruct (list_backend page page_size) as [reply|e]; [|discriminate].
    destruct (traces reply) as [|entry rest] eqn:Etr.
    + injection Hrun as <- <-. apply Hdone. now left.
    + pose proof (scan_page_dedup limit (entry :: rest) Hinv) as Hinv'.
      destruct (scan_page int_of_str limit (entry :: rest) summaries seen)
        as [summaries' seen']; simpl in Hinv'.
      destruct (_ <? page_size).
      * injection Hrun as <- <-. apply Hdone. right. exact (proj1 Hinv').
      * exact (IH _ _ _ _ _ _ _ _ Hinv' Hrun).
Qed.

(** Whatever the limit, the returned identifiers are pairwise distinct, and
    a positive limit bounds their number. *)
Lemma fetch_trace_summaries_dedup fuel limit page_size l t :
  fetch_trace_summaries int_of_str list_backend fuel limit page_size
    = Some (Ok (l, t)) ->
  NoDup (map ts_trace_id l) /\ (0 < limit -> Z.of_nat (List.length l) <= limit).
Proof.
  unfold fetch_trace_summaries. apply paging_dedup.
  split; [constructor|intros x []].
Qed.

(** With the limit 0 neither size test fires: the loop ends only on an
    exception, an empty page or a short page. *)
Lemma limit_zero_never_reached summaries : limit_reached 0 summaries = false.
Proof. reflexivity. Qed.

Lemma scan_page_zero_app : forall a b summaries seen,
  scan_page int_of_str 0 (a ++ b) summaries seen =
  scan_page int_of_str 0 b
            (fst (scan_page int_of_str 0 a summaries seen))
            (snd (scan_page int_of_str 0 a summaries seen)).
Proof.
  induction a as [|entry a IH]; intros b summaries seen; simpl.
  - reflexivity.
  - destruct (traceIds entry) as [|trace_id ids]; [apply IH|].
    destruct (existsb (String.eqb trace_id) seen); apply IH.
Qed.

End DiscoveryFacts.

(* ------------------------------------------------------------------------- *)
(** ** Properties of [collect_traces]                                         *)
(* ------------------------------------------------------------------------- *)

Lemma filter_length_Permutation (A : Type) (f : A -> bool) (l l' : list A) :
  Permutation l l' -> List.length (filter f l) = List.length (filter f l').
Proof.
  induction 1 as [|a l l' _ IH|a b l|l l' l'' _ IH1 _ IH2]; simpl.
  - reflexivity.
  - destruct (f a); simpl; now rewrite IH.
  - destruct (f a), (f b); reflexivity.
  - now rewrite IH1.
Qed.

Lemma filter_nil_iff (A : Type) (f : A -> bool) (l : list A) :
  filter f l = [] <-> forall a, In a l -> f a = false.
Proof.
  induction l as [|a l IH]; simpl.
  - split; [intros _ ? []|reflexivity].
  - destruct (f a) eqn:E.
    + split; [discriminate|]. intro H. specialize (H a (or_introl eq_refl)).
      congruence.
    + rewrite IH. split.
      * intros H b [<-|Hb]; [exact E|now apply H].
      * intros H b Hb. apply H. now right.
Qed.

Section CollectionFacts.
Variable utc_iso : Z -> string.
Variable int_of_str : string -> option Z.
Variable list_backend : Z -> Z -> result Page.
Variable detail_backend : string -> result (list RawSpan).
Variable completion : list TraceSummary -> list TraceSummary.

(** One iteration keeps what was collected and appends one record exactly
    when the trace is usable; a failed fetch changes nothing. *)
Lemma collect_one_spec fuel summary collected services_seen :
  (forall spans, detail_backend (ts_trace_id summary) = Ok spans ->
                 _build_span_records fuel (map fresh spans) <> None) ->
  exists new services,
    collect_one utc_iso detail_backend fuel summary (collected, services_seen)
      = Some (collected ++ new, services) /\
    List.length new = (if usable detail_backend summary then 1 else 0)%nat.
Proof.
  intro Hterm. unfold collect_one, usable.
  destruct (detail_backend (ts_trace_id summary)) as [spans|e].
  - specialize (Hterm spans eq_refl).
    destruct (_build_span_records fuel (map fresh spans)) as [built|] eqn:Eb;
      [|congruence].
    pose proof (build_record_ids _ _ Eb) as Hids.
    destruct (span_records built) as [|rec recs]; simpl in Hids;
      rewrite <- Hids.
    + exists [], services_seen. now rewrite app_nil_r.
    + eexists [_], _. split; reflexivity.
  - exists [], services_seen. now rewrite app_nil_r.
Qed.

Lemma collect_loop_spec fuel : forall futures collected services_seen,
  (forall s spans, In s futures ->
                   detail_backend (ts_trace_id s) = Ok spans ->
                   _build_span_records fuel (map fresh spans) <> None) ->
  exists new services,
    collect_loop utc_iso detail_backend fuel futures (collected, services_seen)
      = Some (collected ++ new, services) /\
    List.length new = List.length (filter (usable detail_backend) futures).
Proof.
  induction futures as [|s rest IH]; intros collected services_seen Hterm.
  - exists [], services_seen. simpl. now rewrite app_nil_r.
  - destruct (collect_one_spec fuel s collected services_seen)
      as (new1 & sv1 & E1 & L1); [intros spans; apply Hterm; now left|].
    destruct (IH (collected ++ new1) sv1) as (new2 & sv2 & E2 & L2);
      [intros s' spans H'; apply Hterm; now right|].
    exists (new1 ++ new2), sv2. cbn [collect_loop]. rewrite E1, E2, app_assoc.
    split; [reflexivity|]. rewrite length_app, L1, L2. cbn [filter].
    destruct (usable detail_backend s); reflexivity.
Qed.
End CollectionFacts.

(** C8 (amended).  Provided that discovery returns its summaries and that
    the hierarchy builder returns on every fetched span list (it does when no
    two kept spans of a trace share a node identifier; it is called outside
    the [try], so that a build that does not return hangs the run), and with
    span timestamps that are integers, as the embedding has them, the run
    - fails with [NoSummaries] exactly when there is no summary;
    - fails with [AllFetchesFailed] exactly when there are summaries and no
      trace is usable, that is, every fetch raised or gave no span with both
      identifiers;
    - succeeds exactly when some trace is usable, whatever the number of
      failed fetches, and then writes one document that holds one record per
      usable trace;
    - writes nothing when it fails. *)
Theorem collect_traces_outcome :
  forall utc_iso int_of_str list_backend detail_backend completion
         fuel size min_duration_ms summaries total_available,
    (forall l, Permutation (completion l) l) ->
    fetch_trace_summaries int_of_str list_backend fuel size 200 =
      Some (Ok (summaries, total_available)) ->
    (forall s spans,
        In s summaries ->
        detail_backend (ts_trace_id s) = Ok spans ->
        _build_span_records fuel (map fresh spans) <> None) ->
    exists outcome written,
      collect_traces utc_iso int_of_str list_backend detail_backend completion
                     fuel size min_duration_ms = Some (outcome, written) /\
      (outcome = Raise NoSummaries <-> summaries = []) /\
      (outcome = Raise AllFetchesFailed <->
       summaries <> [] /\
       forall s, In s summaries -> usable detail_backend s = false) /\
      ((exists payload, outcome = Ok payload) <->
       exists s, In s summaries /\ usable detail_backend s = true) /\
      (forall payload,
          outcome = Ok payload ->
          written = [payload] /\
          List.length (payload_traces payload) =
            List.length (filter (usable detail_backend) summaries)) /\
      (forall e, outcome = Raise e -> written = []).
Proof.
  intros utc_iso int_of_str list_backend detail_backend completion
         fuel size min_duration_ms summaries total_available
         Hperm Hfetch Hterm.
  unfold collect_traces. rewrite Hfetch.
  destruct summaries as [|s0 rest].
  - exists (Raise NoSummaries), []. split; [reflexivity|].
    split; [tauto|]. split; [split; [discriminate|intros [H _]; congruence]|].
    split; [split; [intros [? ?]; discriminate|intros (? & [] & _)]|].
    split; [discriminate|reflexivity].
  - cbv beta iota. set (summaries := s0 :: rest) in *.
    destruct (collect_loop_spec utc_iso detail_backend fuel
                (completion summaries) [] [])
      as (new & sv & E & L).
    { intros s spans Hs. apply Hterm.
      exact (Permutation_in _ (Hperm summaries) Hs). }
    rewrite (filter_length_Permutation _ (Hperm summaries)) in L.
    simpl app in E. rewrite E.
    destruct new as [|t ts].
    + exists (Raise AllFetchesFailed), []. split; [reflexivity|].
      assert (forall s, In s summaries -> usable detail_backend s = false)
        as Hnone.
      { apply filter_nil_iff. apply length_zero_iff_nil. now rewrite <- L. }
      split; [split; discriminate|].
      split; [split; [intros _; split; [discriminate|exact Hnone]|reflexivity]|].
      split; [split; [intros [? ?]; discriminate|]|].
      { intros (s & Hs & Hu). rewrite (Hnone s Hs) in Hu. discriminate. }
      split; [discriminate|reflexivity].
    + eexists (Ok _), [_]. split; [reflexivity|].
      split; [split; discriminate|].
      split; [split; [discriminate|]|].
      { intros [_ Hnone]. apply filter_nil_iff in Hnone.
        rewrite Hnone in L. discriminate. }
      split; [split; [intros _|intros _; eexists; reflexivity]|].
      { destruct (filter (usable detail_backend) summaries) as [|s l] eqn:Ef;
          [discriminate|].
        assert (In s (filter (usable detail_backend) summaries)) as Hs
          by (rewrite Ef; now left).
        apply filter_In in Hs. now exists s. }
      split; [|discriminate].
      intros payload [= <-]. split; [reflexivity|]. exact L.
Qed.

Lemma collect_traces_outcome_witness :
  (forall l : list TraceSummary, Permutation (rev l) l) /\
  exists summaries,
    fetch_trace_summaries no_int_of_str three_traces 6 0 200 =
      Some (Ok (summaries, 3)) /\
    (forall s spans,
        In s summaries ->
        flaky_detail (ts_trace_id s) = Ok spans ->
        _build_span_records 6 (map fresh spans) <> None) /\
    exists outcome written,
      collect_traces no_utc_iso no_int_of_str three_traces flaky_detail
                     (@rev TraceSummary) 6 0 1 = Some (outcome, written) /\
      (outcome = Raise NoSummaries <-> summaries = []) /\
      (outcome = Raise AllFetchesFailed <->
       summaries <> [] /\
       forall s, In s summaries -> usable flaky_detail s = false) /\
      ((exists payload, outcome = Ok payload) <->
       exists s, In s summaries /\ usable flaky_detail s = true) /\
      (forall payload,
          outcome = Ok payload ->
          written = [payload] /\
          List.length (payload_traces payload) =
            List.length (filter (usable flaky_detail) summaries)) /\
      (forall e, outcome = Raise e -> written = []).
Proof.
  assert (forall l : list TraceSummary, Permutation (rev l) l) as Hperm
    by (intro l; apply Permutation_sym, Permutation_rev).
  split; [exact Hperm|].
  eexists. 
  assert (fetch_trace_summaries no_int_of_str three_traces 6 0 200 =
          Some (Ok (map (fun id => {| ts_trace_id := id; ts_duration_ms := 5;
                                      ts_start_ms := 0; ts_is_error := false;
                                      ts_endpoint_names := ["GET:/"] |})
                        ["t1"; "t2"; "t3"], 3))) as Hfetch
    by (vm_compute; reflexivity).
  split; [exact Hfetch|].
  assert (forall s spans,
    In s (map (fun id => {| ts_trace_id := id; ts_duration_ms := 5;
                            ts_start_ms := 0; ts_is_error := false;
                            ts_endpoint_names := ["GET:/"] |})
              ["t1"; "t2"; "t3"]) ->
    flaky_detail (ts_trace_id s) = Ok spans ->
    _build_span_records 6 (map fresh spans) <> None) as Hterm.
  { intros s spans Hs E. simpl in Hs.
    destruct Hs as [<-|[<-|[<-|[]]]]; vm_compute in E;
      try discriminate; injection E as <-; vm_compute; discriminate. }
  split; [exact Hterm|].
  exact (collect_traces_outcome no_utc_iso no_int_of_str three_traces
           flaky_detail (@rev TraceSummary) 6 0 1 Hperm Hfetch Hterm).
Defined.

(** A run on the sample backends, evaluated: of three summaries one fetch
    fails and one trace has no usable span; the run succeeds with the
    remaining one. *)
Example collect_traces_partial_failure :
  option_map (fun out => (match fst out with
                          | Ok p => Some (collected_traces p,
                                          map (fun t => yj_trace_id (tj_summary t))
                                              (payload_traces p),
                                          services_discovered p)
                          | Raise _ => None
                          end, List.length (snd out)))
             (collect_traces no_utc_iso no_int_of_str three_traces flaky_detail
                             (@rev TraceSummary) 6 0 1) =
  Some (Some (1, ["t2"], ["svc"]), 1%nat).
Proof. vm_compute. reflexivity. Qed.

Lemma build_looping_spans_None : forall fuel,
  _build_span_records fuel (map fresh looping_spans) = None.
Proof.
  intro fuel. rewrite build_unfold.
  replace (children_of looping_spans) with [("A:0", ["A:0"])]
    by (vm_compute; reflexivity).
  replace (roots_of looping_spans) with ["A:0"]
    by (vm_compute; reflexivity).
  simpl. now rewrite bfs_self_loop.
Qed.

(** C8 as stated fails: the outcome of a run is not always one of the two
    errors or success.  With [looping_detail] every fetch returns and every
    trace has usable spans, and the trace handled first is retained; the
    hierarchy builder then does not return on the spans of [t2].  It is
    called outside the [try], so the run neither succeeds nor fails with
    either error: it returns for no amount of fuel. *)
Lemma collect_traces_hangs_on_looping_trace :
  (exists s1 rest retained services,
      fetch_trace_summaries no_int_of_str three_traces 1 0 200 =
        Some (Ok (s1 :: rest, 3)) /\
      forallb (usable looping_detail) (s1 :: rest) = true /\
      collect_one no_utc_iso looping_detail 4 s1 ([], []) =
        Some ([retained], services)) /\
  ~ exists fuel out,
      collect_traces no_utc_iso no_int_of_str three_traces looping_detail
                     (fun l => l) fuel 0 1 = Some out.
Proof.
  split.
  - do 4 eexists. split; [vm_compute; reflexivity|].
    split; [reflexivity|]. vm_compute. reflexivity.
  - intros (fuel & out & H). destruct fuel as [|fuel]; [discriminate H|].
    unfold collect_traces in H.
    assert (fetch_trace_summaries no_int_of_str three_traces (S fuel) 0 200 =
            Some (Ok (map (fun id => {| ts_trace_id := id; ts_duration_ms := 5;
                                        ts_start_ms := 0; ts_is_error := false;
                                        ts_endpoint_names := ["GET:/"] |})
                          ["t1"; "t2"; "t3"], 3))) as Hfetch
      by reflexivity.
    rewrite Hfetch in H. cbn [map collect_loop] in H.
    match type of H with
    | context [collect_one ?u ?d ?f ?s ([], [])] =>
        destruct (collect_one u d f s ([], [])) as [[collected seen]|];
        [|discriminate H]
    end.
    assert (collect_one no_utc_iso looping_detail (S fuel)
              {| ts_trace_id := "t2"; ts_duration_ms := 5; ts_start_ms := 0;
                 ts_is_error := false; ts_endpoint_names := ["GET:/"] |}
              (collected, seen) = None) as Hloop.
    { unfold collect_one.
      change (looping_detail _) with (Ok (A := list RawSpan) looping_spans).
      cbv beta iota. now rewrite build_looping_spans_None. }
    rewrite Hloop in H. discriminate H.
Qed.

(* ------------------------------------------------------------------------- *)
(** ** Properties of [_post_graphql] and [fetch_trace_spans]                  *)
(* ------------------------------------------------------------------------- *)

Section PostGraphqlFacts.
Variable D : Type.
Variable post : Z -> attempt_reply D.
Variable max_retries : Z.

(** The three ways the loop can end, when its last iteration is the one with
    [attempt = max_retries]. *)
Lemma post_attempts_cases : forall remaining attempt log,
  attempt + Z.of_nat remaining = max_retries + 1 ->
  (exists n d,
      (n < remaining)%nat /\
      (forall i, (i < n)%nat ->
         exists exc, attempt_outcome (post (attempt + Z.of_nat i)) = inl exc) /\
      attempt_outcome (post (attempt + Z.of_nat n)) = inr d /\
      post_attempts post max_retries remaining attempt log =
        (Ok d, log ++ backoff_log attempt n ++ [Post (attempt + Z.of_nat n)])) \/
  (remaining = O /\
   post_attempts post max_retries remaining attempt log = (Ok None, log)) \/
  ((0 < remaining)%nat /\
   (forall i, (i < remaining)%nat ->
      exists exc, attempt_outcome (post (attempt + Z.of_nat i)) = inl exc) /\
   exists exc,
     attempt_outcome (post max_retries) = inl exc /\
     post_attempts post max_retries remaining attempt log =
       (Raise (RuntimeError (failure_message max_retries exc)),
        log ++ backoff_log attempt (remaining - 1) ++ [Post max_retries])).
Proof.
  induction remaining as [|remaining IH]; intros attempt log Hlast.
  - right. left. now split.
  - cbn [post_attempts].
    destruct (attempt_outcome (post attempt)) as [exc|d] eqn:Eout.
    + destruct (Z.eqb_spec attempt max_retries) as [Eq|Hne].
      * assert (remaining = O) as -> by lia. right. right.
        split; [lia|]. split.
        { intros i Hi. assert (i = O) as -> by lia.
          rewrite Z.add_0_r. now exists exc. }
        exists exc. subst attempt. split; [exact Eout|]. reflexivity.
      * destruct (IH (attempt + 1)
                     ((log ++ [Post attempt]) ++
                      [Sleep (Z.min (3 * attempt) 10)]))
          as [(n & d & Hn & Hfail & Hok & Hrun)
             |[(Hz & _)|(Hpos & Hfail & exc' & Hexc & Hrun)]]; [lia| | |].
        -- left. exists (S n), d. split; [lia|]. split; [|split].
           ++ intros i Hi. destruct i as [|i].
              ** rewrite Z.add_0_r. now exists exc.
              ** replace (attempt + Z.of_nat (S i))
                   with (attempt + 1 + Z.of_nat i) by lia.
                 apply Hfail. lia.
           ++ replace (attempt + Z.of_nat (S n))
                with (attempt + 1 + Z.of_nat n) by lia. exact Hok.
           ++ rewrite Hrun. cbn [backoff_log].
              replace (attempt + Z.of_nat (S n))
                with (attempt + 1 + Z.of_nat n) by lia.
              now rewrite <- !app_assoc.
        -- lia.
        -- right. right. split; [lia|]. split.
           ++ intros i Hi. destruct i as [|i].
              ** rewrite Z.add_0_r. now exists exc.
              ** replace (attempt + Z.of_nat (S i))
                   with (attempt + 1 + Z.of_nat i) by lia.
                 apply Hfail. lia.
           ++ exists exc'. split; [exact Hexc|]. rewrite Hrun.
              destruct remaining as [|remaining]; [lia|].
              cbn [backoff_log Nat.sub]. rewrite Nat.sub_0_r.
              now rewrite <- !app_assoc.
    + left. exists O, d. split; [lia|]. split; [intros i Hi; lia|].
      rewrite Z.add_0_r. split; [exact Eout|]. reflexivity.
Qed.

Lemma post_graphql_cases :
  (exists k d,
      1 <= k <= max_retries /\
      (forall i, 1 <= i < k -> exists exc, attempt_outcome (post i) = inl exc) /\
      attempt_outcome (post k) = inr d /\
      _post_graphql post max_retries =
        (Ok d, backoff_log 1 (Z.to_nat (k - 1)) ++ [Post k])) \/
  (max_retries <= 0 /\ _post_graphql post max_retries = (Ok None, [])) \/
  (1 <= max_retries /\
   (forall i, 1 <= i <= max_retries ->
      exists exc, attempt_outcome (post i) = inl exc) /\
   exists exc,
     attempt_outcome (post max_retries) = inl exc /\
     _post_graphql post max_retries =
       (Raise (RuntimeError (failure_message max_retries exc)),
        backoff_log 1 (Z.to_nat (max_retries - 1)) ++ [Post max_retries])).
Proof.
  unfold _post_graphql.
  destruct (Z.le_gt_cases max_retries 0) as [Hle|Hpos].
  - right. left. split; [exact Hle|].
    replace (Z.to_nat max_retries) with O by lia. reflexivity.
  - destruct (post_attempts_cases (Z.to_nat max_retries) 1 [])
      as [(n & d & Hn & Hfail & Hok & Hrun)
         |[(Hz & _)|(_ & Hfail & exc & Hexc & Hrun)]]; [lia| | |].
    + left. exists (1 + Z.of_nat n), d. split; [lia|]. split; [|split].
      * intros i Hi. replace i with (1 + Z.of_nat (Z.to_nat (i - 1))) by lia.
        apply Hfail. lia.
      * exact Hok.
      * rewrite Hrun, app_nil_l.
        now replace (Z.to_nat (1 + Z.of_nat n - 1)) with n by lia.
    + lia.
    + right. right. split; [lia|]. split.
      * intros i Hi. replace i with (1 + Z.of_nat (Z.to_nat (i - 1))) by lia.
        apply Hfail. lia.
      * exists exc. split; [exact Hexc|]. rewrite Hrun, app_nil_l.
        now replace (Z.to_nat max_retries - 1)%nat
          with (Z.to_nat (max_retries - 1)) by lia.
Qed.
End PostGraphqlFacts.

Lemma backoff_log_posts : forall n first,
  posts (backoff_log first n) =
  map (fun i => first + Z.of_nat i) (seq 0 n).
Proof.
  induction n as [|n IH]; intro first; [reflexivity|].
  cbn [backoff_log]. unfold posts in *. cbn [flat_map app]. rewrite IH.
  cbn [seq map]. rewrite Z.add_0_r. f_equal.
  rewrite <- seq_shift, map_map. apply map_ext. intro i. lia.
Qed.

Lemma backoff_log_sleeps : forall n first,
  sleeps (backoff_log first n) =
  map (fun i => Z.min (3 * (first + Z.of_nat i)) 10) (seq 0 n).
Proof.
  induction n as [|n IH]; intro first; [reflexivity|].
  cbn [backoff_log]. unfold sleeps in *. cbn [flat_map app]. rewrite IH.
  cbn [seq map]. rewrite Z.add_0_r. f_equal.
  rewrite <- seq_shift, map_map. apply map_ext. intro i. f_equal. lia.
Qed.

Lemma posts_app l l' : posts (l ++ l') = posts l ++ posts l'.
Proof. unfold posts. apply flat_map_app. Qed.

Lemma sleeps_app l l' : sleeps (l ++ l') = sleeps l ++ sleeps l'.
Proof. unfold sleeps. apply flat_map_app. Qed.

Lemma sum_Z_bound (l : list Z) b :
  (forall w, In w l -> w <= b) -> sum_Z l <= b * Z.of_nat (List.length l).
Proof.
  induction l as [|a l IH]; intro H; [simpl; lia|].
  cbn [sum_Z fold_right List.length]. fold (sum_Z l).
  assert (a <= b) by (apply H; now left).
  assert (sum_Z l <= b * Z.of_nat (List.length l))
    by (apply IH; intros w Hw; apply H; now right).
  lia.
Qed.

Lemma post_graphql_first_success_run
    (D : Type) (post : Z -> attempt_reply D) max_retries k d :
  1 <= k <= max_retries ->
  (forall i, 1 <= i < k -> exists exc, attempt_outcome (post i) = inl exc) ->
  attempt_outcome (post k) = inr d ->
  _post_graphql post max_retries =
    (Ok d, backoff_log 1 (Z.to_nat (k - 1)) ++ [Post k]).
Proof.
  intros Hk Hfail Hok.
  destruct (post_graphql_cases post max_retries)
    as [(k' & d' & Hk' & Hfail' & Hok' & Hrun)
       |[(Hle & _)|(_ & Hall & _)]].
  - assert (k' = k) as ->.
    { destruct (Z.lt_trichotomy k' k) as [Hlt|[Heq|Hgt]]; [|exact Heq|].
      - destruct (Hfail k') as [exc E]; [lia|]. congruence.
      - destruct (Hfail' k) as [exc E]; [lia|]. congruence. }
    rewrite Hrun. congruence.
  - lia.
  - destruct (Hall k) as [exc E]; [lia|]. congruence.
Qed.

(** X1.  If the first [k - 1] attempts fail and attempt [k <= max_retries]
    succeeds, [_post_graphql] returns the data of attempt [k] after exactly
    [k] requests, having slept [min(3 * i, 10)] after each failed attempt
    [i] and not after the successful one. *)
Theorem post_graphql_returns_first_success :
  forall (D : Type) (post : Z -> attempt_reply D) max_retries k d,
    1 <= k <= max_retries ->
    (forall i, 1 <= i < k -> exists exc, attempt_outcome (post i) = inl exc) ->
    attempt_outcome (post k) = inr d ->
    _post_graphql post max_retries =
      (Ok d, backoff_log 1 (Z.to_nat (k - 1)) ++ [Post k]) /\
    posts (backoff_log 1 (Z.to_nat (k - 1)) ++ [Post k]) =
      map (fun i => 1 + Z.of_nat i) (seq 0 (Z.to_nat k)) /\
    sleeps (backoff_log 1 (Z.to_nat (k - 1)) ++ [Post k]) =
      map (fun i => Z.min (3 * (1 + Z.of_nat i)) 10) (seq 0 (Z.to_nat (k - 1))).
Proof.
  intros D post max_retries k d Hk Hfail Hok. split; [|split].
  - now apply post_graphql_first_success_run.
  - rewrite posts_app, backoff_log_posts. cbn [posts flat_map app].
    replace (Z.to_nat k) with (Z.to_nat (k - 1) + 1)%nat by lia.
    rewrite seq_app, map_app. cbn [seq map]. do 2 f_equal. lia.
  - rewrite sleeps_app, backoff_log_sleeps. cbn [sleeps flat_map app].
    now rewrite app_nil_r.
Qed.

Lemma post_graphql_returns_first_success_witness :
  1 <= 3 <= 3 /\
  (forall i, 1 <= i < 3 ->
     exists exc, attempt_outcome (third_time_lucky i) = inl exc) /\
  attempt_outcome (third_time_lucky 3) =
    inr (Some {| dd_trace := Some {| to_spans := Some example_spans |} |}) /\
  _post_graphql third_time_lucky 3 =
    (Ok (Some {| dd_trace := Some {| to_spans := Some example_spans |} |}),
     [Post 1; Sleep 3; Post 2; Sleep 6; Post 3]).
Proof.
  assert (1 <= 3 <= 3) as Hk by lia.
  assert (forall i, 1 <= i < 3 ->
            exists exc, attempt_outcome (third_time_lucky i) = inl exc) as Hfail.
  { intros i Hi. exists "timeout". unfold third_time_lucky.
    destruct (Z.ltb_spec i 3); [reflexivity|lia]. }
  split; [exact Hk|]. split; [exact Hfail|]. split; [reflexivity|].
  exact (proj1 (post_graphql_returns_first_success third_time_lucky
                  Hk Hfail eq_refl)).
Defined.

(** X2.  [_post_graphql] raises exactly when [max_retries >= 1] and every one
    of the attempts [1 .. max_retries] fails.  The exception then names
    [max_retries] and the last failure, [max_retries] requests were sent, and
    the call slept after every failed attempt but the last. *)
Theorem post_graphql_raises_iff_exhausted :
  forall (D : Type) (post : Z -> attempt_reply D) max_retries,
    ((exists e, fst (_post_graphql post max_retries) = Raise e) <->
     (1 <= max_retries /\
      forall i, 1 <= i <= max_retries ->
                exists exc, attempt_outcome (post i) = inl exc)) /\
    (forall e,
        fst (_post_graphql post max_retries) = Raise e ->
        exists exc,
          attempt_outcome (post max_retries) = inl exc /\
          e = RuntimeError (failure_message max_retries exc) /\
          snd (_post_graphql post max_retries) =
            backoff_log 1 (Z.to_nat (max_retries - 1)) ++ [Post max_retries]).
Proof.
  intros D post max_retries.
  destruct (post_graphql_cases post max_retries)
    as [(k & d & Hk & Hfail & Hok & Hrun)
       |[(Hle & Hrun)|(Hpos & Hall & exc & Hexc & Hrun)]];
    rewrite Hrun; simpl fst; simpl snd.
  - split; [split|intros e; discriminate].
    + intros [e He]. discriminate.
    + intros [_ Hall]. destruct (Hall k) as [exc E]; [lia|]. congruence.
  - split; [split|intros e; discriminate].
    + intros [e He]. discriminate.
    + intros [Hpos _]. lia.
  - split; [split|].
    + intros _. now split.
    + intros _. eexists. reflexivity.
    + intros e [= <-]. exists exc. now repeat split.
Qed.

Lemma post_graphql_raises_iff_exhausted_witness :
  fst (_post_graphql always_down 3) =
    Raise (RuntimeError
             "GraphQL request failed after 3 attempts: [{'message': 'busy'}]") /\
  exists exc,
    attempt_outcome (always_down 3) = inl exc /\
    RuntimeError "GraphQL request failed after 3 attempts: [{'message': 'busy'}]" =
      RuntimeError (failure_message 3 exc) /\
    snd (_post_graphql always_down 3) =
      backoff_log 1 (Z.to_nat (3 - 1)) ++ [Post 3].
Proof.
  assert (fst (_post_graphql always_down 3) =
          Raise (RuntimeError
            "GraphQL request failed after 3 attempts: [{'message': 'busy'}]"))
    as H by reflexivity.
  split; [exact H|].
  exact (proj2 (post_graphql_raises_iff_exhausted always_down 3) _ H).
Defined.

(** X3.  Whatever the transport does, [_post_graphql] sends at most
    [max_retries] requests, numbered 1, 2, ... in order; it sleeps once after
    each request but the last, between 3 and 10 time units each time and at
    most [10 * (max_retries - 1)] in total; it never ends on a sleep. *)
Theorem post_graphql_effects_bounded :
  forall (D : Type) (post : Z -> attempt_reply D) max_retries,
    let log := snd (_post_graphql post max_retries) in
    (List.length (posts log) <= Z.to_nat max_retries)%nat /\
    posts log = map (fun i => 1 + Z.of_nat i) (seq 0 (List.length (posts log))) /\
    List.length (sleeps log) = Nat.pred (List.length (posts log)) /\
    (forall w, In w (sleeps log) -> 3 <= w <= 10) /\
    sum_Z (sleeps log) <= 10 * Z.max 0 (max_retries - 1) /\
    (log = [] \/ exists l a, log = l ++ [Post a]).
Proof.
  intros D post max_retries log.
  assert (Hshape : log = [] \/
            exists n, (n < Z.to_nat max_retries)%nat /\
                      log = backoff_log 1 n ++ [Post (1 + Z.of_nat n)]).
  { subst log.
    destruct (post_graphql_cases post max_retries)
      as [(k & d & Hk & _ & _ & Hrun)
         |[(_ & Hrun)|(Hpos & _ & exc & _ & Hrun)]];
      rewrite Hrun; simpl snd.
    - right. exists (Z.to_nat (k - 1)). split; [lia|]. do 3 f_equal. lia.
    - now left.
    - right. exists (Z.to_nat (max_retries - 1)). split; [lia|].
      do 3 f_equal. lia. }
  destruct Hshape as [->|(n & Hn & ->)].
  - cbn [posts sleeps flat_map List.length seq map Nat.pred sum_Z fold_right].
    split; [lia|]. split; [reflexivity|]. split; [reflexivity|].
    split; [intros w []|]. split; [lia|now left].
  - rewrite posts_app, sleeps_app, backoff_log_posts, backoff_log_sleeps.
    cbn [posts sleeps flat_map app]. rewrite app_nil_r.
    rewrite length_app, !length_map, !length_seq. cbn [List.length].
    assert (Hw : forall w,
      In w (map (fun i => Z.min (3 * (1 + Z.of_nat i)) 10) (seq 0 n)) ->
      3 <= w <= 10).
    { intros w Hw. apply in_map_iff in Hw as (i & <- & _). lia. }
    split; [lia|]. split.
    { replace (n + 1)%nat with (S n) by lia. rewrite seq_S, map_app.
      reflexivity. }
    split; [lia|]. split; [exact Hw|]. split.
    + pose proof (@sum_Z_bound
        (map (fun i => Z.min (3 * (1 + Z.of_nat i)) 10) (seq 0 n)) 10) as Hs.
      rewrite length_map, length_seq in Hs.
      assert (sum_Z (map (fun i => Z.min (3 * (1 + Z.of_nat i)) 10) (seq 0 n))
              <= 10 * Z.of_nat n) as Hs'.
      { apply Hs. intros w Hin. apply Hw in Hin. lia. }
      lia.
    + right. now exists (backoff_log 1 n), (1 + Z.of_nat n).
Qed.

(** X4.  [fetch_trace_spans] returns the span list of the first reply that
    succeeds within [max_retries] attempts, with the effects of
    [_post_graphql]; a reply without trace or with null spans gives the empty
    list, not an error. *)
Theorem fetch_trace_spans_returns_first_success :
  forall (post : Z -> attempt_reply DetailData) max_retries k d,
    1 <= k <= max_retries ->
    (forall i, 1 <= i < k -> exists exc, attempt_outcome (post i) = inl exc) ->
    attempt_outcome (post k) = inr d ->
    fetch_trace_spans post max_retries =
      (Ok (spans_of_data d), backoff_log 1 (Z.to_nat (k - 1)) ++ [Post k]) /\
    ((d = None \/
      (exists data, d = Some data /\
         (dd_trace data = None \/
          exists t, dd_trace data = Some t /\ to_spans t = None))) ->
     fst (fetch_trace_spans post max_retries) = Ok []).
Proof.
  intros post max_retries k d Hk Hfail Hok.
  pose proof (post_graphql_first_success_run post Hk Hfail Hok) as Hrun.
  unfold fetch_trace_spans. rewrite Hrun. split; [reflexivity|].
  simpl fst. intros [->|(data & -> & [E|(t & E & Et)])]; simpl.
  - reflexivity.
  - now rewrite E.
  - now rewrite E, Et.
Qed.

Lemma fetch_trace_spans_returns_first_success_witness :
  1 <= 1 <= 3 /\
  attempt_outcome (no_trace 1) = inr (Some {| dd_trace := None |}) /\
  fetch_trace_spans no_trace 3 = (Ok [], [Post 1]).
Proof.
  assert (1 <= 1 <= 3) as Hk by lia.
  assert (forall i, 1 <= i < 1 ->
            exists exc, attempt_outcome (no_trace i) = inl exc) as Hfail
    by (intros i Hi; lia).
  split; [exact Hk|]. split; [reflexivity|].
  exact (proj1 (fetch_trace_spans_returns_first_success no_trace
                  Hk Hfail eq_refl)).
Defined.

(* ------------------------------------------------------------------------- *)
(** ** Further properties of [SpanRecord.to_dict]                             *)
(* ------------------------------------------------------------------------- *)

Lemma kv_map_fold_get : forall items (d : dict pyval) k,
  dict_get (fold_left (fun d item => dict_set d (kv_key item) (kv_value item))
                      items d) k =
  match last_tag items k with
  | Some v => Some v
  | None => dict_get d k
  end.
Proof.
  induction items as [|item rest IH]; intros d k; simpl; [reflexivity|].
  rewrite IH. destruct (last_tag rest k); [reflexivity|].
  rewrite dict_get_set, (String.eqb_sym k). now destruct (kv_key item =? k)%string.
Qed.

Lemma kv_map_fold_NoDup : forall items (d : dict pyval),
  NoDup (dict_keys d) ->
  NoDup (dict_keys (fold_left (fun d item =>
                                 dict_set d (kv_key item) (kv_value item))
                              items d)).
Proof.
  induction items as [|item rest IH]; intros d H; simpl; [exact H|].
  apply IH. now apply dict_keys_set_NoDup.
Qed.

Lemma kv_map_get items k : dict_get (kv_map items) k = last_tag items k.
Proof.
  unfold kv_map. rewrite kv_map_fold_get. now destruct (last_tag items k).
Qed.

Lemma last_tag_Some_iff items k :
  (exists v, last_tag items k = Some v) <-> In k (map kv_key items).
Proof.
  induction items as [|item rest IH]; simpl.
  - split; [intros [v H]; discriminate|tauto].
  - destruct (last_tag rest k) as [v|] eqn:E.
    + split; [intros _; right; apply IH; now exists v|intros _; now exists v].
    + destruct (String.eqb_spec (kv_key item) k) as [->|Hne].
      * split; [now left|intros _; eexists; reflexivity].
      * split; [intros [v H]; discriminate|].
        intros [H|H]; [congruence|]. apply IH in H as [v H]. discriminate.
Qed.

(** X5.  The serialised [tags_map] holds each tag key once, with the value of
    the last tag that carries the key, and has no other key; the [tags] list
    itself is kept whole.  The [data] of every serialised log record is built
    from the log's key/value list in the same way. *)
Theorem to_dict_tags_map_last_wins :
  forall (utc_iso : Z -> string) (self : SpanRecord),
    let j := to_dict utc_iso self in
    (forall k, dict_get (sj_tags_map j) k = last_tag (rec_tags self) k) /\
    (forall k, In k (dict_keys (sj_tags_map j)) <->
               In k (map kv_key (rec_tags self))) /\
    NoDup (dict_keys (sj_tags_map j)) /\
    sj_tags j = rec_tags self /\
    map lj_time_ms (sj_logs j) = map log_time (rec_logs self) /\
    map lj_data (sj_logs j) = map (fun e => kv_map (log_data e)) (rec_logs self) /\
    (forall e k, dict_get (kv_map (log_data e)) k = last_tag (log_data e) k).
Proof.
  intros utc_iso self j. subst j. simpl.
  split; [intro k; apply kv_map_get|]. split; [|split].
  - intro k. rewrite <- dict_mem_keys, <- last_tag_Some_iff. unfold dict_mem.
    rewrite kv_map_get. destruct (last_tag (rec_tags self) k) as [v|].
    + split; [intros _; now exists v|reflexivity].
    + split; [discriminate|intros [v H]; discriminate].
  - apply kv_map_fold_NoDup. constructor.
  - split; [reflexivity|]. rewrite !map_map. simpl.
    split; [reflexivity|]. split; [reflexivity|].
    intros e k. apply kv_map_get.
Qed.

(* ------------------------------------------------------------------------- *)
(** ** Further properties of [_build_span_records]                            *)
(* ------------------------------------------------------------------------- *)

Lemma dict_keys_eq_mem (V W : Type) (d : dict V) (d' : dict W) k :
  dict_keys d = dict_keys d' -> dict_mem d k = dict_mem d' k.
Proof.
  intro H. destruct (dict_mem d k) eqn:E.
  - symmetry. apply dict_mem_keys. rewrite <- H. now apply dict_mem_keys.
  - symmetry. apply not_true_iff_false. intro E'.
    apply dict_mem_keys in E'. rewrite <- H in E'.
    apply dict_mem_keys in E'. congruence.
Qed.

Lemma dict_keys_set_eq (V W : Type) (d : dict V) (d' : dict W) k v w :
  dict_keys d = dict_keys d' ->
  dict_keys (dict_set d k v) = dict_keys (dict_set d' k w).
Proof.
  intro H. rewrite !dict_keys_set, (dict_keys_eq_mem d d' k H), H.
  reflexivity.
Qed.

Lemma stage1_filter_usable raws : forall i j n n' c,
  dict_keys n = dict_keys n' ->
  dict_keys (snd (fst (stage1 i (map fresh raws) n c))) =
  dict_keys (snd (fst (stage1 j (map fresh (filter usable_span raws)) n' c))) /\
  snd (stage1 i (map fresh raws) n c) =
  snd (stage1 j (map fresh (filter usable_span raws)) n' c).
Proof.
  induction raws as [|r raws IH]; intros i j n n' c Hk.
  - now split.
  - cbn [map filter].
    assert (usable_span r =
            negb (is_None (segmentId r) || is_None (spanId r))) as Eu
      by (unfold usable_span, node_id_of; now destruct (_ || _)).
    rewrite Eu.
    destruct (is_None (segmentId r) || is_None (spanId r)) eqn:E;
      simpl; rewrite ?E.
    + specialize (IH (S i) j n n' c Hk).
      destruct (stage1 (S i) (map fresh raws) n c) as [[s1 n1] c1].
      exact IH.
    + specialize (IH (S i) (S j)
                     (dict_set n (fmt_node (segmentId r) (spanId r)) i)
                     (dict_set n' (fmt_node (segmentId r) (spanId r)) j)
                     (dict_setdefault c (fmt_node (segmentId r) (spanId r)) [])
                     (dict_keys_set_eq _ _ _ _ _ Hk)).
      destruct (stage1 (S i) (map fresh raws) _ _) as [[s1 n1] c1].
      destruct (stage1 (S j) (map fresh (filter usable_span raws)) _ _)
        as [[s2 n2] c2].
      exact IH.
Qed.

Lemma stage2_filter_usable raws : forall P C,
  stage2 (map tag raws) P C = stage2 (map tag (filter usable_span raws)) P C.
Proof.
  induction raws as [|r raws IH]; intros P C; [reflexivity|].
  cbn [map filter]. unfold usable_span at 1.
  rewrite stage2_cons, stage2_step, tagged_id_tag.
  destruct (node_id_of r) as [y|] eqn:E.
  - cbn [map]. rewrite (stage2_cons (tag r)), stage2_step, tagged_id_tag, E.
    apply IH.
  - apply IH.
Qed.

Lemma compute_roots_keys (P : dict (option string)) (n n' : dict nat) :
  dict_keys n = dict_keys n' -> compute_roots P n = compute_roots P n'.
Proof.
  intro H. unfold compute_roots. f_equal. apply filter_ext.
  intros [y [q|]]; simpl; [|reflexivity].
  now rewrite (dict_keys_eq_mem n n' q H).
Qed.

Lemma assemble_filter_usable raws P C D :
  assemble (map tag raws) P C D =
  assemble (map tag (filter usable_span raws)) P C D.
Proof.
  rewrite !assemble_tag.
  induction raws as [|r raws IH]; [reflexivity|].
  cbn [flat_map filter]. unfold usable_span at 1.
  destruct (node_id_of r) as [y|] eqn:E.
  - cbn [flat_map]. now rewrite E, IH.
  - exact IH.
Qed.

(** X6.  Raw spans that lack [segmentId] or [spanId] are dropped without a
    trace: the call returns the same records and the same root list, and makes
    the same depth assignments, as on the list without them (and fails to
    return on the one exactly when it does on the other).  In particular a
    list without any usable span, the empty list included, gives no record
    and no root. *)
Theorem build_ignores_unusable_spans :
  forall fuel raws,
    option_map (fun res => (returned res, depth_assignments res))
               (_build_span_records fuel (map fresh raws)) =
    option_map (fun res => (returned res, depth_assignments res))
               (_build_span_records fuel (map fresh (filter usable_span raws))) /\
    (filter usable_span raws = [] ->
     option_map returned (_build_span_records (S fuel) (map fresh raws)) =
     Some ([], [])).
Proof.
  intros fuel raws.
  assert (Hs1 := stage1_filter_usable raws 0%nat 0%nat [] [] [] eq_refl).
  destruct Hs1 as [Hnodes Hch0].
  assert (Hpar : parents_of raws = parents_of (filter usable_span raws)).
  { unfold parents_of, children0_of. rewrite Hch0. f_equal.
    apply stage2_filter_usable. }
  assert (Hch : children_of raws = children_of (filter usable_span raws)).
  { unfold children_of, children0_of. rewrite Hch0. f_equal.
    apply stage2_filter_usable. }
  assert (Hroots : roots_of raws = roots_of (filter usable_span raws)).
  { unfold roots_of. rewrite Hpar. now apply compute_roots_keys. }
  assert (Heq : forall f,
    option_map (fun res => (returned res, depth_assignments res))
               (_build_span_records f (map fresh raws)) =
    option_map (fun res => (returned res, depth_assignments res))
               (_build_span_records f (map fresh (filter usable_span raws)))).
  { intro f. rewrite !build_unfold, <- Hch, <- Hroots, <- Hpar.
    destruct (bfs f _ _ _ _) as [[depths A]|]; [|reflexivity].
    unfold returned. simpl. now rewrite assemble_filter_usable. }
  split; [apply Heq|].
  intro Hnone. specialize (Heq (S fuel)). rewrite Hnone in Heq.
  destruct (_build_span_records (S fuel) (map fresh raws)) as [res|];
    [|discriminate].
  cbn [option_map] in *.
  replace (_build_span_records (S fuel) (map fresh []))
    with (Some {| span_records := []; roots := []; spans_after := [];
                  depth_assignments := [] |}) in Heq by reflexivity.
  cbn [option_map] in Heq. unfold returned in *. cbn in Heq.
  injection Heq as Hr1 Hr2 _. now rewrite Hr1, Hr2.
Qed.

Lemma build_ignores_unusable_spans_witness :
  filter usable_span unusable_spans = [] /\
  option_map returned (_build_span_records 1 (map fresh unusable_spans)) =
    Some ([], []).
Proof.
  assert (filter usable_span unusable_spans = []) as H by reflexivity.
  split; [exact H|].
  exact (proj2 (build_ignores_unusable_spans 0 unusable_spans) H).
Defined.

(** X7.  When no two kept raw spans share a node identifier, the depths are
    those of a forest: every returned node that is [d] parent links away from
    a root (a node without known parent) has depth [d], roots have depth 0,
    and a node with no chain of parent links to a root (its links end in a
    cycle) has depth 0 as well, without being a root. *)
Theorem build_forest_depths :
  forall raws,
    NoDup (kept_ids raws) ->
    exists res,
      _build_span_records (S (List.length raws)) (map fresh raws) = Some res /\
      forall rec,
        In rec (span_records res) ->
        (forall d, dist (kept_ids raws) (parent_of raws) (node_id rec) d ->
                   depth rec = d) /\
        (In (node_id rec) (roots res) -> depth rec = 0) /\
        ((forall d, ~ dist (kept_ids raws) (parent_of raws) (node_id rec) d) ->
         depth rec = 0 /\ ~ In (node_id rec) (roots res)).
Proof.
  intros raws Hnd.
  destruct (bfs_distinct raws Hnd) as (depths & A & Hrun & _ & Hdepth).
  assert (Hpar : forall y, parents_get raws y = parent_of raws y)
    by (intro y; now apply parents_get_distinct).
  assert (Hdist : forall x d,
    dict_get depths x = Some d <-> dist (kept_ids raws) (parent_of raws) x d).
  { intros x d. rewrite Hdepth.
    split; apply dist_ext; auto. }
  rewrite build_unfold, Hrun. eexists. split; [reflexivity|]. simpl.
  intros rec Hin. apply assemble_In in Hin as (r & y & Hr & E & ->). simpl.
  unfold dict_get_default.
  assert (Hroot : In y (roots_of raws) ->
                  dist (kept_ids raws) (parent_of raws) y 0).
  { intro H. apply dist_root. apply roots_of_spec in H.
    now apply is_root_ext with (par := parents_get raws). }
  split; [|split].
  - intros d Hd. apply Hdist in Hd. now rewrite Hd.
  - intro H. apply Hroot, Hdist in H. now rewrite H.
  - intro Hno. split.
    + destruct (dict_get depths y) as [d|] eqn:Ed; [|reflexivity].
      apply Hdist in Ed. now apply Hno in Ed.
    + intro H. exact (Hno 0 (Hroot H)).
Qed.

Lemma build_forest_depths_witness :
  NoDup (kept_ids forest_spans) /\
  exists res,
    _build_span_records (S (List.length forest_spans)) (map fresh forest_spans)
      = Some res /\
    map (fun r => (node_id r, depth r)) (span_records res) =
      [("A:1", 1); ("C:0", 0); ("A:0", 0); ("B:0", 0); ("C:1", 0)] /\
    roots res = ["A:0"; "B:0"] /\
    forall rec,
      In rec (span_records res) ->
      (forall d, dist (kept_ids forest_spans) (parent_of forest_spans)
                      (node_id rec) d -> depth rec = d) /\
      (In (node_id rec) (roots res) -> depth rec = 0) /\
      ((forall d, ~ dist (kept_ids forest_spans) (parent_of forest_spans)
                         (node_id rec) d) ->
       depth rec = 0 /\ ~ In (node_id rec) (roots res)).
Proof.
  assert (NoDup (kept_ids forest_spans)) as H by (vm_compute; nodup_strings).
  split; [exact H|].
  destruct (build_forest_depths forest_spans H) as (res & E & Hall).
  exists res. split; [exact E|].
  vm_compute in E. injection E as <-.
  split; [reflexivity|]. split; [reflexivity|]. exact Hall.
Defined.

Lemma kids_tag_flat_map raws x :
  kids (map tag raws) x =
  flat_map (fun r => match node_id_of r with
                     | Some y =>
                         if opt_str_eqb (resolve_parent (tag r)) x
                         then [y] else []
                     | None => []
                     end) raws.
Proof.
  induction raws as [|r raws IH]; [reflexivity|].
  cbn [map flat_map]. now rewrite kids_cons, tagged_id_tag, IH.
Qed.

(** X8.  The children list of a returned node holds, in input order and once
    per raw span, the identifiers of the kept raw spans whose resolved parent
    is that node; this holds whether or not identifiers repeat. *)
Theorem children_ids_in_input_order :
  forall fuel raws res rec,
    _build_span_records fuel (map fresh raws) = Some res ->
    In rec (span_records res) ->
    children_ids rec =
    flat_map (fun r => match node_id_of r with
                       | Some y =>
                           if opt_str_eqb (resolve_parent (tag r)) (node_id rec)
                           then [y] else []
                       | None => []
                       end) raws.
Proof.
  intros fuel raws res rec Hres Hin.
  destruct (build_Some _ _ Hres) as (depths & _ & Hrec & _ & _).
  rewrite Hrec in Hin. apply assemble_In in Hin as (r & y & Hr & E & ->).
  simpl. rewrite children_of_default.
  assert (existsb (String.eqb y) (kept_ids raws) = true) as ->
    by (apply existsb_eqb_In, kept_ids_In; now exists r).
  apply kids_tag_flat_map.
Qed.

Lemma children_ids_in_input_order_witness :
  exists res rec,
    _build_span_records 5 (map fresh reparented_spans) = Some res /\
    In rec (span_records res) /\
    node_id rec = "B:0" /\
    children_ids rec = ["A:0"].
Proof.
  destruct (_build_span_records 5 (map fresh reparented_spans)) as [res|] eqn:E;
    [|vm_compute in E; discriminate].
  pose proof (children_ids_in_input_order 5 reparented_spans) as H.
  specialize (H res). vm_compute in E. injection E as <-.
  eexists. eexists. split; [reflexivity|].
  split; [left; reflexivity|]. split; [reflexivity|].
  exact (H _ eq_refl (or_introl eq_refl)).
Defined.

Lemma stage2_parents_last spans : forall P C y,
  dict_get (fst (stage2 spans P C)) y =
  match dict_get (fst (stage2 spans [] C)) y with
  | Some p => Some p
  | None => dict_get P y
  end.
Proof.
  induction spans as [|s spans IH]; intros P C y.
  - reflexivity.
  - rewrite (stage2_cons s spans P C), (stage2_cons s spans [] C),
      !stage2_step.
    destruct (tagged_id s) as [x|]; [|apply IH].
    rewrite IH. rewrite (IH (dict_set [] x (resolve_parent s))).
    destruct (dict_get (fst (stage2 spans [] _)) y); [reflexivity|].
    rewrite !dict_get_set. simpl. now destruct (y =? x)%string.
Qed.

Lemma stage2_children_indep spans : forall P P' C,
  snd (stage2 spans P C) = snd (stage2 spans P' C).
Proof.
  induction spans as [|s spans IH]; intros P P' C; [reflexivity|].
  rewrite (stage2_cons s spans P C), (stage2_cons s spans P' C), !stage2_step.
  destruct (tagged_id s); apply IH.
Qed.

Lemma stage2_tag_last raws : forall C y,
  dict_get (fst (stage2 (map tag raws) [] C)) y =
  option_map (fun r => resolve_parent (tag r)) (last_with_id raws y).
Proof.
  induction raws as [|r raws IH]; intros C y; [reflexivity|].
  cbn [map last_with_id]. rewrite stage2_cons, stage2_step, tagged_id_tag.
  destruct (node_id_of r) as [x|] eqn:E.
  - rewrite stage2_parents_last, IH.
    destruct (last_with_id raws y); [reflexivity|].
    simpl. rewrite (String.eqb_sym y x). now destruct (x =? y)%string.
  - rewrite IH. now destruct (last_with_id raws y).
Qed.

Lemma last_with_id_Some raws y r :
  last_with_id raws y = Some r -> In r raws /\ node_id_of r = Some y.
Proof.
  induction raws as [|a raws IH]; simpl; [discriminate|].
  destruct (last_with_id raws y) as [r'|].
  - intros [= <-]. destruct (IH eq_refl) as [H1 H2]. split; [now right|exact H2].
  - destruct (opt_str_eqb (node_id_of a) y) eqn:E; [|discriminate].
    intros [= <-]. split; [now left|now apply opt_str_eqb_eq].
Qed.

(** X9.  Among raw spans that share a node identifier the last one decides
    the parent: the [parent_node_id] of every returned node is the parent
    resolved from the last kept raw span with the node's identifier. *)
Theorem parent_node_id_of_last_span :
  forall fuel raws res rec,
    _build_span_records fuel (map fresh raws) = Some res ->
    In rec (span_records res) ->
    exists r,
      last_with_id raws (node_id rec) = Some r /\
      In r raws /\
      node_id_of r = Some (node_id rec) /\
      parent_node_id rec = resolve_parent (tag r).
Proof.
  intros fuel raws res rec Hres Hin.
  destruct (build_Some _ _ Hres) as (depths & _ & Hrec & _ & _).
  rewrite Hrec in Hin. apply assemble_In in Hin as (r0 & y & Hr0 & E0 & ->).
  simpl. unfold parents_of. rewrite stage2_tag_last.
  destruct (last_with_id raws y) as [r|] eqn:El.
  - exists r. destruct (last_with_id_Some _ _ El) as [H1 H2]. now repeat split.
  - exfalso. clear - Hr0 E0 El.
    induction raws as [|a raws IH]; [destruct Hr0|]. simpl in El.
    destruct (last_with_id raws y); [discriminate|].
    destruct Hr0 as [->|Hr0]; [|now apply IH].
    rewrite E0 in El. simpl in El. now rewrite String.eqb_refl in El.
Qed.

Lemma parent_node_id_of_last_span_witness :
  exists res rec,
    _build_span_records 5 (map fresh reparented_spans) = Some res /\
    In rec (span_records res) /\
    node_id rec = "A:0" /\
    exists r,
      last_with_id reparented_spans (node_id rec) = Some r /\
      In r reparented_spans /\
      node_id_of r = Some (node_id rec) /\
      parent_node_id rec = resolve_parent (tag r).
Proof.
  destruct (_build_span_records 5 (map fresh reparented_spans)) as [res|] eqn:E;
    [|vm_compute in E; discriminate].
  pose proof (parent_node_id_of_last_span 5 reparented_spans) as H.
  specialize (H res). vm_compute in E. injection E as <-.
  eexists. eexists. split; [reflexivity|].
  split; [right; left; reflexivity|]. split; [reflexivity|].
  exact (H _ eq_refl (or_intror (or_introl eq_refl))).
Defined.

Lemma parent_items_filter_flat_map (f : string * option string -> bool) raws :
  map fst (filter f (parent_items (map tag raws))) =
  flat_map (fun r => match node_id_of r with
                     | Some y => if f (y, resolve_parent (tag r)) then [y] else []
                     | None => []
                     end) raws.
Proof.
  unfold parent_items. induction raws as [|r raws IH]; [reflexivity|].
  cbn [map flat_map]. rewrite filter_app, map_app, IH, tagged_id_tag.
  f_equal. destruct (node_id_of r) as [y|]; [|reflexivity].
  simpl. now destruct (f _).
Qed.

Lemma not_in_nodes_not_known raws p :
  not_in_nodes (nodes_of raws) p = not_known raws p.
Proof.
  destruct p as [q|]; [|reflexivity]. simpl. f_equal.
  destruct (existsb (String.eqb q) (kept_ids raws)) eqn:E.
  - apply nodes_of_mem. now apply existsb_eqb_In.
  - apply not_true_iff_false. intro H. apply nodes_of_mem in H.
    apply existsb_eqb_In in H. congruence.
Qed.

(* ------------------------------------------------------------------------- *)
(** ** The root list in terms of the input spans                              *)
(* ------------------------------------------------------------------------- *)

Lemma last_with_id_distinct raws r y :
  NoDup (kept_ids raws) -> In r raws -> node_id_of r = Some y ->
  last_with_id raws y = Some r.
Proof.
  induction raws as [|a raws IH]; intros Hnd Hin Hy; [destruct Hin|].
  change (kept_ids (a :: raws))
    with (opt_list (node_id_of a) ++ kept_ids raws) in Hnd.
  pose proof (NoDup_app_remove_l _ _ Hnd) as Hnd'.
  simpl. destruct Hin as [->|Hin].
  - destruct (last_with_id raws y) as [r'|] eqn:El.
    + exfalso. destruct (last_with_id_Some _ _ El) as [H1 H2].
      rewrite Hy in Hnd. simpl in Hnd. apply NoDup_cons_iff in Hnd as [Hnotin _].
      apply Hnotin. apply kept_ids_In. now exists r'.
    + rewrite Hy. simpl. now rewrite String.eqb_refl.
  - now rewrite (IH Hnd' Hin Hy).
Qed.

Lemma not_known_Some raws p :
  not_known raws (Some p) = true <-> ~ In p (kept_ids raws).
Proof.
  simpl. rewrite negb_true_iff, <- not_true_iff_false.
  now rewrite existsb_eqb_In.
Qed.

(** The root list in terms of the input: an identifier is a root when the
    last kept span that carries it resolves to no parent or to an identifier
    that no kept span carries. *)
Lemma roots_of_last raws x :
  In x (roots_of raws) <->
  exists r, last_with_id raws x = Some r /\
            not_known raws (resolve_parent (tag r)) = true.
Proof.
  unfold roots_of.
  rewrite (@compute_roots_In _ (nodes_of raws) x (parents_of_NoDup raws)).
  unfold parents_of. rewrite stage2_tag_last.
  destruct (last_with_id raws x) as [r|]; simpl; split.
  - intros (p & [= <-] & Hp). exists r. split; [reflexivity|].
    now rewrite <- not_in_nodes_not_known.
  - intros (r' & [= <-] & Hr). eexists. split; [reflexivity|].
    now rewrite not_in_nodes_not_known.
  - intros (p & Hp & _). discriminate.
  - intros (r' & Hr & _). discriminate.
Qed.

Lemma record_parent_of_last fuel raws res rec r :
  _build_span_records fuel (map fresh raws) = Some res ->
  In rec (span_records res) ->
  last_with_id raws (node_id rec) = Some r ->
  parent_node_id rec = resolve_parent (tag r).
Proof.
  intros Hres Hin Hlast.
  destruct (build_Some _ _ Hres) as (depths & _ & Hrec & _ & _).
  rewrite Hrec in Hin. apply assemble_In in Hin as (r0 & y & Hr0 & E0 & ->).
  simpl in *. unfold parents_of. rewrite stage2_tag_last, Hlast. reflexivity.
Qed.

Lemma record_of_span fuel raws res r y :
  _build_span_records fuel (map fresh raws) = Some res ->
  In r raws -> node_id_of r = Some y ->
  exists rec, In rec (span_records res) /\ node_id rec = y.
Proof.
  intros Hres Hin Hy.
  destruct (build_Some _ _ Hres) as (depths & _ & Hrec & _ & _).
  eexists. split.
  - rewrite Hrec. apply assemble_In. exists r, y. now repeat split.
  - reflexivity.
Qed.

(** C3 (amended).  The returned root list is tied to the input as follows.
    Whenever the call returns, the root list has no repetition and holds
    exactly the node identifiers for which the last kept raw span that
    carries the identifier resolves to no parent, or to a parent that no kept
    span carries; if that parent is a dangling reference, the identifier is
    a root although each returned node with the identifier has it as its
    non-null [parent_node_id].  When no two kept raw spans share a node
    identifier, the call returns and this holds of every kept span: its
    identifier is a root exactly when its own resolved parent is absent or
    unknown, and a span with a dangling reference is a root whose returned
    node has that reference as [parent_node_id].  An earlier span that
    shares its identifier with a later one does not count. *)
Theorem roots_decided_by_last_span :
  (forall fuel raws res,
      _build_span_records fuel (map fresh raws) = Some res ->
      NoDup (roots res) /\
      (forall x,
          In x (roots res) <->
          exists r, last_with_id raws x = Some r /\
                    not_known raws (resolve_parent (tag r)) = true) /\
      (forall r y p,
          last_with_id raws y = Some r ->
          resolve_parent (tag r) = Some p ->
          ~ In p (kept_ids raws) ->
          In y (roots res) /\
          (exists rec, In rec (span_records res) /\ node_id rec = y) /\
          (forall rec, In rec (span_records res) -> node_id rec = y ->
                       parent_node_id rec = Some p))) /\
  (forall raws,
      NoDup (kept_ids raws) ->
      exists res,
        _build_span_records (S (List.length raws)) (map fresh raws) =
          Some res /\
        forall r y,
          In r raws -> node_id_of r = Some y ->
          (In y (roots res) <->
           not_known raws (resolve_parent (tag r)) = true) /\
          (forall p,
              resolve_parent (tag r) = Some p ->
              ~ In p (kept_ids raws) ->
              In y (roots res) /\
              exists rec, In rec (span_records res) /\ node_id rec = y /\
                          parent_node_id rec = Some p)).
Proof.
  assert (forall fuel raws res,
             _build_span_records fuel (map fresh raws) = Some res ->
             forall x, In x (roots res) <->
                       exists r, last_with_id raws x = Some r /\
                                 not_known raws (resolve_parent (tag r)) = true)
    as Hroots.
  { intros fuel raws res Hres x.
    destruct (build_Some _ _ Hres) as (_ & _ & _ & -> & _).
    apply roots_of_last. }
  split.
  - intros fuel raws res Hres. split; [|split].
    + destruct (build_Some _ _ Hres) as (_ & _ & _ & -> & _).
      apply roots_of_NoDup.
    + exact (Hroots _ _ _ Hres).
    + intros r y p Hlast Hp Hdangling.
      destruct (last_with_id_Some _ _ Hlast) as [Hin Hy].
      split; [|split].
      * apply (Hroots _ _ _ Hres). exists r. split; [exact Hlast|].
        rewrite Hp. now apply not_known_Some.
      * exact (@record_of_span _ _ _ _ _ Hres Hin Hy).
      * intros rec Hrec <-.
        now rewrite (@record_parent_of_last _ _ _ _ _ Hres Hrec Hlast).
  - intros raws Hnd.
    destruct (bfs_distinct raws Hnd) as (depths & A & Hrun & _).
    pose proof (build_unfold (S (List.length raws)) raws) as Hres.
    rewrite Hrun in Hres. eexists. split; [exact Hres|].
    intros r y Hin Hy.
    pose proof (@last_with_id_distinct raws r y Hnd Hin Hy) as Hlast.
    split.
    + rewrite (Hroots _ _ _ Hres y). rewrite Hlast. split.
      * now intros (r' & [= <-] & H).
      * intro H. now exists r.
    + intros p Hp Hdangling. split.
      * apply (Hroots _ _ _ Hres). exists r. split; [exact Hlast|].
        rewrite Hp. now apply not_known_Some.
      * destruct (@record_of_span _ _ _ _ _ Hres Hin Hy) as (rec & Hrec & Hid).
        exists rec. split; [exact Hrec|]. split; [exact Hid|].
        rewrite <- Hid in Hlast.
        now rewrite (@record_parent_of_last _ _ _ _ _ Hres Hrec Hlast).
Qed.

Lemma roots_decided_by_last_span_witness :
  NoDup (kept_ids dangling_spans) /\
  exists res,
    _build_span_records 3 (map fresh dangling_spans) = Some res /\
    roots res = ["A:0"; "B:0"] /\
    In "B:0" (roots res) /\
    exists rec, In rec (span_records res) /\ node_id rec = "B:0" /\
                parent_node_id rec = Some "X:9".
Proof.
  assert (NoDup (kept_ids dangling_spans)) as H by (vm_compute; nodup_strings).
  split; [exact H|].
  destruct (proj2 roots_decided_by_last_span dangling_spans H)
    as (res & E & Hr).
  exists res. split; [exact E|].
  split; [vm_compute in E; injection E as <-; reflexivity|].
  refine (proj2 (Hr (span_of (VStr "B") (VInt 0) VNone [ref_to "X" 9]) "B:0"
                    _ _) "X:9" _ _).
  - right; left; reflexivity.
  - reflexivity.
  - reflexivity.
  - vm_compute. intros [H1|[H1|[]]]; discriminate.
Defined.

(** C3 as stated fails when an identifier is repeated: the first span of
    [shadowed_spans] has the identifier [A:0] and resolves to the dangling
    reference [X:9], yet [A:0] is not in the root list, because the later
    span that shares the identifier resolves to the known node [B:0]. *)
Lemma shadowed_dangling_span_is_no_root :
  exists res r,
    _build_span_records 4 (map fresh shadowed_spans) = Some res /\
    In r shadowed_spans /\
    node_id_of r = Some "A:0" /\
    resolve_parent (tag r) = Some "X:9" /\
    ~ In "X:9" (kept_ids shadowed_spans) /\
    roots res = ["B:0"] /\
    ~ In "A:0" (roots res) /\
    map (fun rec => (node_id rec, parent_node_id rec)) (span_records res) =
      [("A:0", Some "B:0"); ("B:0", None); ("A:0", Some "B:0")].
Proof.
  eexists. exists (span_of (VStr "A") (VInt 0) VNone [ref_to "X" 9]).
  split; [vm_compute; reflexivity|].
  split; [left; reflexivity|].
  split; [reflexivity|]. split; [reflexivity|].
  split; [vm_compute; intros [H|[H|[H|[]]]]; discriminate|].
  split; [reflexivity|].
  split; [|reflexivity].
  simpl. intros [H|[]]; discriminate.
Qed.

(** X10.  When no two kept raw spans share a node identifier, the root list
    holds the identifiers of the kept spans whose resolved parent is absent
    or names no kept span, in input order. *)
Theorem roots_in_input_order :
  forall fuel raws res,
    NoDup (kept_ids raws) ->
    _build_span_records fuel (map fresh raws) = Some res ->
    roots res =
    flat_map (fun r => match node_id_of r with
                       | Some y =>
                           if not_known raws (resolve_parent (tag r))
                           then [y] else []
                       | None => []
                       end) raws.
Proof.
  intros fuel raws res Hnd Hres.
  destruct (build_Some _ _ Hres) as (_ & _ & _ & -> & _).
  unfold roots_of, compute_roots. rewrite (parents_of_distinct raws Hnd).
  rewrite (filter_ext _ (fun it => not_known raws (snd it)))
    by (intros [y p]; apply not_in_nodes_not_known).
  apply (parent_items_filter_flat_map (fun it => not_known raws (snd it))).
Qed.

Lemma roots_in_input_order_witness :
  NoDup (kept_ids forest_spans) /\
  exists res,
    _build_span_records 6 (map fresh forest_spans) = Some res /\
    roots res = ["A:0"; "B:0"].
Proof.
  assert (NoDup (kept_ids forest_spans)) as H by (vm_compute; nodup_strings).
  split; [exact H|].
  destruct (_build_span_records 6 (map fresh forest_spans)) as [res|] eqn:E;
    [|vm_compute in E; discriminate].
  exists res. split; [reflexivity|].
  rewrite (roots_in_input_order 6 forest_spans H E). reflexivity.
Defined.

(* ------------------------------------------------------------------------- *)
(** ** Further properties of [fetch_trace_summaries]                          *)
(* ------------------------------------------------------------------------- *)

(** X11.  Whatever the limit and the backend, the returned summaries have
    pairwise distinct trace identifiers, and a positive limit bounds their
    number. *)
Theorem discovery_returns_distinct_ids :
  forall int_of_str list_backend fuel limit page_size l t,
    fetch_trace_summaries int_of_str list_backend fuel limit page_size =
      Some (Ok (l, t)) ->
    NoDup (map ts_trace_id l) /\
    (0 < limit -> Z.of_nat (List.length l) <= limit).
Proof.
  intros int_of_str list_backend fuel limit page_size l t H.
  exact (fetch_trace_summaries_dedup _ _ _ _ _ H).
Qed.

Lemma discovery_returns_distinct_ids_witness :
  exists l,
    fetch_trace_summaries no_int_of_str overlapping_pages 5 2 2 =
      Some (Ok (l, 3)) /\
    map ts_trace_id l = ["t1"; "t2"] /\
    NoDup (map ts_trace_id l) /\
    (0 < 2 -> Z.of_nat (List.length l) <= 2).
Proof.
  destruct (fetch_trace_summaries no_int_of_str overlapping_pages 5 2 2)
    as [[[l t]|e]|] eqn:E; try (vm_compute in E; discriminate).
  assert (t = 3) as -> by (vm_compute in E; congruence).
  exists l. split; [reflexivity|].
  split; [vm_compute in E; injection E as <-; reflexivity|].
  exact (discovery_returns_distinct_ids _ _ _ _ _ E).
Defined.



Section DiscoveryFailure.
Variable int_of_str : string -> option Z.
Variable list_backend : Z -> Z -> result Page.

Lemma paging_fails_later page_size : forall k fuel first summaries seen total0 e,
  (k < fuel)%nat ->
  (forall i, (i < k)%nat ->
     exists reply, list_backend (first + Z.of_nat i) page_size = Ok reply /\
                   traces reply <> [] /\
                   (Z.of_nat (List.length (traces reply)) <? page_size) = false) ->
  list_backend (first + Z.of_nat k) page_size = Raise e ->
  paging int_of_str list_backend fuel 0 page_size first summaries seen total0 =
  Some (Raise e).
Proof.
  induction k as [|k IH]; intros fuel first summaries seen total0 e Hfuel Hfull Hend;
    (destruct fuel as [|fuel]; [lia|]); cbn [paging];
    rewrite limit_zero_never_reached.
  - rewrite Z.add_0_r in Hend. now rewrite Hend.
  - destruct (Hfull 0%nat) as (reply & E & Hne & Hlen); [lia|].
    rewrite Z.add_0_r in E. rewrite E.
    destruct (traces reply) as [|entry rest] eqn:Etr; [congruence|].
    destruct (scan_page int_of_str 0 (entry :: rest) summaries seen)
      as [summaries' seen'].
    rewrite Hlen.
    apply IH; [lia| |].
    + intros i Hi. destruct (Hfull (S i)) as (r & Er & H); [lia|].
      exists r. split; [|exact H]. rewrite <- Er. f_equal. lia.
    + rewrite <- Hend. f_equal. lia.
Qed.
End DiscoveryFailure.

(** X13.  A backend failure on any page fails the discovery as a whole: with
    the limit 0, when [k] full pages are followed by a request that raises,
    the call raises that exception and returns none of the summaries read
    from the earlier pages. *)
Theorem discovery_fails_on_any_page :
  forall int_of_str list_backend page_size k fuel e,
    (k < fuel)%nat ->
    (forall i, (i < k)%nat ->
       exists reply,
         list_backend (1 + Z.of_nat i) (Z.max 1 page_size) = Ok reply /\
         traces reply <> [] /\
         (Z.of_nat (List.length (traces reply)) <? Z.max 1 page_size) = false) ->
    list_backend (1 + Z.of_nat k) (Z.max 1 page_size) = Raise e ->
    fetch_trace_summaries int_of_str list_backend fuel 0 page_size =
    Some (Raise e).
Proof.
  intros int_of_str list_backend page_size k fuel e Hfuel Hfull Hend.
  unfold fetch_trace_summaries.
  change (0 <? 0) with false. cbv iota. rewrite Z.min_id.
  now apply paging_fails_later with (k := k).
Qed.

Lemma discovery_fails_on_any_page_witness :
  fetch_trace_summaries no_int_of_str failing_second_page 3 0 2 =
  Some (Raise (RuntimeError "GraphQL request failed after 3 attempts: timeout")).
Proof.
  apply (discovery_fails_on_any_page no_int_of_str failing_second_page
           2 (k := 1) (fuel := 3)).
  - lia.
  - intros i Hi. assert (i = O) as -> by lia. eexists.
    split; [reflexivity|]. split; [discriminate|reflexivity].
  - reflexivity.
Defined.

Section DiscoverySoundness.
Variable int_of_str : string -> option Z.
Variable list_backend : Z -> Z -> result Page.
Variable Q : TraceSummary -> Prop.

Lemma scan_page_sound limit : forall entries summaries seen,
  (forall s, In s summaries -> Q s) ->
  (forall entry s, In entry entries ->
                   entry_summary int_of_str entry = Some s -> Q s) ->
  forall s, In s (fst (scan_page int_of_str limit entries summaries seen)) ->
            Q s.
Proof.
  induction entries as [|entry rest IH]; intros summaries seen Hs He; simpl.
  - exact Hs.
  - assert (Hrest : forall e s, In e rest ->
                                entry_summary int_of_str e = Some s -> Q s)
      by (intros e s H; apply He; now right).
    pose proof (He entry) as Hentry. unfold entry_summary in Hentry.
    destruct (traceIds entry) as [|trace_id ids]; [now apply IH|].
    destruct (existsb (String.eqb trace_id) seen); [now apply IH|].
    match goal with
    | |- context [limit_reached limit ?l] =>
        assert (forall s, In s l -> Q s) as Hnew
    end.
    { intros s Hin. apply in_app_or in Hin as [Hin|[<-|[]]]; [now apply Hs|].
      apply Hentry; [now left|reflexivity]. }
    destruct (limit_reached limit _); [exact Hnew|now apply IH].
Qed.

End DiscoverySoundness.

(* ------------------------------------------------------------------------- *)
(** ** Further properties of [collect_traces]                                 *)
(* ------------------------------------------------------------------------- *)

Lemma insert_sorted_In s l x :
  In x (insert_sorted s l) <-> x = s \/ In x l.
Proof.
  induction l as [|a l IH]; simpl.
  - intuition.
  - destruct (String.compare s a) eqn:E; simpl.
    + apply String.compare_eq_iff in E. subst. intuition.
    + intuition.
    + rewrite IH. intuition.
Qed.

Lemma sorted_set_In l x : In x (sorted_set l) <-> In x l.
Proof.
  unfold sorted_set. induction l as [|a l IH]; simpl; [tauto|].
  rewrite insert_sorted_In, IH. intuition.
Qed.

Lemma increasing_tail a l : increasing (a :: l) -> increasing l.
Proof. destruct l as [|b l]; simpl; tauto. Qed.

Lemma insert_sorted_increasing s : forall l,
  increasing l -> increasing (insert_sorted s l).
Proof.
  assert (Hgt : forall l a,
    increasing (a :: l) -> String.compare s a = Gt ->
    increasing (a :: insert_sorted s l)).
  { induction l as [|b l IH]; intros a Hinc Hcmp.
    - simpl. split; [|exact I].
      rewrite String.compare_antisym, Hcmp. reflexivity.
    - destruct Hinc as [Hab Hinc]. cbn [insert_sorted].
      destruct (String.compare s b) eqn:E.
      + now split.
      + split; [|now split].
        rewrite String.compare_antisym, Hcmp. reflexivity.
      + split; [exact Hab|]. now apply IH. }
  intros l Hinc. destruct l as [|a l]; [exact I|].
  cbn [insert_sorted]. destruct (String.compare s a) eqn:E.
  - exact Hinc.
  - now split.
  - now apply Hgt.
Qed.

Lemma sorted_set_increasing l : increasing (sorted_set l).
Proof.
  unfold sorted_set. induction l as [|a l IH]; [exact I|].
  simpl. now apply insert_sorted_increasing.
Qed.

Lemma service_codes_In records s :
  In s (service_codes records) <->
  exists rec, In rec records /\ service_code rec = Some s /\ s <> "".
Proof.
  unfold service_codes. rewrite in_flat_map. split.
  - intros (rec & Hrec & H). exists rec. split; [exact Hrec|].
    destruct (service_code rec) as [c|]; simpl in H; [|destruct H].
    destruct (String.eqb_spec c ""); simpl in H; [destruct H|].
    destruct H as [<-|[]]. now split.
  - intros (rec & Hrec & E & Hne). exists rec. split; [exact Hrec|].
    rewrite E. simpl. destruct (String.eqb_spec s ""); [congruence|].
    now left.
Qed.

Section CollectionPayload.
Variable utc_iso : Z -> string.
Variable detail_backend : string -> result (list RawSpan).

(** One iteration either leaves the state alone or appends one record, made
    of a non-empty build result, and that record's services. *)
Lemma collect_one_cases fuel summary collected services_seen state' :
  collect_one utc_iso detail_backend fuel summary (collected, services_seen)
    = Some state' ->
  (usable detail_backend summary = false /\
   state' = (collected, services_seen)) \/
  (usable detail_backend summary = true /\
   exists spans built,
     detail_backend (ts_trace_id summary) = Ok spans /\
     _build_span_records fuel (map fresh spans) = Some built /\
     span_records built <> [] /\
     state' =
       (collected ++
        [{| tj_summary := summary_to_dict utc_iso summary;
            tj_span_count := Z.of_nat (List.length (span_records built));
            tj_services_involved :=
              sorted_set (service_codes (span_records built));
            tj_root_span_node_ids := roots built;
            tj_spans := map (to_dict utc_iso) (span_records built) |}],
        services_seen ++ sorted_set (service_codes (span_records built)))).
Proof.
  unfold collect_one, usable.
  destruct (detail_backend (ts_trace_id summary)) as [spans|e].
  - destruct (_build_span_records fuel (map fresh spans)) as [built|] eqn:Eb;
      [|discriminate].
    pose proof (build_record_ids _ _ Eb) as Hids.
    destruct (span_records built) as [|rec recs] eqn:Erec; simpl in Hids;
      rewrite <- Hids.
    + intros [= <-]. now left.
    + intros [= <-]. right. split; [reflexivity|].
      exists spans, built. rewrite Erec.
      split; [reflexivity|]. split; [exact Eb|]. split; [discriminate|].
      reflexivity.
  - intros [= <-]. now left.
Qed.

(** What every collected record satisfies. *)
Lemma collect_loop_invariant fuel (I : list TraceJson -> list string -> Prop) :
  (forall collected services_seen t services,
      I collected services_seen ->
      (exists summary spans built,
          detail_backend (ts_trace_id summary) = Ok spans /\
          _build_span_records fuel (map fresh spans) = Some built /\
          span_records built <> [] /\
          services = sorted_set (service_codes (span_records built)) /\
          t = {| tj_summary := summary_to_dict utc_iso summary;
                 tj_span_count := Z.of_nat (List.length (span_records built));
                 tj_services_involved := services;
                 tj_root_span_node_ids := roots built;
                 tj_spans := map (to_dict utc_iso) (span_records built) |}) ->
      I (collected ++ [t]) (services_seen ++ services)) ->
  forall futures collected services_seen state',
    I collected services_seen ->
    collect_loop utc_iso detail_backend fuel futures (collected, services_seen)
      = Some state' ->
    I (fst state') (snd state').
Proof.
  intros Hstep. induction futures as [|s rest IH];
    intros collected services_seen state' HI Hrun.
  - injection Hrun as <-. exact HI.
  - cbn [collect_loop] in Hrun.
    destruct (collect_one utc_iso detail_backend fuel s
                          (collected, services_seen)) as [[c1 sv1]|] eqn:E1;
      [|discriminate].
    apply collect_one_cases in E1
      as [(_ & [= -> ->])|(_ & spans & built & Hd & Hb & Hne & [= -> ->])].
    + now apply (IH collected services_seen).
    + apply (IH _ _ _ (Hstep _ _ _ _ HI
                         (ex_intro _ s (ex_intro _ spans (ex_intro _ built
                            (conj Hd (conj Hb (conj Hne
                               (conj eq_refl eq_refl)))))))) Hrun).
Qed.

Lemma collect_loop_summaries fuel : forall futures collected services_seen state',
  collect_loop utc_iso detail_backend fuel futures (collected, services_seen)
    = Some state' ->
  map tj_summary (fst state') =
  map tj_summary collected ++
  map (summary_to_dict utc_iso) (filter (usable detail_backend) futures).
Proof.
  induction futures as [|s rest IH]; intros collected services_seen state' Hrun.
  - injection Hrun as <-. simpl. now rewrite app_nil_r.
  - cbn [collect_loop] in Hrun.
    destruct (collect_one utc_iso detail_backend fuel s
                          (collected, services_seen)) as [[c1 sv1]|] eqn:E1;
      [|discriminate].
    cbn [filter].
    apply collect_one_cases in E1
      as [(Hu & [= -> ->])|(Hu & spans & built & _ & _ & _ & [= -> ->])];
      rewrite Hu.
    + now apply (IH collected services_seen).
    + rewrite (IH _ _ _ Hrun), map_app. simpl. now rewrite <- app_assoc.
Qed.
End CollectionPayload.

Lemma collected_consistent_step utc_iso
    (detail_backend : string -> result (list RawSpan)) fuel
    collected services_seen t services :
  collected_consistent collected services_seen ->
  (exists summary spans built,
      detail_backend (ts_trace_id summary) = Ok spans /\
      _build_span_records fuel (map fresh spans) = Some built /\
      span_records built <> [] /\
      services = sorted_set (service_codes (span_records built)) /\
      t = {| tj_summary := summary_to_dict utc_iso summary;
             tj_span_count := Z.of_nat (List.length (span_records built));
             tj_services_involved := services;
             tj_root_span_node_ids := roots built;
             tj_spans := map (to_dict utc_iso) (span_records built) |}) ->
  collected_consistent (collected ++ [t]) (services_seen ++ services).
Proof.
  intros [Hall Hseen] (summary & spans & built & _ & _ & Hne & -> & ->).
  assert (Hnew : trace_consistent
    {| tj_summary := summary_to_dict utc_iso summary;
       tj_span_count := Z.of_nat (List.length (span_records built));
       tj_services_involved := sorted_set (service_codes (span_records built));
       tj_root_span_node_ids := roots built;
       tj_spans := map (to_dict utc_iso) (span_records built) |}).
  { unfold trace_consistent. simpl. rewrite length_map.
    split; [reflexivity|]. split.
    { destruct (span_records built); [congruence|simpl; lia]. }
    split; [apply sorted_set_increasing|].
    intro s. rewrite sorted_set_In, service_codes_In. split.
    - intros (rec & Hrec & E & Hs). exists (to_dict utc_iso rec).
      split; [now apply in_map|]. now split.
    - intros (sp & Hsp & E & Hs). apply in_map_iff in Hsp as (rec & <- & Hrec).
      exists rec. now repeat split. }
  split.
  - intros t Ht. apply in_app_or in Ht as [Ht|[<-|[]]].
    + destruct (Hall t Ht) as [H1 H2]. split; [exact H1|].
      intros s Hs. apply in_or_app. left. now apply H2.
    + split; [exact Hnew|]. intros s Hs. apply in_or_app. now right.
  - intros s Hs. apply in_app_or in Hs as [Hs|Hs].
    + destruct (Hseen s Hs) as (t & Ht & Hst). exists t.
      split; [apply in_or_app; now left|exact Hst].
    + eexists. split; [apply in_or_app; right; now left|exact Hs].
Qed.

(** X15.  The document of a successful run is consistent: it is the one
    document written; [collected_traces] counts its traces and is positive;
    [available_total] is the total discovery reported; every trace has a
    positive [span_count] equal to the number of its spans, and its
    [services_involved] are, in strictly increasing order, the non-empty
    service codes of its spans; [services_discovered] is, in strictly
    increasing order, the union of the traces' [services_involved]. *)
Theorem collect_traces_payload_consistent :
  forall utc_iso int_of_str list_backend detail_backend completion
         fuel size min_duration_ms payload written,
    collect_traces utc_iso int_of_str list_backend detail_backend completion
                   fuel size min_duration_ms = Some (Ok payload, written) ->
    written = [payload] /\
    requested_trace_limit payload = size /\
    min_trace_duration_ms payload = min_duration_ms /\
    (exists summaries,
        fetch_trace_summaries int_of_str list_backend fuel size 200 =
          Some (Ok (summaries, available_total payload))) /\
    collected_traces payload = Z.of_nat (List.length (payload_traces payload)) /\
    0 < collected_traces payload /\
    (forall t, In t (payload_traces payload) -> trace_consistent t) /\
    increasing (services_discovered payload) /\
    (forall s, In s (services_discovered payload) <->
               exists t, In t (payload_traces payload) /\
                         In s (tj_services_involved t)).
Proof.
  intros utc_iso int_of_str list_backend detail_backend completion
         fuel size min_duration_ms payload written Hrun.
  unfold collect_traces in Hrun.
  destruct (fetch_trace_summaries int_of_str list_backend fuel size 200)
    as [[[summaries total_available]|e]|] eqn:Efetch; try discriminate.
  destruct summaries as [|s0 rest]; [discriminate|].
  destruct (collect_loop utc_iso detail_backend fuel (completion (s0 :: rest))
                         ([], [])) as [[collected services_seen]|] eqn:Eloop;
    [|discriminate].
  assert (Hinv : collected_consistent collected services_seen).
  { apply (@collect_loop_invariant utc_iso detail_backend fuel
             collected_consistent
             (@collected_consistent_step utc_iso detail_backend fuel)
             (completion (s0 :: rest)) [] [] (collected, services_seen));
      [|exact Eloop].
    split; [intros t []|intros s []]. }
  destruct collected as [|t0 ts]; [discriminate|].
  injection Hrun as <- <-. simpl.
  destruct Hinv as [Hall Hseen].
  split; [reflexivity|]. split; [reflexivity|]. split; [reflexivity|].
  split; [now exists (s0 :: rest)|]. split; [reflexivity|]. split; [lia|].
  split; [intros t Ht; now apply Hall|].
  split; [apply sorted_set_increasing|].
  intro s. rewrite sorted_set_In. split.
  - apply Hseen.
  - intros (t & Ht & Hs). exact (proj2 (Hall t Ht) s Hs).
Qed.

Lemma collect_traces_payload_consistent_witness :
  exists payload,
    collect_traces no_utc_iso no_int_of_str three_traces flaky_detail
                   (@rev TraceSummary) 6 0 1 = Some (Ok payload, [payload]) /\
    collected_traces payload = 1 /\
    services_discovered payload = ["svc"] /\
    (forall t, In t (payload_traces payload) -> trace_consistent t).
Proof.
  destruct (collect_traces no_utc_iso no_int_of_str three_traces flaky_detail
                           (@rev TraceSummary) 6 0 1)
    as [[[payload|e] written]|] eqn:E; try (vm_compute in E; discriminate).
  destruct (collect_traces_payload_consistent _ _ _ _ _ _ _ _ E)
    as (-> & _ & _ & _ & _ & _ & Hall & _).
  exists payload. split; [reflexivity|].
  split; [vm_compute in E; injection E as <-; reflexivity|].
  split; [vm_compute in E; injection E as <-; reflexivity|].
  exact Hall.
Defined.

(** X16.  The traces of the written document are the usable traces in the
    order in which their fetches completed, each with the serialisation of
    its own summary: failed fetches and traces without usable span leave no
    entry. *)
Theorem collect_traces_in_completion_order :
  forall utc_iso int_of_str list_backend detail_backend completion
         fuel size min_duration_ms summaries total_available payload written,
    fetch_trace_summaries int_of_str list_backend fuel size 200 =
      Some (Ok (summaries, total_available)) ->
    collect_traces utc_iso int_of_str list_backend detail_backend completion
                   fuel size min_duration_ms = Some (Ok payload, written) ->
    map tj_summary (payload_traces payload) =
    map (summary_to_dict utc_iso)
        (filter (usable detail_backend) (completion summaries)).
Proof.
  intros utc_iso int_of_str list_backend detail_backend completion
         fuel size min_duration_ms summaries total_available payload written
         Hfetch Hrun.
  unfold collect_traces in Hrun. rewrite Hfetch in Hrun.
  destruct summaries as [|s0 rest]; [discriminate|].
  destruct (collect_loop utc_iso detail_backend fuel (completion (s0 :: rest))
                         ([], [])) as [[collected services_seen]|] eqn:Eloop;
    [|discriminate].
  apply collect_loop_summaries in Eloop. simpl in Eloop.
  destruct collected as [|t0 ts]; [discriminate|].
  injection Hrun as <- _. exact Eloop.
Qed.

Lemma collect_traces_in_completion_order_witness :
  exists payload,
    collect_traces no_utc_iso no_int_of_str three_traces
                   (fun _ => Ok example_spans) (@rev TraceSummary) 6 0 1 =
      Some (Ok payload, [payload]) /\
    map (fun t => yj_trace_id (tj_summary t)) (payload_traces payload) =
      ["t3"; "t2"; "t1"].
Proof.
  destruct (fetch_trace_summaries no_int_of_str three_traces 6 0 200)
    as [[[summaries total_available]|e]|] eqn:Efetch;
    try (vm_compute in Efetch; discriminate).
  destruct (collect_traces no_utc_iso no_int_of_str three_traces
                           (fun _ => Ok example_spans) (@rev TraceSummary) 6 0 1)
    as [[[payload|e] written]|] eqn:E; try (vm_compute in E; discriminate).
  pose proof (collect_traces_in_completion_order _ _ _ _ _ _ _ _ Efetch E) as H.
  exists payload. split.
  - vm_compute in E. injection E as <- <-. reflexivity.
  - rewrite <- (map_map tj_summary yj_trace_id), H.
    vm_compute in Efetch. injection Efetch as <- _. reflexivity.
Defined.

(* ------------------------------------------------------------------------- *)
(** ** Re-running the builder, and a bound on depths                          *)
(* ------------------------------------------------------------------------- *)

Lemma stage1_tag_fresh raws : forall i n c,
  stage1 i (map tag raws) n c = stage1 i (map fresh raws) n c.
Proof.
  induction raws as [|r raws IH]; intros i n c; [reflexivity|].
  cbn [map stage1]. unfold tag at 1 2 3 4, node_id_of. simpl.
  destruct (is_None (segmentId r) || is_None (spanId r)); rewrite IH;
    reflexivity.
Qed.

(** X17.  Stage 1 is idempotent on its own output: calling the builder again
    on the span dictionaries it has already annotated returns the same
    records and roots and leaves the dictionaries as they are. *)
Theorem build_again_on_annotated_spans :
  forall fuel raws res,
    _build_span_records fuel (map fresh raws) = Some res ->
    _build_span_records fuel (spans_after res) = Some res.
Proof.
  intros fuel raws res Hres.
  destruct (build_Some _ _ Hres) as (_ & _ & _ & _ & ->).
  rewrite <- Hres. unfold _build_span_records.
  now rewrite stage1_tag_fresh.
Qed.

Lemma build_again_on_annotated_spans_witness :
  exists res,
    _build_span_records 4 (map fresh example_spans) = Some res /\
    map _node_id (spans_after res) = [Some "A:0"; Some "A:1"; Some "B:0"] /\
    _build_span_records 4 (spans_after res) = Some res.
Proof.
  destruct (_build_span_records 4 (map fresh example_spans)) as [res|] eqn:E;
    [|vm_compute in E; discriminate].
  exists res. split; [reflexivity|].
  split; [vm_compute in E; injection E as <-; reflexivity|].
  exact (build_again_on_annotated_spans 4 example_spans E).
Defined.

Lemma bfs_depth_lt C : forall fuel queue depths A depths' A',
  bfs fuel C queue depths A = Some (depths', A') ->
  (forall x d, In (x, d) queue -> d <= Z.of_nat (List.length A)) ->
  (forall x d, dict_get depths x = Some d -> d < Z.of_nat (List.length A)) ->
  forall x d, dict_get depths' x = Some d -> d < Z.of_nat (List.length A').
Proof.
  induction fuel as [|fuel IH]; intros queue depths A depths' A' Hrun Hq Hd;
    simpl in Hrun; [discriminate|].
  destruct queue as [|[cur dep] q].
  - injection Hrun as <- <-. exact Hd.
  - assert (dep <= Z.of_nat (List.length A)) as Hdep by (apply (Hq cur); now left).
    eapply IH; [exact Hrun| |]; rewrite length_app; cbn [List.length].
    + intros x d H. apply in_app_or in H as [H|H].
      * assert (d <= Z.of_nat (List.length A)) by (apply (Hq x); now right). lia.
      * apply in_map_iff in H as (c & [= <- <-] & _). lia.
    + intros x d. rewrite dict_get_set.
      destruct (x =? cur)%string; [intros [= <-]; lia|].
      intro H. apply Hd in H. lia.
Qed.

(** X18.  When no two kept raw spans share a node identifier, every returned
    node has a depth below the number of returned nodes. *)
Theorem build_depth_below_node_count :
  forall raws,
    NoDup (kept_ids raws) ->
    exists res,
      _build_span_records (S (List.length raws)) (map fresh raws) = Some res /\
      forall rec, In rec (span_records res) ->
                  0 <= depth rec < Z.of_nat (List.length (span_records res)).
Proof.
  intros raws Hnd.
  pose proof (children_inverts raws Hnd) as Hch.
  pose proof (children_NoDup raws Hnd) as HchND.
  destruct (@bfs_terminates _ _ _ Hch HchND (S (List.length raws))
              (map (fun r => (r, 0)) (roots_of raws)) [] [])
    as (depths & A & Hrun & Hinv).
  { apply bfs_inv_init; [apply roots_of_NoDup|].
    intro x. apply roots_of_spec. }
  { pose proof (kept_ids_length raws). simpl. lia. }
  pose proof (bfs_inv_bound Hinv) as Hbound.
  pose proof (bfs_depth_lt _ _ _ _ _ Hrun) as Hlt.
  pose proof (bfs_nonneg _ _ _ _ _ Hrun) as Hge.
  rewrite build_unfold, Hrun. eexists. split; [reflexivity|]. simpl.
  intros rec Hin.
  assert (Hlen : List.length (assemble (map tag raws) (parents_of raws)
                                       (children_of raws) depths) =
                 List.length (kept_ids raws))
    by (rewrite <- (assemble_ids raws (parents_of raws) (children_of raws) depths);
        now rewrite length_map).
  rewrite Hlen.
  assert (0 < List.length (kept_ids raws))%nat as Hpos.
  { rewrite <- Hlen. destruct (assemble _ _ _ _); [destruct Hin|simpl; lia]. }
  apply assemble_In in Hin as (r & y & _ & _ & ->). simpl.
  unfold dict_get_default.
  destruct (dict_get depths y) as [d|] eqn:Ed; [|lia].
  split.
  - apply (Hge (fun x d' H => ltac:(apply in_map_iff in H as (c & [= <- <-] & _); lia))
               (fun x d' H => ltac:(discriminate)) y d Ed).
  - assert (d < Z.of_nat (List.length A)) as HdA.
    { apply (Hlt (fun x d' H => ltac:(apply in_map_iff in H as (c & [= <- <-] & _); simpl; lia))
                 (fun x d' H => ltac:(discriminate)) y d Ed). }
    lia.
Qed.

Lemma build_depth_below_node_count_witness :
  NoDup (kept_ids example_spans) /\
  exists res,
    _build_span_records (S (List.length example_spans)) (map fresh example_spans)
      = Some res /\
    forall rec, In rec (span_records res) ->
                0 <= depth rec < Z.of_nat (List.length (span_records res)).
Proof.
  assert (NoDup (kept_ids example_spans)) as H by (vm_compute; nodup_strings).
  split; [exact H|].
  exact (build_depth_below_node_count example_spans H).
Defined.

(* ------------------------------------------------------------------------- *)
(** ** What discovery returns, in terms of the pages it read                  *)
(* ------------------------------------------------------------------------- *)

Lemma truncate_not_reached limit (l : list TraceSummary) :
  0 <= limit -> limit_reached limit l = false -> truncate limit l = l.
Proof.
  unfold limit_reached, truncate, py_slice_to. intros Hl Hr.
  destruct (limit =? 0) eqn:E0; simpl in *; [reflexivity|].
  apply Z.leb_gt in Hr.
  destruct (0 <=? limit) eqn:E; [|apply Z.leb_gt in E; lia].
  apply firstn_all2. lia.
Qed.

Lemma truncate_exact limit (l : list TraceSummary) :
  0 < limit -> Z.of_nat (List.length l) = limit -> truncate limit l = l.
Proof.
  unfold truncate, py_slice_to. intros Hl Hlen.
  destruct (limit =? 0) eqn:E0; [apply Z.eqb_eq in E0; lia|]. simpl.
  destruct (0 <=? limit) eqn:E; [|apply Z.leb_gt in E; lia].
  apply firstn_all2. lia.
Qed.

Lemma limit_reached_exact limit (l : list TraceSummary) :
  0 < limit -> Z.of_nat (List.length l) = limit -> limit_reached limit l = true.
Proof.
  unfold limit_reached. intros Hl Hlen.
  destruct (limit =? 0) eqn:E0; [apply Z.eqb_eq in E0; lia|]. simpl.
  apply Z.leb_le. lia.
Qed.

Lemma limit_not_reached_nil limit : 0 <= limit -> limit_reached limit [] = false.
Proof.
  unfold limit_reached. intro Hl.
  destruct (limit =? 0) eqn:E0; [reflexivity|]. simpl.
  apply Z.eqb_neq in E0. apply Z.leb_gt. lia.
Qed.

Section DiscoveryResult.
Variable int_of_str : string -> option Z.
Variable list_backend : Z -> Z -> result Page.
Variable page_size : Z.

Lemma entries_of_pages_S first k :
  entries_of_pages list_backend page_size first (S k) =
  match list_backend first page_size with
  | Ok reply =>
      traces reply ++ entries_of_pages list_backend page_size (first + 1) k
  | Raise _ => []
  end.
Proof. reflexivity. Qed.

Lemma entries_of_pages_snoc : forall k first reply,
  (forall i, (i < k)%nat ->
     exists r, list_backend (first + Z.of_nat i) page_size = Ok r) ->
  list_backend (first + Z.of_nat k) page_size = Ok reply ->
  entries_of_pages list_backend page_size first (S k) =
  entries_of_pages list_backend page_size first k ++ traces reply.
Proof.
  induction k as [|k IH]; intros first reply Hserved Hreply.
  - rewrite entries_of_pages_S.
    change (Z.of_nat 0) with 0 in Hreply. rewrite Z.add_0_r in Hreply.
    rewrite Hreply. simpl. now rewrite app_nil_r.
  - destruct (Hserved O) as [r0 E0]; [lia|].
    change (Z.of_nat 0) with 0 in E0. rewrite Z.add_0_r in E0.
    rewrite (entries_of_pages_S first (S k)), (entries_of_pages_S first k), E0.
    rewrite (IH (first + 1) reply).
    + now rewrite app_assoc.
    + intros i Hi. destruct (Hserved (S i)) as [r E]; [lia|]. exists r.
      rewrite <- E. f_equal. lia.
    + rewrite <- Hreply. f_equal. lia.
Qed.

Lemma entries_of_pages_In : forall k first entry,
  In entry (entries_of_pages list_backend page_size first k) ->
  exists i r,
    (i < k)%nat /\
    list_backend (first + Z.of_nat i) page_size = Ok r /\
    In entry (traces r).
Proof.
  induction k as [|k IH]; intros first entry Hin; [destruct Hin|].
  rewrite entries_of_pages_S in Hin.
  destruct (list_backend first page_size) as [r0|e] eqn:E0; [|destruct Hin].
  apply in_app_or in Hin as [Hin|Hin].
  - exists O, r0. split; [lia|]. split; [|exact Hin].
    rewrite <- E0. f_equal. simpl. lia.
  - destruct (IH _ _ Hin) as (i & r & Hi & Er & Hr).
    exists (S i), r. split; [lia|]. split; [|exact Hr].
    rewrite <- Er. f_equal. lia.
Qed.

(** The scan only appends. *)
Lemma scan_page_extends limit : forall entries summaries seen,
  exists ext,
    fst (scan_page int_of_str limit entries summaries seen) = summaries ++ ext.
Proof.
  induction entries as [|entry rest IH]; intros summaries seen; simpl.
  - exists []. now rewrite app_nil_r.
  - destruct (traceIds entry) as [|trace_id ids]; [apply IH|].
    destruct (existsb (String.eqb trace_id) seen); [apply IH|].
    match goal with
    | |- context [limit_reached limit (summaries ++ [?new])] =>
        destruct (limit_reached limit (summaries ++ [new]));
        [exists [new]; reflexivity|];
        destruct (IH (summaries ++ [new]) (trace_id :: seen)) as [ext Hext];
        exists (new :: ext); rewrite Hext, <- app_assoc; reflexivity
    end.
Qed.

(** A scan under a limit not reached before either takes what the scan
    without limit takes, or stops when the limit is met exactly. *)
Lemma scan_limit_cases limit : forall entries summaries seen,
  0 <= limit ->
  limit_reached limit summaries = false ->
  (scan_page int_of_str limit entries summaries seen =
   scan_page int_of_str 0 entries summaries seen /\
   limit_reached limit
     (fst (scan_page int_of_str limit entries summaries seen)) = false) \/
  (0 < limit /\
   fst (scan_page int_of_str limit entries summaries seen) =
   firstn (Z.to_nat limit)
          (fst (scan_page int_of_str 0 entries summaries seen)) /\
   Z.of_nat (List.length
               (fst (scan_page int_of_str limit entries summaries seen))) =
   limit).
Proof.
  induction entries as [|entry rest IH]; intros summaries seen Hl Hr; simpl.
  - left. split; [reflexivity|exact Hr].
  - destruct (traceIds entry) as [|trace_id ids]; [now apply IH|].
    destruct (existsb (String.eqb trace_id) seen); [now apply IH|].
    match goal with
    | |- context [limit_reached limit (summaries ++ [?new])] =>
        set (summaries' := summaries ++ [new])
    end.
    destruct (limit_reached limit summaries') eqn:E; [|now apply IH].
    right. simpl.
    assert (List.length summaries' = S (List.length summaries)) as Hlen
      by (unfold summaries'; rewrite length_app; simpl; lia).
    unfold limit_reached in E, Hr.
    destruct (limit =? 0) eqn:E0; [discriminate E|]. simpl in E, Hr.
    apply Z.eqb_neq in E0. apply Z.leb_le in E. apply Z.leb_gt in Hr.
    assert (Z.to_nat limit = List.length summaries') as Hn by lia.
    split; [lia|]. split; [|lia].
    destruct (scan_page_extends 0 rest summaries' (trace_id :: seen))
      as [ext Hext].
    rewrite Hext, Hn, firstn_app, firstn_all, Nat.sub_diag, firstn_O.
    now rewrite app_nil_r.
Qed.

Local Abbreviation entries k :=
  (entries_of_pages list_backend page_size 1 k).

(** The loop of [fetch_trace_summaries], entered with [k] full pages read:
    the invariant is that either the limit is not reached and the summaries
    are those of the [k] pages, or the limit is met exactly by a prefix of
    them. *)
Lemma paging_result limit : forall fuel k summaries seen total0 l t,
  0 <= limit ->
  (forall i, (i < k)%nat ->
     full_page list_backend page_size (1 + Z.of_nat i)) ->
  (k = O \/
   exists reply, list_backend (Z.of_nat k) page_size = Ok reply /\
                 total reply = total0) ->
  ((summaries, seen) = scan_page int_of_str 0 (entries k) [] [] /\
   limit_reached limit summaries = false) \/
  (0 < limit /\
   summaries = firstn (Z.to_nat limit)
                      (all_summaries int_of_str list_backend page_size k) /\
   Z.of_nat (List.length summaries) = limit) ->
  paging int_of_str list_backend fuel limit page_size (1 + Z.of_nat k)
         summaries seen total0 = Some (Ok (l, t)) ->
  exists k' reply,
    (forall i, (i < k')%nat ->
       full_page list_backend page_size (1 + Z.of_nat i)) /\
    list_backend (1 + Z.of_nat k') page_size = Ok reply /\
    total reply = t /\
    ((0 < limit /\
      Z.of_nat (List.length l) = limit /\
      l = firstn (Z.to_nat limit)
                 (all_summaries int_of_str list_backend page_size (S k'))) \/
     (ends_data page_size reply /\
      l = all_summaries int_of_str list_backend page_size (S k'))).
Proof.
  induction fuel as [|fuel IH];
    intros k summaries seen total0 l t Hl Hfull Hprev Hstate Hrun;
    [discriminate Hrun|].
  cbn [paging] in Hrun.
  assert (forall i, (i < k)%nat ->
            exists r, list_backend (1 + Z.of_nat i) page_size = Ok r)
    as Hserved.
  { intros i Hi. destruct (Hfull i Hi) as (r & Hr & _). now exists r. }
  destruct (limit_reached limit summaries) eqn:Er.
  - (* the limit was met by the scan of page [k] *)
    injection Hrun as <- <-.
    destruct Hstate as [[_ Hf]|(Hpos & Hs & Hlen)]; [congruence|].
    destruct k as [|k].
    { exfalso. unfold all_summaries in Hs. simpl in Hs.
      rewrite firstn_nil in Hs. subst summaries. simpl in Hlen. lia. }
    destruct Hprev as [Hk|(reply & Hreply & Htotal)]; [discriminate Hk|].
    exists k, reply. split; [intros i Hi; apply Hfull; lia|].
    split; [rewrite <- Hreply; f_equal; lia|]. split; [exact Htotal|].
    left. rewrite (@truncate_exact limit _ Hpos Hlen). now repeat split.
  - destruct Hstate as [[Hs _]|(Hpos & _ & Hlen)];
      [|rewrite (@limit_reached_exact limit _ Hpos Hlen) in Er; discriminate Er].
    destruct (list_backend (1 + Z.of_nat k) page_size) as [reply|e] eqn:Ereply;
      [|discriminate Hrun].
    pose proof (@entries_of_pages_snoc k 1 reply Hserved Ereply) as Hsnoc.
    assert (scan_page int_of_str 0 (traces reply) summaries seen =
            scan_page int_of_str 0 (entries (S k)) [] []) as Hscan.
    { rewrite Hsnoc, (@scan_page_zero_app int_of_str), <- Hs. reflexivity. }
    destruct (traces reply) as [|entry rest] eqn:Etraces.
    + (* an empty page *)
      injection Hrun as <- <-. exists k, reply.
      split; [exact Hfull|]. split; [exact Ereply|]. split; [reflexivity|].
      right. split; [left; exact Etraces|].
      rewrite (@truncate_not_reached limit _ Hl Er).
      unfold all_summaries. rewrite <- Hscan. reflexivity.
    + rewrite <- Etraces in *.
      destruct (@scan_limit_cases limit (traces reply) summaries seen Hl Er)
        as [[Hsame Hnot]|(Hpos & Hfirst & Hlen)].
      * (* the limit is not reached on this page *)
        destruct (scan_page int_of_str limit (traces reply) summaries seen)
          as [summaries' seen'] eqn:Escan.
        simpl in Hnot.
        destruct (Z.of_nat (List.length (traces reply)) <? page_size)
          eqn:Eshort.
        -- injection Hrun as <- <-. exists k, reply.
           split; [exact Hfull|]. split; [exact Ereply|].
           split; [reflexivity|].
           right. split; [right; exact Eshort|].
           rewrite (@truncate_not_reached limit _ Hl Hnot).
           unfold all_summaries. rewrite <- Hscan, <- Hsame. reflexivity.
        -- replace (1 + Z.of_nat k + 1) with (1 + Z.of_nat (S k)) in Hrun
             by lia.
           apply (IH (S k) summaries' seen' (total reply) l t Hl); auto.
           ++ intros i Hi. destruct (Nat.eq_dec i k) as [->|Hne].
              ** exists reply. split; [exact Ereply|].
                 split; [rewrite Etraces; discriminate|exact Eshort].
              ** apply Hfull. lia.
           ++ right. exists reply. split; [|reflexivity].
              rewrite <- Ereply. f_equal. lia.
           ++ left. split; [|exact Hnot]. now rewrite <- Hscan, <- Hsame.
      * (* the limit is met on this page *)
        destruct (scan_page int_of_str limit (traces reply) summaries seen)
          as [summaries' seen'] eqn:Escan.
        simpl in Hfirst, Hlen. rewrite Hscan in Hfirst.
        destruct (Z.of_nat (List.length (traces reply)) <? page_size)
          eqn:Eshort.
        -- injection Hrun as <- <-. exists k, reply.
           split; [exact Hfull|]. split; [exact Ereply|].
           split; [reflexivity|].
           left. rewrite (@truncate_exact limit _ Hpos Hlen). now repeat split.
        -- replace (1 + Z.of_nat k + 1) with (1 + Z.of_nat (S k)) in Hrun
             by lia.
           apply (IH (S k) summaries' seen' (total reply) l t Hl); auto.
           ++ intros i Hi. destruct (Nat.eq_dec i k) as [->|Hne].
              ** exists reply. split; [exact Ereply|].
                 split; [rewrite Etraces; discriminate|exact Eshort].
              ** apply Hfull. lia.
           ++ right. exists reply. split; [|reflexivity].
              rewrite <- Ereply. f_equal. lia.
Qed.

End DiscoveryResult.

Lemma fetch_trace_summaries_result int_of_str list_backend fuel limit
    page_size l t :
  0 <= limit ->
  fetch_trace_summaries int_of_str list_backend fuel limit page_size =
    Some (Ok (l, t)) ->
  exists k reply,
    (forall i, (i < k)%nat ->
       full_page list_backend (asked_page_size limit page_size)
                 (1 + Z.of_nat i)) /\
    list_backend (1 + Z.of_nat k) (asked_page_size limit page_size) =
      Ok reply /\
    total reply = t /\
    ((0 < limit /\
      Z.of_nat (List.length l) = limit /\
      l = firstn (Z.to_nat limit)
                 (all_summaries int_of_str list_backend
                                (asked_page_size limit page_size) (S k))) \/
     (ends_data (asked_page_size limit page_size) reply /\
      l = all_summaries int_of_str list_backend
                        (asked_page_size limit page_size) (S k))).
Proof.
  intros Hl Hrun.
  apply (@paging_result int_of_str list_backend
           (asked_page_size limit page_size) limit fuel O [] [] 0 l t Hl).
  - intros i Hi. lia.
  - now left.
  - left. split; [reflexivity|now apply limit_not_reached_nil].
  - exact Hrun.
Qed.

Lemma fetch_trace_summaries_negative int_of_str list_backend fuel limit
    page_size l t :
  limit < 0 ->
  fetch_trace_summaries int_of_str list_backend fuel limit page_size =
    Some (Ok (l, t)) ->
  l = [] /\ t = 0.
Proof.
  intros Hneg Hrun. destruct fuel as [|fuel]; [discriminate Hrun|].
  unfold fetch_trace_summaries in Hrun. cbn [paging] in Hrun.
  assert (limit_reached limit [] = true) as Hr.
  { unfold limit_reached. destruct (limit =? 0) eqn:E0;
      [apply Z.eqb_eq in E0; lia|]. simpl. apply Z.leb_le. lia. }
  rewrite Hr in Hrun. injection Hrun as <- <-. split; [|reflexivity].
  unfold truncate, py_slice_to.
  destruct (negb (limit =? 0)); [|reflexivity].
  destruct (0 <=? limit); apply firstn_nil.
Qed.

Lemma firstn_incl (A : Type) n (l : list A) x : In x (firstn n l) -> In x l.
Proof.
  intro H. rewrite <- (firstn_skipn n l). apply in_or_app. now left.
Qed.

(** X14.  What the call returns comes from the pages it read.  With a
    negative limit it reads none and returns the empty list and total 0.
    Otherwise it read pages 1 to [k + 1] for the page size asked, the first
    [k] of them full; the reported total is the one of the reply to page
    [k + 1], and every summary returned is built from an entry of one of
    these pages: the entry's first trace identifier, its duration and start
    converted by [int()] with fallback 0, its error flag and its endpoint
    names. *)
Theorem discovery_summaries_come_from_backend :
  forall int_of_str list_backend fuel limit page_size l t,
    fetch_trace_summaries int_of_str list_backend fuel limit page_size =
      Some (Ok (l, t)) ->
    (limit < 0 /\ l = [] /\ t = 0) \/
    (0 <= limit /\
     exists k reply,
       (forall i, (i < k)%nat ->
          full_page list_backend (asked_page_size limit page_size)
                    (1 + Z.of_nat i)) /\
       list_backend (1 + Z.of_nat k) (asked_page_size limit page_size) =
         Ok reply /\
       total reply = t /\
       forall s, In s l ->
         exists i served entry,
           (i <= k)%nat /\
           list_backend (1 + Z.of_nat i) (asked_page_size limit page_size) =
             Ok served /\
           In entry (traces served) /\
           entry_summary int_of_str entry = Some s).
Proof.
  intros int_of_str list_backend fuel limit page_size l t Hrun.
  destruct (Z_lt_le_dec limit 0) as [Hneg|Hl].
  - left. split; [exact Hneg|].
    exact (fetch_trace_summaries_negative _ _ _ _ Hneg Hrun).
  - right. split; [exact Hl|].
    destruct (fetch_trace_summaries_result _ _ _ _ Hl Hrun)
      as (k & reply & Hfull & Hreply & Htotal & Hcases).
    exists k, reply. split; [exact Hfull|]. split; [exact Hreply|].
    split; [exact Htotal|]. intros s Hs.
    assert (In s (all_summaries int_of_str list_backend
                                (asked_page_size limit page_size) (S k)))
      as Hall.
    { destruct Hcases as [(_ & _ & ->)|(_ & ->)].
      - eapply firstn_incl. exact Hs.
      - exact Hs. }
    clear Hs. unfold all_summaries in Hall. revert s Hall.
    apply scan_page_sound.
    + intros s [].
    + intros entry s Hin Hs.
      apply entries_of_pages_In in Hin as (i & served & Hi & Hserved & Hin).
      exists i, served, entry. split; [lia|]. now repeat split.
Qed.

Lemma discovery_summaries_come_from_backend_witness :
  exists l t,
    fetch_trace_summaries no_int_of_str overlapping_pages 5 0 2 =
      Some (Ok (l, t)) /\
    map ts_trace_id l = ["t1"; "t2"; "t3"] /\
    ((0 < 0 /\ l = [] /\ t = 0) \/
     (0 <= 0 /\
      exists k reply,
        (forall i, (i < k)%nat ->
           full_page overlapping_pages (asked_page_size 0 2)
                     (1 + Z.of_nat i)) /\
        overlapping_pages (1 + Z.of_nat k) (asked_page_size 0 2) = Ok reply /\
        total reply = t /\
        forall s, In s l ->
          exists i served entry,
            (i <= k)%nat /\
            overlapping_pages (1 + Z.of_nat i) (asked_page_size 0 2) =
              Ok served /\
            In entry (traces served) /\
            entry_summary no_int_of_str entry = Some s)).
Proof.
  destruct (fetch_trace_summaries no_int_of_str overlapping_pages 5 0 2)
    as [[[l t]|e]|] eqn:E; try (vm_compute in E; discriminate).
  exists l, t. split; [reflexivity|].
  split; [vm_compute in E; injection E as <- <-; reflexivity|].
  exact (discovery_summaries_come_from_backend _ _ _ _ _ E).
Defined.



(** The same backend under the limit 2, evaluated: the limit is met on the
    first page, which is full, and two of the three traces are returned. *)
Example discovery_meets_limit :
  option_map (fun r => match r with
                       | Ok (l, t) => Some (map ts_trace_id l, t)
                       | Raise _ => None
                       end)
             (fetch_trace_summaries no_int_of_str overlapping_pages 4 2 2) =
  Some (Some (["t1"; "t2"], 3)).
Proof. vm_compute. reflexivity. Qed.
